(** * A segregated free-list allocator (mm.c): model and properties

    The allocator of [mm.c] manages one growable heap region with
    boundary-tagged blocks and sixteen circular, doubly linked free lists.
    The development below embeds the C code function by function in a
    state-and-error monad over a word-addressed memory, and then states and
    proves properties of [mm_malloc], [mm_free], [mm_realloc] and their
    helpers.

    Modelling conventions.
    - A machine word is 8 bytes ([WSIZE = sizeof(void * )] on a 64-bit
      target).  [size_t] and [uintptr_t] values are integers in
      [0, 2^64); every arithmetic operation of the source is followed by an
      explicit reduction modulo [2^64].
    - Pointers are addresses, i.e. words; [NULL] is 0 and pointer arithmetic
      wraps like [uintptr_t] arithmetic.
    - Memory is a finite map from the byte address of an aligned word to
      the word stored there.  A load or store is defined only for an
      8-byte aligned address inside the region handed out so far by
      [mem_sbrk]; any other access is the outcome [Fault] (the C program
      has undefined behaviour there). *)

From Stdlib Require Import ZArith Bool List Lia.
From stdpp Require Import base option list gmap.

Local Open Scope Z_scope.

(** ** Machine words *)

Definition wrap (x : Z) : Z := x mod 2 ^ 64.
Definition wadd (x y : Z) : Z := wrap (x + y).
Definition wsub (x y : Z) : Z := wrap (x - y).
Definition wmul (x y : Z) : Z := wrap (x * y).

(** Bitwise complement of a [size_t]. *)
Definition wnot (x : Z) : Z := Z.land (Z.lnot x) (Z.ones 64).

(** ** Basic constants and macros *)

Definition WSIZE : Z := 8.
Definition DSIZE : Z := 2 * WSIZE.
Definition CHUNKSIZE : Z := Z.shiftl 1 12.
Definition ALIGN : Z := 16.
Definition NUM : Z := 16.
Definition NULL : Z := 0.

Definition MAX (x y : Z) : Z := if y <? x then x else y.

Definition PACK (size alloc : Z) : Z := Z.lor size alloc.

(** ** Outcomes and the allocator state *)

Inductive result (A : Type) : Type :=
| Ok (a : A)
| Fault
| Timeout.
Arguments Ok {A} a.
Arguments Fault {A}.
Arguments Timeout {A}.

(** The first three fields are the private variables of the memory system
    [memlib], the last two are the globals of [mm.c]. *)
Record state : Type := mkState {
  mem_heap : Z;
  mem_brk : Z;
  mem_max_addr : Z;
  cells : gmap Z Z;
  heap_listp : Z;
  free_lists : Z
}.

Definition M (A : Type) : Type := state -> result (A * state).

Definition ret {A} (a : A) : M A := fun st => Ok (a, st).

Definition bind {A B} (m : M A) (k : A -> M B) : M B :=
  fun st =>
    match m st with
    | Ok (a, st') => k a st'
    | Fault => Fault
    | Timeout => Timeout
    end.

Notation "x <- m ;; k" := (bind m (fun x => k))
  (at level 100, m at next level, right associativity).
Notation "m ;;; k" := (bind m (fun _ => k))
  (at level 100, right associativity).

Definition valid (st : state) (p : Z) : bool :=
  (mem_heap st <=? p) && (p + WSIZE <=? mem_brk st) && (p mod WSIZE =? 0).

(** Read and write a word at address p. *)
Definition GET (p : Z) : M Z := fun st =>
  if valid st p then Ok (default 0 (cells st !! p), st) else Fault.

Definition PUT (p val : Z) : M unit := fun st =>
  if valid st p
  then Ok (tt, mkState (mem_heap st) (mem_brk st) (mem_max_addr st)
                 (<[p := val]> (cells st)) (heap_listp st) (free_lists st))
  else Fault.

Definition get_heap_listp : M Z := fun st => Ok (heap_listp st, st).
Definition get_free_lists : M Z := fun st => Ok (free_lists st, st).

Definition set_heap_listp (p : Z) : M unit := fun st =>
  Ok (tt, mkState (mem_heap st) (mem_brk st) (mem_max_addr st)
            (cells st) p (free_lists st)).

Definition set_free_lists (p : Z) : M unit := fun st =>
  Ok (tt, mkState (mem_heap st) (mem_brk st) (mem_max_addr st)
            (cells st) (heap_listp st) p).

(** Modelled from the spec: the heap-growth primitive [mem_sbrk] of
    memlib, which is not part of mm.c: "request N more bytes, get back a
    pointer or failure".  On success the break moves up by [incr] and the
    old break is returned; on failure [(void * )-1] is returned and nothing
    changes.  Words that were never written read as 0. *)
Definition mem_sbrk (incr : Z) : M Z := fun st =>
  if (incr <? 0) || (mem_max_addr st <? mem_brk st + incr)
  then Ok (wrap (-1), st)
  else Ok (mem_brk st,
           mkState (mem_heap st) (mem_brk st + incr) (mem_max_addr st)
             (cells st) (heap_listp st) (free_lists st)).

(** Pointer plus byte offset. *)
Definition padd (p k : Z) : Z := wrap (p + k).

(** Read the size and allocated fields from address p. *)
Definition GET_SIZE (p : Z) : M Z :=
  w <- GET p ;; ret (Z.land w (wnot (DSIZE - 1))).

Definition GET_ALLOC (p : Z) : M Z :=
  w <- GET p ;; ret (Z.land w 1).

(** Given block ptr bp, compute address of its header and footer. *)
Definition HDRP (bp : Z) : Z := padd bp (- WSIZE).

Definition FTRP (bp : Z) : M Z :=
  s <- GET_SIZE (HDRP bp) ;; ret (padd (padd bp s) (- DSIZE)).

(** Given block ptr bp, compute address of next and previous blocks. *)
Definition NEXT_BLKP (bp : Z) : M Z :=
  s <- GET_SIZE (padd bp (- WSIZE)) ;; ret (padd bp s).

Definition PREV_BLKP (bp : Z) : M Z :=
  s <- GET_SIZE (padd bp (- DSIZE)) ;; ret (padd bp (- s)).

(** [struct Node]: [next] at offset 0, [prev] at offset [WSIZE]. *)
Definition node_next (n : Z) : Z := n.
Definition node_prev (n : Z) : Z := padd n WSIZE.

(** Address of [free_lists + i]. *)
Definition list_head (fl i : Z) : Z := padd fl (wmul i DSIZE).

(** ** Helper functions *)

Definition find_explicit (size : Z) : Z :=
  if size <=? 64 then 0
  else if size <=? 128 then 1
  else if size <=? 256 then 2
  else if size <=? 500 then 3
  else if size <=? 750 then 4
  else if size <=? 1000 then 5
  else if size <=? 2000 then 6
  else if size <=? 3000 then 7
  else if size <=? 4000 then 8
  else if size <=? 5000 then 9
  else if size <=? 6000 then 10
  else if size <=? 7000 then 11
  else if size <=? 8000 then 12
  else if size <=? 9000 then 13
  else 14.

Definition deleteBlock (bp : Z) : M unit :=
  let copy_bp := bp in
  p <- GET (node_prev copy_bp) ;;
  n <- GET (node_next copy_bp) ;;
  PUT (node_next p) n ;;;
  n' <- GET (node_next copy_bp) ;;
  p' <- GET (node_prev copy_bp) ;;
  PUT (node_prev n') p'.

Definition insertBlock (bp : Z) : M unit :=
  let cur := bp in
  s <- GET_SIZE (HDRP bp) ;;
  let explicit := find_explicit s in
  fl <- get_free_lists ;;
  let head := list_head fl explicit in
  temp <- GET (node_next head) ;;
  PUT (node_next head) cur ;;;
  PUT (node_prev temp) cur ;;;
  PUT (node_prev cur) head ;;;
  PUT (node_next cur) temp.

Definition coalesce (bp : Z) : M Z :=
  size <- GET_SIZE (HDRP bp) ;;
  pb <- PREV_BLKP bp ;;
  pf <- FTRP pb ;;
  prev_alloc <- GET_ALLOC pf ;;
  nb <- NEXT_BLKP bp ;;
  next_alloc <- GET_ALLOC (HDRP nb) ;;
  if negb (prev_alloc =? 0) && negb (next_alloc =? 0) then
    (* Case 1 *)
    insertBlock bp ;;;
    ret bp
  else if negb (prev_alloc =? 0) && (next_alloc =? 0) then
    (* Case 2 *)
    nb <- NEXT_BLKP bp ;;
    deleteBlock nb ;;;
    nb <- NEXT_BLKP bp ;;
    ns <- GET_SIZE (HDRP nb) ;;
    let size := wadd size ns in
    PUT (HDRP bp) (PACK size 0) ;;;
    f <- FTRP bp ;;
    PUT f (PACK size 0) ;;;
    insertBlock bp ;;;
    ret bp
  else if (prev_alloc =? 0) && negb (next_alloc =? 0) then
    (* Case 3 *)
    pb <- PREV_BLKP bp ;;
    ps <- GET_SIZE (HDRP pb) ;;
    let size := wadd size ps in
    pb <- PREV_BLKP bp ;;
    deleteBlock pb ;;;
    f <- FTRP bp ;;
    PUT f (PACK size 0) ;;;
    pb <- PREV_BLKP bp ;;
    PUT (HDRP pb) (PACK size 0) ;;;
    bp <- PREV_BLKP bp ;;
    insertBlock bp ;;;
    ret bp
  else
    (* Case 4 *)
    nb <- NEXT_BLKP bp ;;
    deleteBlock nb ;;;
    pb <- PREV_BLKP bp ;;
    deleteBlock pb ;;;
    pb <- PREV_BLKP bp ;;
    ps <- GET_SIZE (HDRP pb) ;;
    nb <- NEXT_BLKP bp ;;
    nf <- FTRP nb ;;
    ns <- GET_SIZE nf ;;
    let size := wadd size (wadd ps ns) in
    pb <- PREV_BLKP bp ;;
    PUT (HDRP pb) (PACK size 0) ;;;
    nb <- NEXT_BLKP bp ;;
    nf <- FTRP nb ;;
    PUT nf (PACK size 0) ;;;
    bp <- PREV_BLKP bp ;;
    insertBlock bp ;;;
    ret bp.

Definition extend_heap (words : Z) : M Z :=
  (* Allocate an even number of words to maintain alignment. *)
  let size := if negb (words mod 2 =? 0)
              then wmul (wadd words 1) WSIZE
              else wmul words WSIZE in
  bp <- mem_sbrk size ;;
  if bp =? wrap (-1) then ret NULL
  else
    (* Initialize free block header/footer and the epilogue header. *)
    PUT (HDRP bp) (PACK size 0) ;;;
    f <- FTRP bp ;;
    PUT f (PACK size 0) ;;;
    nb <- NEXT_BLKP bp ;;
    PUT (HDRP nb) (PACK 0 1) ;;;
    (* Coalesce if the previous block was free. *)
    coalesce bp.

(** The inner loop of [find_fit]: walk one circular list from [bp] until
    the sentinel [temp] comes up again.  [None] means the list is
    exhausted; the traversal is bounded by [fuel]. *)
Fixpoint find_in_list (fuel : nat) (temp bp asize : Z) : M (option Z) :=
  match fuel with
  | O => fun _ => Timeout
  | S fuel' =>
      if bp =? temp then ret None
      else
        s <- GET_SIZE (HDRP bp) ;;
        if asize <=? s then ret (Some bp)
        else
          nx <- GET (node_next bp) ;;
          find_in_list fuel' temp nx asize
  end.

(** The outer loop of [find_fit]: [for (i = ...; i < NUM; i++)], with
    [n] bounding the number of iterations left. *)
Fixpoint find_from_class (n : nat) (fuel : nat) (i asize : Z) : M Z :=
  match n with
  | O => ret NULL
  | S n' =>
      if i <? NUM then
        fl <- get_free_lists ;;
        let temp := list_head fl i in
        first <- GET (node_next temp) ;;
        r <- find_in_list fuel temp first asize ;;
        match r with
        | Some bp => ret bp
        | None => find_from_class n' fuel (i + 1) asize
        end
      else ret NULL
  end.

Definition find_fit (fuel : nat) (asize : Z) : M Z :=
  let size := find_explicit asize in
  find_from_class (Z.to_nat NUM) fuel size asize.

Definition place (bp asize : Z) : M unit :=
  csize <- GET_SIZE (HDRP bp) ;;
  if ALIGN + DSIZE <=? wsub csize asize then
    PUT (HDRP bp) (PACK asize 1) ;;;
    f <- FTRP bp ;;
    PUT f (PACK asize 1) ;;;
    deleteBlock bp ;;;
    bp <- NEXT_BLKP bp ;;
    PUT (HDRP bp) (PACK (wsub csize asize) 0) ;;;
    f <- FTRP bp ;;
    PUT f (PACK (wsub csize asize) 0) ;;;
    let split := bp in
    insertBlock split
  else
    PUT (HDRP bp) (PACK csize 1) ;;;
    f <- FTRP bp ;;
    PUT f (PACK csize 1) ;;;
    let cur := bp in
    deleteBlock cur.

(** [memcpy] of the C library on word-aligned operands: [n] bytes, i.e.
    [n / WSIZE] words, are read from [src] and then written to [dst].  The
    only call site passes a block size, a multiple of [DSIZE]. *)
Fixpoint read_words (n : nat) (src : Z) : M (list Z) :=
  match n with
  | O => ret []
  | S n' =>
      w <- GET src ;;
      ws <- read_words n' (padd src WSIZE) ;;
      ret (w :: ws)
  end.

Fixpoint write_words (dst : Z) (ws : list Z) : M unit :=
  match ws with
  | [] => ret tt
  | w :: ws' => PUT dst w ;;; write_words (padd dst WSIZE) ws'
  end.

Definition memcpy (dst src n : Z) : M unit :=
  ws <- read_words (Z.to_nat (n / WSIZE)) src ;;
  write_words dst ws.

(** ** The public operations *)

(** The loop [for (i = 0; i < NUM; i++)] of [mm_init]. *)
Fixpoint init_lists (n : nat) (i : Z) : M unit :=
  match n with
  | O => ret tt
  | S n' =>
      if i <? NUM then
        fl <- get_free_lists ;;
        let cur := list_head fl i in
        PUT (node_next cur) cur ;;;
        PUT (node_prev cur) cur ;;;
        init_lists n' (i + 1)
      else ret tt
  end.

Definition mm_init : M Z :=
  temp <- mem_sbrk (wmul NUM DSIZE) ;;
  if temp =? wrap (-1) then ret (-1)
  else
    set_free_lists temp ;;;
    init_lists (Z.to_nat NUM) 0 ;;;
    hp <- mem_sbrk (wmul 4 WSIZE) ;;
    set_heap_listp hp ;;;
    if hp =? wrap (-1) then ret (-1)
    else
      PUT hp 0 ;;;                                      (* Alignment padding *)
      PUT (padd hp (wmul 1 WSIZE)) (PACK DSIZE 1) ;;;   (* Prologue header *)
      PUT (padd hp (wmul 2 WSIZE)) (PACK DSIZE 1) ;;;   (* Prologue footer *)
      PUT (padd hp (wmul 3 WSIZE)) (PACK 0 1) ;;;       (* Epilogue header *)
      set_heap_listp (padd hp (wmul 2 WSIZE)) ;;;
      (* Extend the empty heap with a free block of CHUNKSIZE bytes. *)
      bp <- extend_heap (CHUNKSIZE / WSIZE) ;;
      if bp =? NULL then ret (-1) else ret 0.

(** The adjusted block size of [mm_malloc]. *)
Definition malloc_asize (size : Z) : Z :=
  if size <=? DSIZE then wmul 2 DSIZE
  else wadd (wmul ALIGN (wadd size (ALIGN - 1) / ALIGN)) DSIZE.

Definition mm_malloc (fuel : nat) (size : Z) : M Z :=
  (* Ignore spurious requests. *)
  if size =? 0 then ret NULL
  else
    (* Adjust block size to include overhead and alignment reqs. *)
    let asize := malloc_asize size in
    (* Search the free list for a fit. *)
    bp <- find_fit fuel asize ;;
    if negb (bp =? NULL) then
      place bp asize ;;;
      ret bp
    else
      (* No fit found.  Get more memory and place the block. *)
      let extendsize := wadd asize (wmul 2 WSIZE) in
      bp <- extend_heap (extendsize / WSIZE) ;;
      if bp =? NULL then ret NULL
      else
        place bp asize ;;;
        ret bp.

Definition mm_free (bp : Z) : M unit :=
  (* Ignore spurious requests. *)
  if bp =? NULL then ret tt
  else
    (* Free and coalesce the block. *)
    size <- GET_SIZE (HDRP bp) ;;
    PUT (HDRP bp) (PACK size 0) ;;;
    f <- FTRP bp ;;
    PUT f (PACK size 0) ;;;
    _ <- coalesce bp ;;
    ret tt.

(** The adjusted block size of [mm_realloc]. *)
Definition realloc_asize (size : Z) : Z :=
  if size <=? DSIZE then wmul 2 DSIZE
  else wmul DSIZE (wadd (wadd size DSIZE) (DSIZE - 1) / DSIZE).

(** The last part of [mm_realloc]: get a new block, copy, free the old. *)
Definition realloc_move (fuel : nat) (ptr oldsize asize : Z) : M Z :=
  newptr <- mm_malloc fuel (wmul (MAX oldsize asize) 10) ;;
  if newptr =? NULL then ret NULL
  else
    memcpy newptr ptr oldsize ;;;
    mm_free ptr ;;;
    ret newptr.

Definition mm_realloc (fuel : nat) (ptr size : Z) : M Z :=
  oldsize <- GET_SIZE (HDRP ptr) ;;
  let asize := realloc_asize size in
  (* If size == 0 then this is just free, and we return NULL. *)
  if size =? 0 then
    mm_free ptr ;;;
    ret NULL
  else
    (* If oldptr is NULL, then this is just malloc. *)
    if ptr =? NULL then mm_malloc fuel size
    else if asize <=? oldsize then ret ptr
    else
      (* If the next block is free, we allocate it *)
      nb <- NEXT_BLKP ptr ;;
      next_size <- GET_SIZE nb ;;
      nb <- NEXT_BLKP ptr ;;
      next_alloc <- GET_ALLOC nb ;;
      if (next_alloc =? 0) && (wadd oldsize next_size <=? asize) then
        next <- NEXT_BLKP ptr ;;
        deleteBlock next ;;;
        (* Allocate block to account for new size *)
        PUT (HDRP ptr) (PACK (wadd oldsize next_size) 1) ;;;
        f <- FTRP ptr ;;
        PUT f (PACK (wadd oldsize next_size) 1) ;;;
        ret ptr
      else
        (* Get a new bit of free memory when realloc isn't possible on
           current heap *)
        realloc_move fuel ptr oldsize asize.

(** * Notions used in the statements *)

(** ** Frames *)

(** The word stored at an address; words never written read as 0. *)
Definition peek (st : state) (p : Z) : Z := default 0 (cells st !! p).

(** Code that only reads leaves the state as it is. *)
Class ReadOnly {A} (m : M A) : Prop :=
  read_only : forall st a st', m st = Ok (a, st') -> st' = st.

(** Code that only loads and stores keeps the bounds of the heap region
    and the two globals. *)
Definition same_frame (st st' : state) : Prop :=
  mem_heap st' = mem_heap st /\ mem_brk st' = mem_brk st /\
  mem_max_addr st' = mem_max_addr st /\
  heap_listp st' = heap_listp st /\ free_lists st' = free_lists st.

Class Framed {A} (m : M A) : Prop :=
  framed : forall st a st', m st = Ok (a, st') -> same_frame st st'.

(** The bounds of the heap region are in order, [NULL] lies below the
    region and [(void * )-1] above it. *)
Definition sane (st : state) : Prop :=
  0 < mem_heap st /\ mem_heap st <= mem_brk st /\
  mem_brk st <= mem_max_addr st /\ mem_max_addr st < 2 ^ 64 - 1.

(** ** Sizes and classes in the words of the specification *)

(** The rounding rule in the words of the specification, over unbounded
    integers: [max(2*doubleword, roundUp(size, alignment) + doubleword)]. *)
Definition round_up (n a : Z) : Z := a * ((n + a - 1) / a).

Definition adjusted_size_spec (size : Z) : Z :=
  Z.max (2 * DSIZE) (round_up size ALIGN + DSIZE).

(** The reference cutoffs, in increasing order. *)
Definition cutoffs : list Z :=
  [64; 128; 256; 500; 750; 1000; 2000; 3000; 4000; 5000; 6000; 7000; 8000;
   9000].

(** The class of a size in the words of the specification: a step function
    over the cutoffs, i.e. the number of cutoffs the size exceeds. *)
Fixpoint count_below (size : Z) (cs : list Z) : Z :=
  match cs with
  | [] => 0
  | c :: cs' => (if c <? size then 1 else 0) + count_below size cs'
  end.

Definition class_by_cutoffs (size : Z) : Z := count_below size cutoffs.

(** The claim that the classification uses sixteen classes: every index
    below [NUM] is the class of some size. *)
Definition sixteen_classes : Prop :=
  forall c, 0 <= c < NUM -> exists n, 0 <= n /\ find_explicit n = c.

(** ** The paths of [mm_realloc] *)

(** The conditions under which [mm_realloc ptr size] takes its last path,
    allocate-copy-free, on a block whose header holds size [oldsize]. *)
Definition copy_path (st : state) (ptr size oldsize : Z) : Prop :=
  size <> 0 /\ ptr <> NULL /\
  GET_SIZE (HDRP ptr) st = Ok (oldsize, st) /\
  oldsize < realloc_asize size /\
  exists nb next_size next_alloc,
    NEXT_BLKP ptr st = Ok (nb, st) /\
    GET_SIZE nb st = Ok (next_size, st) /\
    GET_ALLOC nb st = Ok (next_alloc, st) /\
    (next_alloc =? 0) && (wadd oldsize next_size <=? realloc_asize size)
    = false.


(** ** Free lists *)

(** The size field of a block. *)
Definition block_size (st : state) (bp : Z) : Z :=
  Z.land (peek st (HDRP bp)) (wnot (DSIZE - 1)).

(** [chain st temp bp l]: following the [next] links from [bp] visits the
    nodes [l], in this order, and then reaches the sentinel [temp]. *)
Inductive chain (st : state) (temp : Z) : Z -> list Z -> Prop :=
| chain_nil : chain st temp temp []
| chain_cons bp l :
    bp <> temp ->
    valid st (HDRP bp) = true ->
    valid st (node_next bp) = true ->
    chain st temp (peek st (node_next bp)) l ->
    chain st temp bp (bp :: l).

(** The circular list of class [i] holds the nodes [l]. *)
Definition class_list (st : state) (i : Z) (l : list Z) : Prop :=
  let temp := list_head (free_lists st) i in
  valid st (node_next temp) = true /\
  chain st temp (peek st (node_next temp)) l.

(** The lists of the classes [i], [i + 1], ... hold the nodes [ls]. *)
Fixpoint class_lists (st : state) (i : Z) (ls : list (list Z)) : Prop :=
  match ls with
  | [] => True
  | l :: ls' => class_list st i l /\ class_lists st (i + 1) ls'
  end.

(** The first block of a list that is large enough. *)
Fixpoint first_fit (st : state) (asize : Z) (l : list Z) : option Z :=
  match l with
  | [] => None
  | bp :: l' =>
      if asize <=? block_size st bp then Some bp else first_fit st asize l'
  end.

(** A decision procedure for [chain] and [class_lists] on concrete heaps. *)
Fixpoint check_chain (st : state) (temp bp : Z) (l : list Z) : bool :=
  match l with
  | [] => bp =? temp
  | b :: l' =>
      (b =? bp) && negb (bp =? temp) && valid st (HDRP bp) &&
      valid st (node_next bp) &&
      check_chain st temp (peek st (node_next bp)) l'
  end.

Fixpoint check_class_lists (st : state) (i : Z) (ls : list (list Z)) : bool :=
  match ls with
  | [] => true
  | l :: ls' =>
      let temp := list_head (free_lists st) i in
      valid st (node_next temp) &&
      check_chain st temp (peek st (node_next temp)) l &&
      check_class_lists st (i + 1) ls'
  end.

(** ** Physically adjacent free blocks *)

(** The walk of [checkheap] over the blocks, from [bp] to the epilogue,
    looking for a free block whose physical successor is a free block. *)
Fixpoint adjacent_free_from (fuel : nat) (bp : Z) : M bool :=
  match fuel with
  | O => fun _ => Timeout
  | S fuel' =>
      s <- GET_SIZE (HDRP bp) ;;
      if s =? 0 then ret false
      else
        a <- GET_ALLOC (HDRP bp) ;;
        nb <- NEXT_BLKP bp ;;
        ns <- GET_SIZE (HDRP nb) ;;
        na <- GET_ALLOC (HDRP nb) ;;
        if (a =? 0) && (na =? 0) && negb (ns =? 0) then ret true
        else adjacent_free_from fuel' nb
  end.

Definition adjacent_free (fuel : nat) : M bool :=
  hp <- get_heap_listp ;;
  adjacent_free_from fuel hp.

(** ** Concrete heaps

    memlib serves the heap from one region of [MAX_HEAP] bytes obtained
    from the system allocator; the region below starts at a 16-byte
    aligned address of the usual magnitude. *)

Definition MAX_HEAP : Z := 20 * Z.shiftl 1 20.

Definition mem_init (base : Z) : state :=
  mkState base base (base + MAX_HEAP) ∅ 0 0.

Definition base0 : Z := 0x7f0000000010.

(** The final state of a run, for runs that are known to succeed. *)
Definition state_of {A} (r : result (A * state)) : state :=
  match r with
  | Ok (_, st) => st
  | _ => mem_init 0
  end.

(** The heap right after [mm_init]: one free block of [CHUNKSIZE] bytes. *)
Definition st_init : state := state_of (mm_init (mem_init base0)).

(** The first block of the heap, right after the prologue. *)
Definition first_bp : Z := base0 + 288.

(** The heap after [mm_init] and one [mm_malloc 16]: the block at
    [first_bp] is allocated with size 32, the rest of the first chunk is
    one free block of size 4064 at [first_bp + 32]. *)
Definition st_alloc16 : state := state_of (mm_malloc 100 16 st_init).

(** A heap with two free blocks in class 2 and one in class 8: blocks of
    150, 16, 200 and 16 bytes are allocated, then the third and the first
    are freed. *)
Definition st_two_free : state :=
  state_of ((a <- mm_malloc 100 150 ;;
             _ <- mm_malloc 100 16 ;;
             c <- mm_malloc 100 200 ;;
             _ <- mm_malloc 100 16 ;;
             mm_free c ;;;
             mm_free a) st_init).

Definition lists_two_free : list (list Z) :=
  [[first_bp; first_bp + 208]; []; []; []; []; []; [first_bp + 464];
   []; []; []; []; []; []; []].

(** Four operations on a freshly initialized heap. *)
Definition overflow_scenario : M (Z * Z * Z) :=
  x <- mm_malloc 100 (2 ^ 64 - 20) ;;
  a <- mm_malloc 100 16 ;;
  b <- mm_malloc 100 16 ;;
  mm_free a ;;;
  ret (x, a, b).

(** A heap with a block of 1024 bytes at [first_bp] followed by a block
    of 32 bytes in whose payload the user has stored the word 1. *)
Definition st_user_data : state :=
  state_of ((_ <- mm_malloc 100 1000 ;;
             q <- mm_malloc 100 16 ;;
             PUT q 1) st_init).

(** ** Growth of the heap region *)

(** The number of bytes [extend_heap words] asks of [mem_sbrk]: an even
    number of words. *)
Definition heap_growth (words : Z) : Z :=
  if negb (words mod 2 =? 0) then wmul (wadd words 1) WSIZE
  else wmul words WSIZE.

(** The state with the break moved up by [incr]. *)
Definition with_brk (st : state) (incr : Z) : state :=
  mkState (mem_heap st) (mem_brk st + incr) (mem_max_addr st)
    (cells st) (heap_listp st) (free_lists st).

(** The break has not moved down, the bounds of the region and the two
    globals are as they were. *)
Definition grown (st st' : state) : Prop :=
  mem_heap st' = mem_heap st /\ mem_max_addr st' = mem_max_addr st /\
  heap_listp st' = heap_listp st /\ free_lists st' = free_lists st /\
  mem_brk st <= mem_brk st'.

(** ** Doubly linked lists *)

(** The state with the word at [p] replaced by [v]: the effect of a
    successful [PUT]. *)
Definition upd (st : state) (p v : Z) : state :=
  mkState (mem_heap st) (mem_brk st) (mem_max_addr st)
    (<[p := v]> (cells st)) (heap_listp st) (free_lists st).

(** [linked st x l last]: starting at node [x], the [next] links run
    through the nodes [l] and end at [last], and the [prev] link of each
    node visited, [last] included, points back to the node before it. *)
Fixpoint linked (st : state) (x : Z) (l : list Z) (last : Z) : Prop :=
  match l with
  | [] => peek st x = last /\ peek st (last + WSIZE) = x
  | y :: l' =>
      peek st x = y /\ peek st (y + WSIZE) = x /\ linked st y l' last
  end.

(** A node: a doubleword-aligned address whose two link words are in the
    heap. *)
Definition node_ok (st : state) (x : Z) : Prop :=
  x mod DSIZE = 0 /\ valid st x = true /\ valid st (x + WSIZE) = true.

(** The circular doubly linked list with sentinel [h] holds the nodes
    [l], all different. *)
Definition dlist (st : state) (h : Z) (l : list Z) : Prop :=
  List.NoDup (h :: l) /\ Forall (node_ok st) (h :: l) /\ linked st h l h.

(** The last node of [x :: l]. *)
Fixpoint last_node (x : Z) (l : list Z) : Z :=
  match l with
  | [] => x
  | y :: l' => last_node y l'
  end.

(** A decision procedure for [dlist] on concrete heaps. *)
Fixpoint check_linked (st : state) (x : Z) (l : list Z) (last : Z) : bool :=
  match l with
  | [] => (peek st x =? last) && (peek st (last + WSIZE) =? x)
  | y :: l' =>
      (peek st x =? y) && (peek st (y + WSIZE) =? x) &&
      check_linked st y l' last
  end.

Definition check_node (st : state) (x : Z) : bool :=
  (x mod DSIZE =? 0) && valid st x && valid st (x + WSIZE).

Fixpoint check_nodup (l : list Z) : bool :=
  match l with
  | [] => true
  | x :: l' => negb (existsb (Z.eqb x) l') && check_nodup l'
  end.

Definition check_dlist (st : state) (h : Z) (l : list Z) : bool :=
  check_nodup (h :: l) && forallb (check_node st) (h :: l) &&
  check_linked st h l h.

(** The heap after allocating blocks of 150, 16, 200 and 16 bytes and
    freeing the third: the list of class 2 holds that block alone, and
    the first block, of size 176, belongs to the same class. *)
Definition st_one_free : state :=
  state_of ((_ <- mm_malloc 100 150 ;;
             _ <- mm_malloc 100 16 ;;
             c <- mm_malloc 100 200 ;;
             _ <- mm_malloc 100 16 ;;
             mm_free c) st_init).

(** The sentinel of class [i] in the concrete heaps. *)
Definition head0 (i : Z) : Z := base0 + DSIZE * i.

(** ** Blocks *)

(** The two link words of the node [x] lie outside the block at [bp] of
    size [csize], header and footer included. *)
Definition outside (bp csize x : Z) : Prop :=
  x + DSIZE <= bp - WSIZE \/ bp + csize - WSIZE <= x.

(** The block at [bp], of size [csize] by its header, lies in the heap:
    [bp] is doubleword aligned, and the header, the footer and the header
    of the next block can be accessed. *)
Definition block_at (st : state) (bp csize : Z) : Prop :=
  bp mod DSIZE = 0 /\ block_size st bp = csize /\
  valid st (bp - WSIZE) = true /\ valid st (bp + csize - DSIZE) = true /\
  valid st (bp + csize - WSIZE) = true.

(** A heap whose only block is allocated: [mm_init], then a request that
    takes the whole first chunk. *)
Definition st_full : state := state_of (mm_malloc 100 4080 st_init).

(** A heap with a free block of 128 bytes in front of two allocated
    ones: blocks of 100, 16 and 16 bytes are allocated, then the first is
    freed. *)
Definition st_prev_free : state :=
  state_of ((a <- mm_malloc 100 100 ;;
             _ <- mm_malloc 100 16 ;;
             _ <- mm_malloc 100 16 ;;
             mm_free a) st_init).

(** A heap with a free block of 128 bytes between two allocated ones:
    blocks of 16, 100 and 16 bytes are allocated, then the second is
    freed. *)
Definition st_next_free : state :=
  state_of ((_ <- mm_malloc 100 16 ;;
             b <- mm_malloc 100 100 ;;
             _ <- mm_malloc 100 16 ;;
             mm_free b) st_init).

(** * Properties *)

(** ** Reasoning about monadic code *)

Lemma bind_Ok {A B} (m : M A) (k : A -> M B) st b st' :
  bind m k st = Ok (b, st') ->
  exists a st1, m st = Ok (a, st1) /\ k a st1 = Ok (b, st').
Proof.
  unfold bind. destruct (m st) as [[a st1]| |]; try discriminate.
  intros H. exists a, st1. split; [reflexivity | exact H].
Qed.

Lemma bind_step {A B} (m : M A) (k : A -> M B) st a st1 :
  m st = Ok (a, st1) -> bind m k st = k a st1.
Proof. intros H. unfold bind. rewrite H. reflexivity. Qed.

Lemma bind_Fault {A B} (m : M A) (k : A -> M B) st :
  m st = Fault -> bind m k st = Fault.
Proof. intros H. unfold bind. rewrite H. reflexivity. Qed.

Lemma same_frame_refl st : same_frame st st.
Proof. repeat split. Qed.

Lemma same_frame_trans st1 st2 st3 :
  same_frame st1 st2 -> same_frame st2 st3 -> same_frame st1 st3.
Proof. unfold same_frame. intuition congruence. Qed.

Lemma same_frame_valid st st' p :
  same_frame st st' -> valid st' p = valid st p.
Proof. intros (H1 & H2 & _). unfold valid. rewrite H1, H2. reflexivity. Qed.

#[local] Instance ro_ret {A} (a : A) : ReadOnly (ret a).
Proof. intros st x st' H. inversion H. reflexivity. Qed.

#[local] Instance ro_bind {A B} (m : M A) (k : A -> M B) :
  ReadOnly m -> (forall a, ReadOnly (k a)) -> ReadOnly (bind m k).
Proof.
  intros Hm Hk st b st' H. apply bind_Ok in H as (a & st1 & H1 & H2).
  apply Hm in H1. apply Hk in H2. congruence.
Qed.

#[local] Instance ro_GET p : ReadOnly (GET p).
Proof.
  intros st a st'. unfold GET. destruct (valid st p); [|discriminate].
  intros H. inversion H. reflexivity.
Qed.

#[local] Instance ro_get_free_lists : ReadOnly get_free_lists.
Proof. intros st a st' H. inversion H. reflexivity. Qed.

#[local] Instance ro_get_heap_listp : ReadOnly get_heap_listp.
Proof. intros st a st' H. inversion H. reflexivity. Qed.

#[local] Instance ro_if {A} (c : bool) (m1 m2 : M A) :
  ReadOnly m1 -> ReadOnly m2 -> ReadOnly (if c then m1 else m2).
Proof. destruct c; auto. Qed.

#[local] Instance ro_GET_SIZE p : ReadOnly (GET_SIZE p).
Proof. unfold GET_SIZE. apply _. Qed.

#[local] Instance ro_GET_ALLOC p : ReadOnly (GET_ALLOC p).
Proof. unfold GET_ALLOC. apply _. Qed.

#[local] Instance ro_FTRP p : ReadOnly (FTRP p).
Proof. unfold FTRP. apply _. Qed.

#[local] Instance ro_NEXT_BLKP p : ReadOnly (NEXT_BLKP p).
Proof. unfold NEXT_BLKP. apply _. Qed.

#[local] Instance ro_PREV_BLKP p : ReadOnly (PREV_BLKP p).
Proof. unfold PREV_BLKP. apply _. Qed.

#[local] Instance ro_find_in_list fuel temp bp asize :
  ReadOnly (find_in_list fuel temp bp asize).
Proof.
  revert bp. induction fuel as [|fuel IH]; intros bp; simpl.
  - intros st a st' H. discriminate.
  - apply _.
Qed.

#[local] Instance ro_find_from_class n fuel i asize :
  ReadOnly (find_from_class n fuel i asize).
Proof.
  revert i. induction n as [|n IH]; intros i; simpl; [apply _|].
  apply ro_if; [|apply _].
  apply ro_bind; [apply _|]. intros fl.
  apply ro_bind; [apply _|]. intros first.
  apply ro_bind; [apply _|]. intros [bp|]; [apply _ | apply IH].
Qed.

#[local] Instance ro_find_fit fuel asize : ReadOnly (find_fit fuel asize).
Proof. unfold find_fit. apply _. Qed.

#[local] Instance fr_ro {A} (m : M A) : ReadOnly m -> Framed m | 10.
Proof.
  intros Hm st a st' H. apply Hm in H. subst. apply same_frame_refl.
Qed.

#[local] Instance fr_bind {A B} (m : M A) (k : A -> M B) :
  Framed m -> (forall a, Framed (k a)) -> Framed (bind m k) | 1.
Proof.
  intros Hm Hk st b st' H. apply bind_Ok in H as (a & st1 & H1 & H2).
  eapply same_frame_trans; [eapply Hm | eapply Hk]; eassumption.
Qed.

#[local] Instance fr_PUT p v : Framed (PUT p v).
Proof.
  intros st a st'. unfold PUT. destruct (valid st p); [|discriminate].
  intros H. inversion H. repeat split.
Qed.

#[local] Instance fr_if {A} (c : bool) (m1 m2 : M A) :
  Framed m1 -> Framed m2 -> Framed (if c then m1 else m2) | 1.
Proof. destruct c; auto. Qed.

#[local] Instance fr_deleteBlock bp : Framed (deleteBlock bp).
Proof. unfold deleteBlock. apply _. Qed.

#[local] Instance fr_insertBlock bp : Framed (insertBlock bp).
Proof. unfold insertBlock. apply _. Qed.

#[local] Instance fr_coalesce bp : Framed (coalesce bp).
Proof. unfold coalesce. apply _. Qed.

#[local] Instance fr_place bp asize : Framed (place bp asize).
Proof. unfold place. apply _. Qed.

(** ** Facts about the concrete heaps *)

Lemma sane_st_init : sane st_init.
Proof. vm_compute. repeat split; discriminate. Qed.

Lemma sane_st_alloc16 : sane st_alloc16.
Proof. vm_compute. repeat split; discriminate. Qed.

Lemma malloc16_first_bp : mm_malloc 100 16 st_init = Ok (first_bp, st_alloc16).
Proof. vm_compute. reflexivity. Qed.

Lemma copy_path_big : copy_path st_alloc16 first_bp 3000000 32.
Proof.
  unfold copy_path.
  split; [discriminate|]. split; [vm_compute; discriminate|].
  split; [vm_compute; reflexivity|]. split; [vm_compute; reflexivity|].
  exists (first_bp + 32), (base0 + 144), 0.
  split; [vm_compute; reflexivity|].
  split; [vm_compute; reflexivity|].
  split; vm_compute; reflexivity.
Qed.


(** ** Boundary tags *)

Ltac div_mod_lia := Z.to_euclidean_division_equations; lia.

Lemma wnot_mask : wnot (DSIZE - 1) = 2 ^ 64 - 16.
Proof. reflexivity. Qed.

(** Masking with [~(DSIZE - 1)] clears the four low bits. *)
Lemma size_mask (w : Z) :
  0 <= w < 2 ^ 64 -> Z.land w (wnot (DSIZE - 1)) = 16 * (w / 16).
Proof.
  intros Hw. unfold wnot.
  rewrite Z.land_assoc, Z.land_ones by lia.
  change (DSIZE - 1) with (Z.ones 4).
  change (Z.land w (Z.lnot (Z.ones 4))) with (Z.ldiff w (Z.ones 4)).
  rewrite Z.ldiff_ones_r by lia.
  rewrite Z.shiftr_div_pow2, Z.shiftl_mul_pow2 by lia.
  change (2 ^ 4) with 16.
  rewrite Z.mod_small; div_mod_lia.
Qed.

Lemma alloc_mask (w : Z) : Z.land w 1 = w mod 2.
Proof. change 1 with (Z.ones 1). rewrite Z.land_ones by lia. reflexivity. Qed.

Lemma PACK_add (s a : Z) :
  s mod DSIZE = 0 -> a = 0 \/ a = 1 -> PACK s a = s + a.
Proof.
  intros Hs Ha. unfold PACK.
  assert (Hl : Z.land s a = 0).
  { destruct Ha as [-> | ->]; [apply Z.land_0_r|].
    rewrite alloc_mask. unfold DSIZE, WSIZE in Hs. div_mod_lia. }
  rewrite <- Z.lxor_lor by exact Hl.
  symmetry. apply Z.add_nocarry_lxor. exact Hl.
Qed.

Lemma unpack_size (s a : Z) :
  0 <= s < 2 ^ 64 -> s mod DSIZE = 0 -> a = 0 \/ a = 1 ->
  Z.land (PACK s a) (wnot (DSIZE - 1)) = s.
Proof.
  intros Hs Hm Ha. rewrite PACK_add by assumption.
  unfold DSIZE, WSIZE in Hm.
  rewrite size_mask; div_mod_lia.
Qed.

Lemma unpack_alloc (s a : Z) :
  s mod DSIZE = 0 -> a = 0 \/ a = 1 -> Z.land (PACK s a) 1 = a.
Proof.
  intros Hm Ha. rewrite PACK_add by assumption.
  unfold DSIZE, WSIZE in Hm.
  rewrite alloc_mask; div_mod_lia.
Qed.

Lemma GET_PUT p v st :
  valid st p = true ->
  exists st', PUT p v st = Ok (tt, st') /\ GET p st' = Ok (v, st') /\
              same_frame st st'.
Proof.
  intros Hv. unfold PUT. rewrite Hv. eexists. split; [reflexivity|].
  split; [|repeat split].
  unfold GET, valid in *. simpl. rewrite Hv.
  rewrite lookup_insert_eq. reflexivity.
Qed.

(** C10.  The boundary-tag encoding round-trips: a word [PACK s a] written
    to a header or footer, for a size [s] that is a multiple of the
    doubleword and a flag [a] in {0, 1}, reads back as size [s] through
    [GET_SIZE] and as flag [a] through [GET_ALLOC]. *)
Theorem pack_roundtrip (st : state) (p s a : Z) :
  valid st p = true ->
  0 <= s < 2 ^ 64 -> s mod DSIZE = 0 -> a = 0 \/ a = 1 ->
  exists st',
    PUT p (PACK s a) st = Ok (tt, st') /\
    GET_SIZE p st' = Ok (s, st') /\
    GET_ALLOC p st' = Ok (a, st').
Proof.
  intros Hv Hs Hm Ha.
  destruct (GET_PUT p (PACK s a) st Hv) as (st' & Hput & Hget & _).
  exists st'. split; [exact Hput|].
  unfold GET_SIZE, GET_ALLOC. rewrite !(bind_step _ _ _ _ _ Hget).
  unfold ret. rewrite unpack_size, unpack_alloc by assumption. auto.
Qed.

Lemma pack_roundtrip_witness :
  exists st',
    PUT (base0 + 280) (PACK 4096 1) st_init = Ok (tt, st') /\
    GET_SIZE (base0 + 280) st' = Ok (4096, st') /\
    GET_ALLOC (base0 + 280) st' = Ok (1, st').
Proof.
  apply (pack_roundtrip st_init (base0 + 280) 4096 1).
  - vm_compute. reflexivity.
  - lia.
  - reflexivity.
  - right. reflexivity.
Defined.

(** ** Adjusted block sizes *)

Lemma asize_agree (n : Z) : realloc_asize n = malloc_asize n.
Proof.
  unfold realloc_asize, malloc_asize.
  destruct (n <=? DSIZE); [reflexivity|].
  unfold wmul, wadd, wrap, ALIGN, DSIZE, WSIZE.
  div_mod_lia.
Qed.

Lemma malloc_asize_spec (n : Z) :
  0 <= n <= 2 ^ 64 - 32 -> malloc_asize n = adjusted_size_spec n.
Proof.
  intros Hn. unfold malloc_asize, adjusted_size_spec, round_up.
  unfold wmul, wadd, wrap, ALIGN, DSIZE, WSIZE.
  destruct (Z.leb_spec n (2 * 8)); div_mod_lia.
Qed.

(** C6, as stated, fails for requests within 31 bytes of [SIZE_MAX]: the
    [size_t] arithmetic wraps around and both functions compute 16, below
    the minimum block size. *)
Lemma adjusted_size_wraps :
  0 <= 2 ^ 64 - 1 < 2 ^ 64 /\
  realloc_asize (2 ^ 64 - 1) = 16 /\
  malloc_asize (2 ^ 64 - 1) = 16 /\
  malloc_asize (2 ^ 64 - 1) <> adjusted_size_spec (2 ^ 64 - 1).
Proof. vm_compute. repeat split; discriminate. Qed.

(** C6 (amended).  For every requested size [n] the adjusted size computed
    by [mm_realloc] equals the one computed by [mm_malloc]; and for every
    [n] up to [2^64 - 32], where the [size_t] arithmetic does not wrap
    around, it is [max(2*DSIZE, roundUp(n, ALIGN) + DSIZE)]. *)
Theorem adjusted_size_same_rule (n : Z) :
  realloc_asize n = malloc_asize n /\
  (0 <= n <= 2 ^ 64 - 32 -> malloc_asize n = adjusted_size_spec n).
Proof. split; [apply asize_agree | apply malloc_asize_spec]. Qed.

Lemma adjusted_size_same_rule_witness :
  realloc_asize 100 = malloc_asize 100 /\ malloc_asize 100 = 128.
Proof.
  destruct (adjusted_size_same_rule 100) as [H1 H2].
  split; [exact H1|]. rewrite H2 by lia. reflexivity.
Defined.

(** ** Size classes *)

Lemma find_explicit_cases (n : Z) :
  (n <= 64 /\ find_explicit n = 0) \/
  (64 < n <= 128 /\ find_explicit n = 1) \/
  (128 < n <= 256 /\ find_explicit n = 2) \/
  (256 < n <= 500 /\ find_explicit n = 3) \/
  (500 < n <= 750 /\ find_explicit n = 4) \/
  (750 < n <= 1000 /\ find_explicit n = 5) \/
  (1000 < n <= 2000 /\ find_explicit n = 6) \/
  (2000 < n <= 3000 /\ find_explicit n = 7) \/
  (3000 < n <= 4000 /\ find_explicit n = 8) \/
  (4000 < n <= 5000 /\ find_explicit n = 9) \/
  (5000 < n <= 6000 /\ find_explicit n = 10) \/
  (6000 < n <= 7000 /\ find_explicit n = 11) \/
  (7000 < n <= 8000 /\ find_explicit n = 12) \/
  (8000 < n <= 9000 /\ find_explicit n = 13) \/
  (9000 < n /\ find_explicit n = 14).
Proof.
  unfold find_explicit.
  repeat match goal with
         | |- context [?a <=? ?b] => destruct (Z.leb_spec a b)
         end; lia.
Qed.

Lemma find_explicit_range (n : Z) : 0 <= find_explicit n <= 14.
Proof.
  destruct (find_explicit_cases n) as [H|H]; repeat (destruct H as [H|H]); lia.
Qed.

Lemma find_explicit_mono (a b : Z) :
  a <= b -> find_explicit a <= find_explicit b.
Proof.
  intros Hab.
  destruct (find_explicit_cases a) as [H|H]; repeat (destruct H as [H|H]);
    destruct H as [Ha ->];
    destruct (find_explicit_cases b) as [H|H]; repeat (destruct H as [H|H]);
    destruct H as [Hb ->]; lia.
Qed.

Lemma find_explicit_cutoffs (n : Z) : find_explicit n = class_by_cutoffs n.
Proof.
  unfold class_by_cutoffs, cutoffs, count_below.
  destruct (find_explicit_cases n) as [H|H]; repeat (destruct H as [H|H]);
    destruct H as [Hn ->];
    repeat match goal with
           | |- context [?c <? n] => destruct (Z.ltb_spec c n); try lia
           end.
Qed.

(** C3, as stated, fails: the fourteen cutoffs make fifteen classes, sizes
    above 9000 fall into class 14, and class 15, the last of the [NUM]
    list heads, is the class of no size. *)
Lemma sixteenth_class_unused :
  find_explicit 9001 = 14 /\ ~ sixteen_classes.
Proof.
  split; [reflexivity|].
  intros H. destruct (H 15) as (n & _ & Hn); [unfold NUM; lia|].
  pose proof (find_explicit_range n). lia.
Qed.

(** C3 (amended).  The classification [find_explicit] is a total function
    that is monotonic in the size and maps every size to exactly one of
    fifteen classes, 0 to 14, all below [NUM]: the class of a size is the
    number of reference cutoffs (64, 128, 256, 500, 750, 1000, 2000, ...,
    9000) it exceeds, class 14 absorbs every size above 9000, and each of
    the fifteen classes is the class of some size. *)
Theorem classify_step_function :
  (forall n, 0 <= find_explicit n <= 14 /\ find_explicit n < NUM) /\
  (forall a b, a <= b -> find_explicit a <= find_explicit b) /\
  (forall n, find_explicit n = class_by_cutoffs n) /\
  (forall n, 9000 < n -> find_explicit n = 14) /\
  (forall c, 0 <= c <= 14 -> exists n, 0 <= n /\ find_explicit n = c).
Proof.
  split; [|split; [|split; [|split]]].
  - intros n. pose proof (find_explicit_range n). unfold NUM. lia.
  - apply find_explicit_mono.
  - apply find_explicit_cutoffs.
  - intros n Hn.
    destruct (find_explicit_cases n) as [H|H]; repeat (destruct H as [H|H]);
      lia.
  - intros c Hc.
    exists (nth (Z.to_nat c) cutoffs 9001). 
    assert (Hcases : c = 0 \/ c = 1 \/ c = 2 \/ c = 3 \/ c = 4 \/ c = 5 \/
                     c = 6 \/ c = 7 \/ c = 8 \/ c = 9 \/ c = 10 \/ c = 11 \/
                     c = 12 \/ c = 13 \/ c = 14) by lia.
    repeat (destruct Hcases as [-> | Hcases]); try subst c;
      (split; [vm_compute; discriminate | reflexivity]).
Qed.

Lemma classify_step_function_witness :
  find_explicit 4064 <= find_explicit 4096 /\
  find_explicit 10000 = 14 /\
  exists n, 0 <= n /\ find_explicit n = 14.
Proof.
  destruct classify_step_function as (_ & Hmono & _ & Htop & Hsurj).
  split; [apply Hmono; lia|].
  split; [apply Htop; lia|].
  apply Hsurj. lia.
Defined.

(** ** Zero-size requests *)

Lemma GET_SIZE_cases p st :
  (exists s, GET_SIZE p st = Ok (s, st) /\ valid st p = true) \/
  (GET_SIZE p st = Fault /\ valid st p = false).
Proof.
  unfold GET_SIZE, bind, GET, ret. destruct (valid st p); eauto.
Qed.

(** C8.  [mm_malloc 0] returns [NULL] and leaves the state as it is, and
    for every pointer [p] other than [NULL], [mm_realloc p 0] has exactly
    the outcome of [mm_free p], with [NULL] as the value returned. *)
Theorem zero_size_requests (fuel : nat) (st : state) (p : Z) :
  p <> NULL ->
  mm_malloc fuel 0 st = Ok (NULL, st) /\
  mm_realloc fuel p 0 st = (mm_free p ;;; ret NULL) st.
Proof.
  intros Hp. split; [reflexivity|].
  assert (Hnull : (p =? NULL) = false) by (apply Z.eqb_neq; exact Hp).
  unfold mm_realloc.
  destruct (GET_SIZE_cases (HDRP p) st) as [(s & Hs & _) | [Hs _]].
  - rewrite (bind_step _ _ _ _ _ Hs). reflexivity.
  - rewrite (bind_Fault _ _ _ Hs).
    unfold mm_free. rewrite Hnull.
    unfold bind at 1. rewrite (bind_Fault _ _ _ Hs). reflexivity.
Qed.

Lemma zero_size_requests_witness :
  first_bp <> NULL /\
  mm_malloc 100 0 st_alloc16 = Ok (NULL, st_alloc16) /\
  mm_realloc 100 first_bp 0 st_alloc16
  = (mm_free first_bp ;;; ret NULL) st_alloc16 /\
  (mm_free first_bp ;;; ret NULL) st_alloc16
  = Ok (NULL, state_of (mm_free first_bp st_alloc16)).
Proof.
  assert (Hp : first_bp <> NULL) by (vm_compute; discriminate).
  destruct (zero_size_requests 100 st_alloc16 first_bp Hp) as [H1 H2].
  split; [exact Hp|]. split; [exact H1|]. split; [exact H2|].
  vm_compute. reflexivity.
Defined.

(** ** Null-pointer resize *)

Lemma HDRP_NULL : HDRP NULL = 2 ^ 64 - 8.
Proof. reflexivity. Qed.

Lemma valid_HDRP_nonnull st p :
  mem_brk st < 2 ^ 64 -> valid st (HDRP p) = true -> p <> NULL.
Proof.
  intros Hbrk Hv ->. rewrite HDRP_NULL in Hv. unfold valid, WSIZE in Hv.
  apply andb_prop in Hv as [Hv _]. apply andb_prop in Hv as [_ Hv].
  apply Z.leb_le in Hv. lia.
Qed.

(** C2 fails on the code.  [mm_realloc] reads the header of its argument
    before it tests the argument against [NULL]: on every state whose heap
    region ends below the top of the address space, [mm_realloc NULL n]
    loads from address [NULL - WSIZE] and faults, whatever [n] is. *)
Theorem realloc_null_reads_header (fuel : nat) (st : state) (n : Z) :
  mem_brk st < 2 ^ 64 -> mm_realloc fuel NULL n st = Fault.
Proof.
  intros Hbrk. unfold mm_realloc.
  destruct (GET_SIZE_cases (HDRP NULL) st) as [(s & _ & Hv) | [Hs _]].
  - exfalso. exact (valid_HDRP_nonnull st NULL Hbrk Hv eq_refl).
  - apply bind_Fault. exact Hs.
Qed.

Lemma realloc_null_reads_header_witness :
  mem_brk st_init < 2 ^ 64 /\
  mm_realloc 100 NULL 16 st_init = Fault /\
  mm_malloc 100 16 st_init = Ok (first_bp, st_alloc16).
Proof.
  assert (Hb : mem_brk st_init < 2 ^ 64) by (vm_compute; reflexivity).
  split; [exact Hb|].
  split; [exact (realloc_null_reads_header 100 st_init 16 Hb)|].
  vm_compute. reflexivity.
Defined.

(** ** Failure of the allocation behind a resize *)

Ltac inv_binds :=
  repeat match goal with
         | H : bind _ _ _ = Ok _ |- _ =>
             let a := fresh "a" in
             let s := fresh "st" in
             let E := fresh "E" in
             apply bind_Ok in H; destruct H as (a & s & E & H); cbv beta in H
         | H : ret _ _ = Ok _ |- _ => inversion H; subst; clear H
         | H : (if ?c then _ else _) _ = Ok _ |- _ => destruct c eqn:?
         end.

Ltac frames :=
  repeat match goal with
         | H : ?m ?st = Ok (_, ?st') |- _ =>
             lazymatch goal with
             | _ : same_frame st st' |- _ => fail
             | _ => pose proof (framed (m:=m) _ _ _ H)
             end
         end.

Lemma insertBlock_valid bp st u st' :
  insertBlock bp st = Ok (u, st') -> valid st (HDRP bp) = true.
Proof.
  unfold insertBlock. intros H. apply bind_Ok in H as (s & st1 & H & _).
  destruct (GET_SIZE_cases (HDRP bp) st) as [(s' & _ & Hv) | [Hs _]];
    [exact Hv | congruence].
Qed.

(** [coalesce] hands back the block it was given or its predecessor,
    after inserting it into a free list, which reads its header: the
    result is never [NULL]. *)
Lemma coalesce_nonnull bp st r st' :
  coalesce bp st = Ok (r, st') ->
  bp <> NULL -> mem_brk st < 2 ^ 64 -> r <> NULL.
Proof.
  unfold coalesce. intros H Hbp Hbrk.
  inv_binds; try assumption.
  all: match goal with
       | H : insertBlock ?r ?s = Ok _ |- ?r <> NULL =>
           apply insertBlock_valid in H;
           apply (valid_HDRP_nonnull s); [|exact H]
       end.
  all: frames; unfold same_frame in *; lia.
Qed.

Lemma mem_sbrk_cases incr st :
  mem_sbrk incr st = Ok (wrap (-1), st) \/
  (0 <= incr /\ mem_brk st + incr <= mem_max_addr st /\
   mem_sbrk incr st =
     Ok (mem_brk st,
         mkState (mem_heap st) (mem_brk st + incr) (mem_max_addr st)
           (cells st) (heap_listp st) (free_lists st))).
Proof.
  unfold mem_sbrk.
  destruct (Z.ltb_spec incr 0); [left; reflexivity|].
  destruct (Z.ltb_spec (mem_max_addr st) (mem_brk st + incr));
    [left; reflexivity|].
  right. simpl. repeat split; lia.
Qed.

(** [extend_heap] returns [NULL] only when [mem_sbrk] refuses, and then
    nothing was written. *)
Lemma extend_heap_null words st st' :
  sane st -> extend_heap words st = Ok (NULL, st') -> st' = st.
Proof.
  intros (Hlo & Hle & Hmax & Htop) H. unfold extend_heap in H.
  apply bind_Ok in H as (bp & st1 & Hs & H). cbv beta in H.
  destruct (mem_sbrk_cases
              (if negb (words mod 2 =? 0) then wmul (wadd words 1) WSIZE
               else wmul words WSIZE) st) as [Hf | (Hi & Hfit & Hk)];
    rewrite Hs in *.
  - inversion Hf; subst. rewrite Z.eqb_refl in H. inversion H. reflexivity.
  - inversion Hk; subst bp st1. clear Hk Hs.
    assert (Hne : (mem_brk st =? wrap (-1)) = false).
    { apply Z.eqb_neq. change (wrap (-1)) with (2 ^ 64 - 1). lia. }
    rewrite Hne in H. exfalso.
    inv_binds. frames.
    apply coalesce_nonnull in H; [apply H; reflexivity | unfold NULL; lia |].
    unfold same_frame in *. simpl in *. lia.
Qed.

(** A failed [mm_malloc] leaves the state as it found it. *)
Lemma mm_malloc_null fuel size st st' :
  sane st -> mm_malloc fuel size st = Ok (NULL, st') -> st' = st.
Proof.
  intros Hsane H. unfold mm_malloc in H.
  destruct (size =? 0); [inversion H; reflexivity|].
  apply bind_Ok in H as (bp & st1 & Hf & H). cbv beta in H.
  apply read_only in Hf as ->.
  destruct (bp =? NULL) eqn:Hbp; simpl in H.
  - apply bind_Ok in H as (bp2 & st2 & He & H). cbv beta in H.
    destruct (bp2 =? NULL) eqn:Hbp2.
    + apply Z.eqb_eq in Hbp2 as ->. inversion H; subst.
      eapply extend_heap_null; eassumption.
    + inv_binds. apply Z.eqb_neq in Hbp2. congruence.
  - inv_binds. apply Z.eqb_neq in Hbp. congruence.
Qed.

Lemma realloc_copy_path fuel st ptr size oldsize :
  copy_path st ptr size oldsize ->
  mm_realloc fuel ptr size st =
  realloc_move fuel ptr oldsize (realloc_asize size) st.
Proof.
  intros (Hsz & Hp & Hold & Hlt & nb & ns & na & Hnb & Hns & Hna & Hc).
  unfold mm_realloc.
  rewrite (bind_step _ _ _ _ _ Hold).
  apply Z.eqb_neq in Hsz, Hp. rewrite Hsz, Hp.
  apply Z.leb_gt in Hlt. rewrite Hlt.
  rewrite (bind_step _ _ _ _ _ Hnb), (bind_step _ _ _ _ _ Hns).
  rewrite (bind_step _ _ _ _ _ Hnb), (bind_step _ _ _ _ _ Hna).
  rewrite Hc. reflexivity.
Qed.

(** C9.  In the allocate-copy-free path of [mm_realloc ptr size], the
    result is [NULL] if and only if the inner [mm_malloc] returned [NULL],
    and whenever [mm_realloc] returns [NULL] there the final state is the
    initial one: the old block, its content and its boundary tags are as
    they were. *)
Theorem realloc_fails_iff_malloc_fails
    (fuel : nat) (st : state) (ptr size oldsize : Z) :
  sane st -> copy_path st ptr size oldsize ->
  ((exists st1,
      mm_malloc fuel (wmul (MAX oldsize (realloc_asize size)) 10) st
      = Ok (NULL, st1)) <->
   (exists st', mm_realloc fuel ptr size st = Ok (NULL, st'))) /\
  (forall st', mm_realloc fuel ptr size st = Ok (NULL, st') -> st' = st).
Proof.
  intros Hsane Hpath.
  rewrite (realloc_copy_path fuel st ptr size oldsize Hpath).
  unfold realloc_move.
  split; [split|].
  - intros (st1 & Hm). exists st1.
    rewrite (bind_step _ _ _ _ _ Hm). reflexivity.
  - intros (st' & H). apply bind_Ok in H as (newptr & st1 & Hm & H).
    cbv beta in H. destruct (newptr =? NULL) eqn:Hn.
    + apply Z.eqb_eq in Hn as ->. eauto.
    + inv_binds. apply Z.eqb_neq in Hn. congruence.
  - intros st' H. apply bind_Ok in H as (newptr & st1 & Hm & H).
    cbv beta in H. destruct (newptr =? NULL) eqn:Hn.
    + apply Z.eqb_eq in Hn as ->. inversion H; subst.
      eapply mm_malloc_null; eassumption.
    + inv_binds. apply Z.eqb_neq in Hn. congruence.
Qed.

Lemma realloc_fails_iff_malloc_fails_witness :
  sane st_alloc16 /\ copy_path st_alloc16 first_bp 3000000 32 /\
  mm_malloc 100 (wmul (MAX 32 (realloc_asize 3000000)) 10) st_alloc16
  = Ok (NULL, st_alloc16) /\
  exists st', mm_realloc 100 first_bp 3000000 st_alloc16 = Ok (NULL, st') /\
              st' = st_alloc16.
Proof.
  pose proof sane_st_alloc16 as Hs. pose proof copy_path_big as Hp.
  assert (Hm : mm_malloc 100 (wmul (MAX 32 (realloc_asize 3000000)) 10)
                 st_alloc16 = Ok (NULL, st_alloc16))
    by (vm_compute; reflexivity).
  destruct (realloc_fails_iff_malloc_fails 100 st_alloc16 first_bp 3000000 32
              Hs Hp) as [[Hto _] Hsame].
  destruct (Hto (ex_intro _ st_alloc16 Hm)) as (st' & Hr).
  split; [exact Hs|]. split; [exact Hp|]. split; [exact Hm|].
  exists st'. split; [exact Hr | exact (Hsame st' Hr)].
Defined.

(** ** The copy made by a resize *)

Lemma size_mask_gen (w : Z) :
  Z.land w (wnot (DSIZE - 1)) = (16 * (w / 16)) mod 2 ^ 64.
Proof.
  unfold wnot.
  rewrite Z.land_assoc, Z.land_ones by lia.
  change (DSIZE - 1) with (Z.ones 4).
  change (Z.land w (Z.lnot (Z.ones 4))) with (Z.ldiff w (Z.ones 4)).
  rewrite Z.ldiff_ones_r by lia.
  rewrite Z.shiftr_div_pow2, Z.shiftl_mul_pow2 by lia.
  change (2 ^ 4) with 16. f_equal. lia.
Qed.

(** Whatever word a header holds, the size read from it is a multiple of
    the doubleword below [2^64]. *)
Lemma GET_SIZE_range p st s st' :
  GET_SIZE p st = Ok (s, st') -> 0 <= s < 2 ^ 64 /\ s mod DSIZE = 0.
Proof.
  unfold GET_SIZE. intros H. inv_binds. rewrite size_mask_gen.
  unfold DSIZE, WSIZE. div_mod_lia.
Qed.

Lemma sane_frame st st' : same_frame st st' -> sane st -> sane st'.
Proof. unfold same_frame, sane. intros (-> & -> & -> & _). auto. Qed.

Lemma valid_sane st p :
  sane st -> valid st p = true -> 0 < p /\ p + WSIZE < 2 ^ 64.
Proof.
  unfold sane, valid. intros (H1 & H2 & H3 & H4) Hv.
  apply andb_prop in Hv as [Hv _]. apply andb_prop in Hv as [Ha Hb].
  apply Z.leb_le in Ha, Hb. lia.
Qed.

Lemma padd_valid st p :
  sane st -> valid st p = true -> padd p WSIZE = p + WSIZE.
Proof.
  intros Hs Hv. destruct (valid_sane st p Hs Hv).
  unfold padd, wrap. apply Z.mod_small. unfold WSIZE in *. lia.
Qed.






Lemma extend_heap_sane words st r st' :
  sane st -> extend_heap words st = Ok (r, st') -> sane st'.
Proof.
  intros Hs H. unfold extend_heap in H.
  apply bind_Ok in H as (bp & st1 & Hk & H). cbv beta in H.
  assert (Hs1 : sane st1).
  { destruct (mem_sbrk_cases
                (if negb (words mod 2 =? 0) then wmul (wadd words 1) WSIZE
                 else wmul words WSIZE) st) as [Hf | (Hi & Hfit & Hk')];
      rewrite Hk in *.
    - inversion Hf; subst. exact Hs.
    - inversion Hk'; subst. unfold sane in *. simpl. lia. }
  clear Hk. inv_binds; [exact Hs1|].
  frames. unfold same_frame, sane in *. lia.
Qed.

Lemma mm_malloc_sane fuel size st r st' :
  sane st -> mm_malloc fuel size st = Ok (r, st') -> sane st'.
Proof.
  intros Hs H. unfold mm_malloc in H.
  destruct (size =? 0); [inversion H; subst; exact Hs|].
  apply bind_Ok in H as (bp & st1 & Hf & H). cbv beta in H.
  apply read_only in Hf as ->.
  destruct (negb (bp =? NULL)).
  - inv_binds. frames. eapply sane_frame; eassumption.
  - apply bind_Ok in H as (bp2 & st2 & He & H). cbv beta in H.
    apply (extend_heap_sane _ _ _ _ Hs) in He.
    inv_binds; [exact He|]. frames. eapply sane_frame; eassumption.
Qed.





(** When ten times the adjusted size wraps around, the new block can be
    smaller than the old one.  Resizing the 1024-byte block at [first_bp]
    to [2^63] bytes asks [mm_malloc] for [160] bytes; the block it gets
    has size [176], and the copy of [1024] bytes runs over the footer of
    that block and the header of the free block behind it. *)
Lemma realloc_copy_overruns_new_block :
  sane st_user_data /\ copy_path st_user_data first_bp (2 ^ 63) 1024 /\
  wmul (MAX 1024 (realloc_asize (2 ^ 63))) 10 = 160 /\
  exists st1 st',
    mm_malloc 100 160 st_user_data = Ok (first_bp + 1056, st1) /\
    block_size st1 (first_bp + 1056) = 176 /\
    peek st1 (first_bp + 1056 + 176 - DSIZE) = PACK 176 1 /\
    peek st1 (first_bp + 1056 + 176 - WSIZE) = PACK 2864 0 /\
    mm_realloc 100 first_bp (2 ^ 63) st_user_data
    = Ok (first_bp + 1056, st') /\
    block_size st' (first_bp + 1056) = 176 /\
    peek st' (first_bp + 1056 + 176 - DSIZE) = 0 /\
    peek st' (first_bp + 1056 + 176 - WSIZE) = 0.
Proof.
  split; [vm_compute; repeat split; discriminate|].
  split.
  { unfold copy_path.
    split; [discriminate|]. split; [vm_compute; discriminate|].
    split; [vm_compute; reflexivity|]. split; [vm_compute; reflexivity|].
    exists (first_bp + 1024), 0, 1.
    split; [vm_compute; reflexivity|].
    split; [vm_compute; reflexivity|].
    split; vm_compute; reflexivity. }
  split; [vm_compute; reflexivity|].
  exists (state_of (mm_malloc 100 160 st_user_data)),
    (state_of (mm_realloc 100 first_bp (2 ^ 63) st_user_data)).
  split; [vm_compute; reflexivity|].
  split; [vm_compute; reflexivity|].
  split; [vm_compute; reflexivity|].
  split; [vm_compute; reflexivity|].
  split; [vm_compute; reflexivity|].
  split; [vm_compute; reflexivity|].
  split; vm_compute; reflexivity.
Qed.

(** ** The fit search *)

Lemma GET_peek st p : valid st p = true -> GET p st = Ok (peek st p, st).
Proof. intros Hv. unfold GET. rewrite Hv. reflexivity. Qed.

Lemma GET_SIZE_block st bp :
  valid st (HDRP bp) = true ->
  GET_SIZE (HDRP bp) st = Ok (block_size st bp, st).
Proof.
  intros Hv. unfold GET_SIZE. rewrite (bind_step _ _ _ _ _ (GET_peek _ _ Hv)).
  reflexivity.
Qed.

Lemma find_in_list_spec st temp asize bp l :
  chain st temp bp l ->
  forall fuel, (length l < fuel)%nat ->
  find_in_list fuel temp bp asize st = Ok (first_fit st asize l, st).
Proof.
  induction 1 as [|bp l Hne Hh Hn Hc IH]; intros fuel Hfuel.
  - destruct fuel as [|fuel]; [simpl in Hfuel; lia|].
    simpl. rewrite Z.eqb_refl. reflexivity.
  - destruct fuel as [|fuel]; [simpl in Hfuel; lia|].
    simpl in Hfuel. simpl.
    apply Z.eqb_neq in Hne. rewrite Hne.
    rewrite (bind_step _ _ _ _ _ (GET_SIZE_block _ _ Hh)).
    destruct (asize <=? block_size st bp); [reflexivity|].
    rewrite (bind_step _ _ _ _ _ (GET_peek _ _ Hn)).
    apply IH. lia.
Qed.

Lemma first_fit_app st asize l1 l2 :
  first_fit st asize (l1 ++ l2) =
  match first_fit st asize l1 with
  | Some bp => Some bp
  | None => first_fit st asize l2
  end.
Proof.
  induction l1 as [|bp l1 IH]; simpl; [reflexivity|].
  destruct (asize <=? block_size st bp); [reflexivity | exact IH].
Qed.

Lemma find_from_class_spec st asize fuel ls :
  Forall (fun l => (length l < fuel)%nat) ls ->
  forall i n, class_lists st i ls ->
  i + Z.of_nat (length ls) = NUM -> (length ls <= n)%nat ->
  find_from_class n fuel i asize st
  = Ok (default NULL (first_fit st asize (concat ls)), st).
Proof.
  induction 1 as [|l ls Hl Hls IH]; intros i n Hcl Hlen Hn.
  - simpl in Hlen. destruct n as [|n]; simpl; [reflexivity|].
    assert (Hi : (i <? NUM) = false) by (apply Z.ltb_ge; lia).
    rewrite Hi. reflexivity.
  - simpl in Hlen, Hn. destruct n as [|n]; [lia|].
    destruct Hcl as [[Hv Hc] Hcl]. simpl.
    assert (Hi : (i <? NUM) = true) by (apply Z.ltb_lt; lia).
    rewrite Hi. unfold get_free_lists. unfold bind at 1.
    rewrite (bind_step _ _ _ _ _ (GET_peek _ _ Hv)).
    rewrite (bind_step _ _ _ _ _
               (find_in_list_spec st _ asize _ l Hc fuel Hl)).
    rewrite first_fit_app.
    destruct (first_fit st asize l) as [bp|]; [reflexivity|].
    apply IH; [exact Hcl | lia | lia].
Qed.

Lemma first_fit_Some st asize l bp :
  first_fit st asize l = Some bp ->
  exists l1 l2, l = l1 ++ bp :: l2 /\ asize <= block_size st bp /\
                forall b, In b l1 -> block_size st b < asize.
Proof.
  induction l as [|b l IH]; simpl; [discriminate|].
  destruct (Z.leb_spec asize (block_size st b)) as [Hle|Hlt].
  - intros H. inversion H; subst. exists [], l.
    split; [reflexivity|]. split; [exact Hle|]. intros b' [].
  - intros H. destruct (IH H) as (l1 & l2 & -> & Hb & Hl1).
    exists (b :: l1), l2. split; [reflexivity|]. split; [exact Hb|].
    intros b' [<- | Hin]; [exact Hlt | exact (Hl1 b' Hin)].
Qed.

Lemma first_fit_None st asize l :
  first_fit st asize l = None <->
  forall b, In b l -> block_size st b < asize.
Proof.
  induction l as [|b l IH]; simpl.
  - split; [intros _ b [] | reflexivity].
  - destruct (Z.leb_spec asize (block_size st b)) as [Hle|Hlt].
    + split; [discriminate|]. intros H.
      specialize (H b (or_introl eq_refl)). lia.
    + rewrite IH. split.
      * intros H b' [<- | Hin]; [exact Hlt | exact (H b' Hin)].
      * intros H b' Hin. apply H. right. exact Hin.
Qed.

Lemma chain_nonnull st temp bp l :
  mem_brk st < 2 ^ 64 -> chain st temp bp l ->
  forall b, In b l -> b <> NULL.
Proof.
  intros Hbrk. induction 1 as [|bp l Hne Hh Hn Hc IH]; intros b Hin.
  - destruct Hin.
  - destruct Hin as [<- | Hin]; [|exact (IH b Hin)].
    exact (valid_HDRP_nonnull st bp Hbrk Hh).
Qed.

Lemma class_lists_nonnull st ls :
  mem_brk st < 2 ^ 64 -> forall i, class_lists st i ls ->
  forall b, In b (concat ls) -> b <> NULL.
Proof.
  intros Hbrk. induction ls as [|l ls IH]; intros i Hcl b Hin.
  - destruct Hin.
  - destruct Hcl as [[_ Hc] Hcl]. simpl in Hin.
    apply in_app_or in Hin as [Hin | Hin].
    + exact (chain_nonnull st _ _ l Hbrk Hc b Hin).
    + exact (IH (i + 1) Hcl b Hin).
Qed.

(** C7.  Let the circular lists of the classes from [find_explicit asize]
    up to the last one hold the nodes [ls], class by class in increasing
    order and each list in link order.  Then [find_fit asize], given fuel
    beyond the length of the longest list, returns without changing the
    state; it returns [NULL] exactly when no block of [ls] has a stored size
    of at least [asize]; and otherwise it returns the first block, in this
    scan order, whose stored size is at least [asize]. *)
Theorem find_fit_first_fit
    (fuel : nat) (st : state) (asize : Z) (ls : list (list Z)) :
  mem_brk st < 2 ^ 64 ->
  class_lists st (find_explicit asize) ls ->
  find_explicit asize + Z.of_nat (length ls) = NUM ->
  Forall (fun l => (length l < fuel)%nat) ls ->
  exists r,
    find_fit fuel asize st = Ok (r, st) /\
    (r = NULL <-> forall b, In b (concat ls) -> block_size st b < asize) /\
    (r <> NULL ->
     exists l1 l2, concat ls = l1 ++ r :: l2 /\ asize <= block_size st r /\
                   forall b, In b l1 -> block_size st b < asize).
Proof.
  intros Hbrk Hcl Hlen Hfuel.
  exists (default NULL (first_fit st asize (concat ls))).
  split.
  { unfold find_fit. apply find_from_class_spec; try assumption.
    pose proof (find_explicit_range asize). unfold NUM in *. lia. }
  destruct (first_fit st asize (concat ls)) as [bp|] eqn:Hff; simpl.
  - destruct (first_fit_Some _ _ _ _ Hff) as (l1 & l2 & Hsplit & Hle & Hl1).
    assert (Hbp : bp <> NULL).
    { apply (class_lists_nonnull st ls Hbrk _ Hcl).
      rewrite Hsplit. apply in_or_app. right. left. reflexivity. }
    split.
    + split; [contradiction|]. intros Hall. exfalso.
      assert (block_size st bp < asize); [|lia].
      apply Hall. rewrite Hsplit. apply in_or_app. right. left. reflexivity.
    + intros _. exists l1, l2. auto.
  - split; [|intros H; exfalso; apply H; reflexivity].
    split; [intros _; apply first_fit_None; exact Hff | reflexivity].
Qed.

Lemma check_chain_sound st temp l : forall bp,
  check_chain st temp bp l = true -> chain st temp bp l.
Proof.
  induction l as [|b l IH]; intros bp H; simpl in H.
  - apply Z.eqb_eq in H as ->. constructor.
  - repeat (apply andb_prop in H as [H ?]).
    apply Z.eqb_eq in H as ->.
    constructor; auto.
    apply Z.eqb_neq. apply negb_true_iff. assumption.
Qed.

Lemma check_class_lists_sound st ls : forall i,
  check_class_lists st i ls = true -> class_lists st i ls.
Proof.
  induction ls as [|l ls IH]; intros i H; simpl in *; [exact I|].
  apply andb_prop in H as [H Hrest]. apply andb_prop in H as [Hv Hc].
  split; [split|].
  - exact Hv.
  - apply check_chain_sound. exact Hc.
  - apply IH. exact Hrest.
Qed.

Lemma find_fit_first_fit_witness :
  block_size st_two_free first_bp = 176 /\
  block_size st_two_free (first_bp + 208) = 224 /\
  exists r,
    find_fit 3 208 st_two_free = Ok (r, st_two_free) /\
    (r <> NULL ->
     exists l1 l2, concat lists_two_free = l1 ++ r :: l2 /\
                   208 <= block_size st_two_free r /\
                   forall b, In b l1 -> block_size st_two_free b < 208).
Proof.
  split; [vm_compute; reflexivity|]. split; [vm_compute; reflexivity|].
  destruct (find_fit_first_fit 3 st_two_free 208 lists_two_free)
    as (r & Hr & _ & Hfirst).
  - vm_compute. reflexivity.
  - apply check_class_lists_sound. vm_compute. reflexivity.
  - reflexivity.
  - unfold lists_two_free. repeat constructor.
  - exists r. split; [exact Hr | exact Hfirst].
Defined.

(** ** In-place growth *)

(** C1 fails on the code.  In [st_alloc16] the block at [first_bp] has
    size 32 and its physical successor is free with size 4064, so growing
    it in place to the adjusted size 128 of a 100-byte request is possible.
    [mm_realloc] tests [oldsize + next_size <= asize], with [next_size]
    read from the first payload word of the successor instead of its
    header; the test fails, a new block is allocated, and the old block is
    freed instead of being grown. *)
Theorem realloc_next_free_moves :
  GET_SIZE (HDRP first_bp) st_alloc16 = Ok (32, st_alloc16) /\
  GET_ALLOC (HDRP first_bp) st_alloc16 = Ok (1, st_alloc16) /\
  NEXT_BLKP first_bp st_alloc16 = Ok (first_bp + 32, st_alloc16) /\
  GET_SIZE (HDRP (first_bp + 32)) st_alloc16 = Ok (4064, st_alloc16) /\
  GET_ALLOC (HDRP (first_bp + 32)) st_alloc16 = Ok (0, st_alloc16) /\
  32 < realloc_asize 100 <= 32 + 4064 /\
  exists st',
    mm_realloc 100 first_bp 100 st_alloc16 = Ok (first_bp + 32, st') /\
    first_bp + 32 <> first_bp /\
    GET (HDRP first_bp) st' = Ok (PACK 32 0, st').
Proof.
  split; [vm_compute; reflexivity|]. split; [vm_compute; reflexivity|].
  split; [vm_compute; reflexivity|]. split; [vm_compute; reflexivity|].
  split; [vm_compute; reflexivity|].
  split; [vm_compute; split; [reflexivity | discriminate]|].
  exists (state_of (mm_realloc 100 first_bp 100 st_alloc16)).
  split; [vm_compute; reflexivity|].
  split; [vm_compute; discriminate|].
  vm_compute. reflexivity.
Qed.

(** ** Coalescing *)

(** C4 fails on the code.  A request of [2^64 - 20] bytes has adjusted
    size 0; [place] then overwrites the footer of the prologue with
    [PACK 0 1] and [mm_malloc] returns the first block although it is
    still free.  Two ordinary allocations and one release later the block
    at [first_bp] is free with size 64 and its physical successor at
    [first_bp + 64] is free with size 4032: two adjacent free blocks. *)
Theorem coalescing_not_exhaustive :
  mm_init (mem_init base0) = Ok (0, st_init) /\
  adjacent_free 100 st_init = Ok (false, st_init) /\
  malloc_asize (2 ^ 64 - 20) = 0 /\
  exists st',
    overflow_scenario st_init
    = Ok ((first_bp, first_bp, first_bp + 32), st') /\
    GET (HDRP first_bp) st' = Ok (PACK 64 0, st') /\
    NEXT_BLKP first_bp st' = Ok (first_bp + 64, st') /\
    GET (HDRP (first_bp + 64)) st' = Ok (PACK 4032 0, st') /\
    adjacent_free 100 st' = Ok (true, st').
Proof.
  split; [vm_compute; reflexivity|]. split; [vm_compute; reflexivity|].
  split; [vm_compute; reflexivity|].
  exists (state_of (overflow_scenario st_init)).
  split; [vm_compute; reflexivity|]. split; [vm_compute; reflexivity|].
  split; [vm_compute; reflexivity|]. split; vm_compute; reflexivity.
Qed.

(** * Further properties of the code *)

(** ** Shrinking and fitting resizes *)

(** X1.  When the adjusted size of the request is no larger than the size
    in the block's header, [mm_realloc] returns the pointer it was given
    and changes nothing: a block is never shrunk or split by a resize. *)
Theorem realloc_fit_keeps_block
    (fuel : nat) (st : state) (ptr size oldsize : Z) :
  size <> 0 -> ptr <> NULL ->
  GET_SIZE (HDRP ptr) st = Ok (oldsize, st) ->
  realloc_asize size <= oldsize ->
  mm_realloc fuel ptr size st = Ok (ptr, st).
Proof.
  intros Hsz Hp Hold Hle. unfold mm_realloc.
  rewrite (bind_step _ _ _ _ _ Hold).
  apply Z.eqb_neq in Hsz, Hp. rewrite Hsz, Hp.
  apply Z.leb_le in Hle. rewrite Hle. reflexivity.
Qed.

Lemma realloc_fit_keeps_block_witness :
  mm_realloc 100 first_bp 10 st_alloc16 = Ok (first_bp, st_alloc16).
Proof.
  apply (realloc_fit_keeps_block 100 st_alloc16 first_bp 10 32).
  - discriminate.
  - vm_compute. discriminate.
  - vm_compute. reflexivity.
  - vm_compute. discriminate.
Defined.

(** ** Extending the heap *)

Lemma heap_growth_range words : 0 <= heap_growth words < 2 ^ 64.
Proof.
  unfold heap_growth, wmul, wrap.
  destruct (negb (words mod 2 =? 0)); apply Z.mod_pos_bound; lia.
Qed.

Lemma mem_sbrk_refused incr st :
  mem_max_addr st < mem_brk st + incr ->
  mem_sbrk incr st = Ok (wrap (-1), st).
Proof.
  intros H. unfold mem_sbrk.
  apply Z.ltb_lt in H. rewrite H, orb_true_r. reflexivity.
Qed.

Lemma mem_sbrk_granted incr st :
  0 <= incr -> mem_brk st + incr <= mem_max_addr st ->
  mem_sbrk incr st = Ok (mem_brk st, with_brk st incr).
Proof.
  intros H0 H. unfold mem_sbrk.
  apply Z.ltb_ge in H0, H. rewrite H0, H. reflexivity.
Qed.

Lemma extend_heap_refused words st :
  mem_max_addr st < mem_brk st + heap_growth words ->
  extend_heap words st = Ok (NULL, st).
Proof.
  intros H. unfold extend_heap. fold (heap_growth words).
  rewrite (bind_step _ _ _ _ _ (mem_sbrk_refused _ _ H)).
  rewrite Z.eqb_refl. reflexivity.
Qed.

Lemma extend_heap_Ok words st r st' :
  sane st -> extend_heap words st = Ok (r, st') ->
  (r = NULL /\ st' = st /\
   mem_max_addr st < mem_brk st + heap_growth words) \/
  (r <> NULL /\ mem_brk st + heap_growth words <= mem_max_addr st /\
   same_frame (with_brk st (heap_growth words)) st').
Proof.
  intros Hs H.
  pose proof (heap_growth_range words) as Hg.
  destruct (Z.lt_ge_cases (mem_max_addr st)
              (mem_brk st + heap_growth words)) as [Hlt | Hge].
  - left. rewrite (extend_heap_refused _ _ Hlt) in H.
    inversion H; subst. auto.
  - right. destruct Hs as (Hlo & Hle & Hmax & Htop).
    unfold extend_heap in H. fold (heap_growth words) in H.
    rewrite (bind_step _ _ _ _ _ (mem_sbrk_granted _ _ (proj1 Hg) Hge)) in H.
    assert (Hne : (mem_brk st =? wrap (-1)) = false).
    { apply Z.eqb_neq. change (wrap (-1)) with (2 ^ 64 - 1). lia. }
    rewrite Hne in H. inv_binds. frames.
    split; [|split; [exact Hge|]].
    + apply coalesce_nonnull in H; [exact H | unfold NULL; lia |].
      unfold same_frame in *. simpl in *. lia.
    + repeat (eapply same_frame_trans; [eassumption|]).
      apply same_frame_refl.
Qed.

(** ** Failed allocations *)

(** X3.  [mm_malloc] returns [NULL] exactly when the request is for zero
    bytes, or no free block fits and the region cannot grow by the
    adjusted size plus two words; and a call that returns [NULL] leaves
    the state as it found it. *)
Theorem malloc_null_iff (fuel : nat) (size : Z) (st st' : state) :
  sane st ->
  (mm_malloc fuel size st = Ok (NULL, st') <->
   st' = st /\
   (size = 0 \/
    (find_fit fuel (malloc_asize size) st = Ok (NULL, st) /\
     mem_max_addr st
     < mem_brk st
       + heap_growth (wadd (malloc_asize size) (wmul 2 WSIZE) / WSIZE)))).
Proof.
  intros Hs. split.
  - intros H. split; [exact (mm_malloc_null _ _ _ _ Hs H)|].
    unfold mm_malloc in H.
    destruct (Z.eqb_spec size 0) as [Hz|Hz]; [left; exact Hz|]. right.
    apply bind_Ok in H as (bp & st1 & Hf & H). cbv beta in H.
    pose proof (read_only _ _ _ Hf) as ->.
    destruct (Z.eqb_spec bp NULL) as [Hbp|Hbp]; simpl in H.
    + rewrite Hbp in Hf. split; [exact Hf|].
      apply bind_Ok in H as (bp2 & st2 & He & H). cbv beta in H.
      destruct (extend_heap_Ok _ _ _ _ Hs He)
        as [(_ & _ & Hlt) | (Hr & _ & _)]; [exact Hlt|].
      apply Z.eqb_neq in Hr. rewrite Hr in H. inv_binds.
      apply Z.eqb_neq in Hr. contradiction.
    + inv_binds. contradiction.
  - intros [-> [-> | [Hf Hlt]]]; [reflexivity|].
    unfold mm_malloc. destruct (size =? 0); [reflexivity|].
    rewrite (bind_step _ _ _ _ _ Hf). simpl.
    rewrite (bind_step _ _ _ _ _ (extend_heap_refused _ _ Hlt)).
    reflexivity.
Qed.

Lemma malloc_null_iff_witness :
  sane st_alloc16 /\
  find_fit 100 (malloc_asize 30000000) st_alloc16 = Ok (NULL, st_alloc16) /\
  mm_malloc 100 30000000 st_alloc16 = Ok (NULL, st_alloc16).
Proof.
  assert (Hf : find_fit 100 (malloc_asize 30000000) st_alloc16
               = Ok (NULL, st_alloc16)) by (vm_compute; reflexivity).
  split; [exact sane_st_alloc16|]. split; [exact Hf|].
  apply (malloc_null_iff 100 30000000 st_alloc16 st_alloc16 sane_st_alloc16).
  split; [reflexivity|]. right. split; [exact Hf|].
  vm_compute. reflexivity.
Defined.

(** ** The heap region under the public operations *)

#[local] Instance ro_read_words n src : ReadOnly (read_words n src).
Proof.
  revert src. induction n as [|n IH]; intros src; simpl; apply _.
Qed.

#[local] Instance fr_write_words ws dst : Framed (write_words dst ws).
Proof.
  revert dst. induction ws as [|w ws IH]; intros dst; simpl; apply _.
Qed.

#[local] Instance fr_memcpy dst src n : Framed (memcpy dst src n).
Proof. unfold memcpy. apply _. Qed.

#[local] Instance fr_mm_free bp : Framed (mm_free bp).
Proof. unfold mm_free. apply _. Qed.

Lemma grown_frame st st' : same_frame st st' -> grown st st'.
Proof. unfold same_frame, grown. lia. Qed.

Lemma extend_heap_grown words st r st' :
  sane st -> extend_heap words st = Ok (r, st') -> grown st st'.
Proof.
  intros Hs H. pose proof (heap_growth_range words).
  destruct (extend_heap_Ok _ _ _ _ Hs H) as [(_ & -> & _) | (_ & _ & Hf)].
  - apply grown_frame, same_frame_refl.
  - unfold same_frame, grown in *. simpl in Hf. lia.
Qed.

Lemma mm_malloc_grown fuel size st r st' :
  sane st -> mm_malloc fuel size st = Ok (r, st') -> grown st st'.
Proof.
  intros Hs H. unfold mm_malloc in H.
  destruct (size =? 0).
  { inversion H; subst. apply grown_frame, same_frame_refl. }
  apply bind_Ok in H as (bp & st1 & Hf & H). cbv beta in H.
  apply read_only in Hf as ->.
  destruct (negb (bp =? NULL)).
  - inv_binds. frames. apply grown_frame. assumption.
  - apply bind_Ok in H as (bp2 & st2 & He & H). cbv beta in H.
    pose proof (extend_heap_grown _ _ _ _ Hs He) as Hg.
    inv_binds; [exact Hg|]. frames.
    unfold same_frame, grown in *. lia.
Qed.

(** X4.  None of the public operations moves the break down, moves the
    bounds of the region or changes [heap_listp] or [free_lists];
    [mm_free] does not move the break at all, and after [mm_malloc] and
    [mm_realloc] the break is still within the region. *)
Theorem operations_keep_region (st : state) :
  sane st ->
  (forall bp u st', mm_free bp st = Ok (u, st') -> same_frame st st') /\
  (forall fuel size r st',
     mm_malloc fuel size st = Ok (r, st') -> grown st st' /\ sane st') /\
  (forall fuel ptr size r st',
     mm_realloc fuel ptr size st = Ok (r, st') -> grown st st' /\ sane st').
Proof.
  intros Hs. split; [|split].
  - intros bp u st' H. exact (framed _ _ _ H).
  - intros fuel size r st' H.
    split; [eapply mm_malloc_grown | eapply mm_malloc_sane]; eassumption.
  - intros fuel ptr size r st' H.
    unfold mm_realloc, realloc_move in H. inv_binds.
    all: repeat match goal with
           | Hm : mm_malloc _ _ ?s = Ok (_, ?s') |- _ =>
               let Hs0 := fresh "Hs0" in
               assert (Hs0 : sane s)
                 by (frames; unfold same_frame, sane in *; lia);
               pose proof (mm_malloc_grown _ _ _ _ _ Hs0 Hm);
               pose proof (mm_malloc_sane _ _ _ _ _ Hs0 Hm);
               clear Hm
           end.
    all: frames; unfold same_frame, grown, sane in *; lia.
Qed.

Lemma operations_keep_region_witness :
  sane st_alloc16 /\
  exists r st', mm_realloc 100 first_bp 100 st_alloc16 = Ok (r, st') /\
                grown st_alloc16 st' /\ sane st'.
Proof.
  destruct (operations_keep_region st_alloc16 sane_st_alloc16)
    as (_ & _ & Hr).
  split; [exact sane_st_alloc16|].
  exists (first_bp + 32), (state_of (mm_realloc 100 first_bp 100 st_alloc16)).
  assert (H : mm_realloc 100 first_bp 100 st_alloc16
              = Ok (first_bp + 32,
                    state_of (mm_realloc 100 first_bp 100 st_alloc16)))
    by (vm_compute; reflexivity).
  split; [exact H | exact (Hr _ _ _ _ _ H)].
Defined.

(** ** Reading tags and walking between neighbours *)

Lemma padd_small p k : 0 <= p + k < 2 ^ 64 -> padd p k = p + k.
Proof. intros H. unfold padd, wrap. apply Z.mod_small. exact H. Qed.

Lemma GET_SIZE_eval st p :
  valid st p = true ->
  GET_SIZE p st = Ok (Z.land (peek st p) (wnot (DSIZE - 1)), st).
Proof.
  intros Hv. unfold GET_SIZE.
  rewrite (bind_step _ _ _ _ _ (GET_peek _ _ Hv)). reflexivity.
Qed.

Lemma GET_ALLOC_eval st p :
  valid st p = true -> GET_ALLOC p st = Ok (Z.land (peek st p) 1, st).
Proof.
  intros Hv. unfold GET_ALLOC.
  rewrite (bind_step _ _ _ _ _ (GET_peek _ _ Hv)). reflexivity.
Qed.

(** X5.  Whatever word a tag holds, the size read from it is a multiple
    of the doubleword below [2^64] and the allocated flag is 0 or 1,
    and reading changes nothing; for a word [w] in the range of
    [uintptr_t] the size is [w] less its four low bits and the flag is the
    lowest bit. *)
Theorem tag_fields (st : state) (p : Z) :
  (forall s st', GET_SIZE p st = Ok (s, st') ->
     st' = st /\ 0 <= s < 2 ^ 64 /\ s mod DSIZE = 0) /\
  (forall a st', GET_ALLOC p st = Ok (a, st') ->
     st' = st /\ (a = 0 \/ a = 1)) /\
  (valid st p = true -> 0 <= peek st p < 2 ^ 64 ->
   GET_SIZE p st = Ok (peek st p - peek st p mod 16, st) /\
   GET_ALLOC p st = Ok (peek st p mod 2, st)).
Proof.
  split; [|split].
  - intros s st' H. split; [exact (read_only _ _ _ H)|].
    exact (GET_SIZE_range _ _ _ _ H).
  - intros a st' H. split; [exact (read_only _ _ _ H)|].
    unfold GET_ALLOC in H. inv_binds. rewrite alloc_mask. div_mod_lia.
  - intros Hv Hw. rewrite (GET_SIZE_eval _ _ Hv), (GET_ALLOC_eval _ _ Hv).
    rewrite size_mask by exact Hw. rewrite alloc_mask.
    split; repeat f_equal. div_mod_lia.
Qed.

Lemma tag_fields_witness :
  GET_SIZE (HDRP first_bp) st_alloc16 = Ok (33 - 33 mod 16, st_alloc16) /\
  GET_ALLOC (HDRP first_bp) st_alloc16 = Ok (33 mod 2, st_alloc16).
Proof.
  destruct (tag_fields st_alloc16 (HDRP first_bp)) as (_ & _ & H).
  assert (Hp : peek st_alloc16 (HDRP first_bp) = 33)
    by (vm_compute; reflexivity).
  rewrite Hp in H. apply H.
  - vm_compute. reflexivity.
  - lia.
Defined.

(** X6.  The address macros mirror each other: for a block at [bp] whose
    header and footer hold the same size [s], with the header of the next
    block inside the heap, [FTRP bp] is [bp + s - DSIZE], [NEXT_BLKP bp]
    is [bp + s], and [PREV_BLKP] of that block is [bp] again. *)
Theorem neighbours_mirror (st : state) (bp s : Z) :
  sane st ->
  valid st (bp - WSIZE) = true ->
  valid st (bp + s - DSIZE) = true ->
  valid st (bp + s - WSIZE) = true ->
  Z.land (peek st (bp - WSIZE)) (wnot (DSIZE - 1)) = s ->
  Z.land (peek st (bp + s - DSIZE)) (wnot (DSIZE - 1)) = s ->
  FTRP bp st = Ok (bp + s - DSIZE, st) /\
  NEXT_BLKP bp st = Ok (bp + s, st) /\
  PREV_BLKP (bp + s) st = Ok (bp, st).
Proof.
  intros Hs Hh Hf Hn Hsh Hsf.
  destruct (valid_sane _ _ Hs Hh) as [Hh1 Hh2].
  destruct (valid_sane _ _ Hs Hf) as [Hf1 Hf2].
  destruct (valid_sane _ _ Hs Hn) as [Hn1 Hn2].
  assert (Hhd : padd bp (- WSIZE) = bp - WSIZE)
    by (unfold padd, wrap, DSIZE, WSIZE in *; rewrite Z.mod_small; lia).
  assert (H1 : padd bp s = bp + s)
    by (unfold padd, wrap, DSIZE, WSIZE in *; rewrite Z.mod_small; lia).
  assert (H2 : padd (bp + s) (- DSIZE) = bp + s - DSIZE)
    by (unfold padd, wrap, DSIZE, WSIZE in *; rewrite Z.mod_small; lia).
  assert (H3 : padd (bp + s) (- s) = bp)
    by (unfold padd, wrap, DSIZE, WSIZE in *; rewrite Z.mod_small; lia).
  unfold FTRP, NEXT_BLKP, PREV_BLKP, HDRP. rewrite Hhd, H2.
  pose proof (GET_SIZE_eval _ _ Hh) as Eh. rewrite Hsh in Eh.
  pose proof (GET_SIZE_eval _ _ Hf) as Ef. rewrite Hsf in Ef.
  split; [|split].
  - rewrite (bind_step _ _ _ _ _ Eh). unfold ret. rewrite H1, H2. reflexivity.
  - rewrite (bind_step _ _ _ _ _ Eh). unfold ret. rewrite H1. reflexivity.
  - rewrite (bind_step _ _ _ _ _ Ef). unfold ret. rewrite H3. reflexivity.
Qed.

Lemma neighbours_mirror_witness :
  FTRP first_bp st_alloc16 = Ok (first_bp + 32 - DSIZE, st_alloc16) /\
  NEXT_BLKP first_bp st_alloc16 = Ok (first_bp + 32, st_alloc16) /\
  PREV_BLKP (first_bp + 32) st_alloc16 = Ok (first_bp, st_alloc16).
Proof.
  apply (neighbours_mirror st_alloc16 first_bp 32 sane_st_alloc16);
    vm_compute; reflexivity.
Defined.

(** ** The free lists as doubly linked lists *)

Lemma PUT_eval st p v : valid st p = true -> PUT p v st = Ok (tt, upd st p v).
Proof. intros Hv. unfold PUT. rewrite Hv. reflexivity. Qed.

Lemma peek_upd_eq st p v : peek (upd st p v) p = v.
Proof. unfold peek, upd. simpl. rewrite lookup_insert_eq. reflexivity. Qed.

Lemma peek_upd_ne st p v q : q <> p -> peek (upd st p v) q = peek st q.
Proof.
  intros H. unfold peek, upd. simpl. rewrite lookup_insert_ne by congruence.
  reflexivity.
Qed.

Lemma valid_upd st p v q : valid (upd st p v) q = valid st q.
Proof. reflexivity. Qed.

Lemma same_frame_upd st p v : same_frame st (upd st p v).
Proof. repeat split. Qed.

Lemma node_ok_upd st p v x : node_ok (upd st p v) x <-> node_ok st x.
Proof. unfold node_ok. rewrite !valid_upd. reflexivity. Qed.

Lemma linked_frame st p v l : forall x last,
  p <> x -> (forall z, In z l -> p <> z /\ p <> z + WSIZE) ->
  p <> last + WSIZE ->
  linked st x l last -> linked (upd st p v) x l last.
Proof.
  induction l as [|y l IH]; intros x last Hx Hl Hlast H; simpl in *.
  - destruct H as [H1 H2]. rewrite !peek_upd_ne by congruence. auto.
  - destruct H as (H1 & H2 & H3).
    destruct (Hl y (or_introl eq_refl)) as [Hy Hy8].
    rewrite !peek_upd_ne by congruence.
    split; [exact H1|]. split; [exact H2|].
    apply IH; auto.
Qed.

Lemma linked_first st l x last :
  linked st x l last -> peek st x = hd last l.
Proof. destruct l; simpl; tauto. Qed.

(** The links of a node inside a list lead to its neighbours. *)
Lemma linked_middle st l1 : forall x bp l2 last,
  linked st x (l1 ++ bp :: l2) last ->
  peek st (bp + WSIZE) = last_node x l1 /\ peek st bp = hd last l2.
Proof.
  induction l1 as [|z l1 IH]; intros x bp l2 last H; simpl in H.
  - destruct H as (_ & H2 & H3). split; [exact H2|].
    exact (linked_first _ _ _ _ H3).
  - destruct H as (_ & _ & H3). destruct (IH _ _ _ _ H3) as [Hp Hn].
    split; [|exact Hn]. rewrite Hp. reflexivity.
Qed.

Lemma last_node_in x l : In (last_node x l) (x :: l).
Proof.
  revert x. induction l as [|y l IH]; intros x; simpl.
  - left. reflexivity.
  - right. exact (IH y).
Qed.

Lemma hd_in (last : Z) l : hd last l = last \/ In (hd last l) l.
Proof. destruct l; simpl; auto. Qed.

Lemma node_ok_padd st x :
  sane st -> node_ok st x -> padd x WSIZE = x + WSIZE.
Proof. intros Hs (_ & Hv & _). exact (padd_valid _ _ Hs Hv). Qed.

Ltac put_step H :=
  match goal with
  | |- context [bind (PUT ?p ?v) ?k ?s] =>
      rewrite (bind_step (PUT p v) k s tt (upd s p v) (PUT_eval s p v H))
  end.

Ltac get_step H :=
  match goal with
  | |- context [bind (GET ?p) ?k ?s] =>
      rewrite (bind_step (GET p) k s (peek s p) s (GET_peek s p H))
  end.

(** What [insertBlock] writes. *)
Lemma insertBlock_eval st bp h :
  sane st ->
  valid st (HDRP bp) = true ->
  h = list_head (free_lists st) (find_explicit (block_size st bp)) ->
  node_ok st h -> node_ok st (peek st h) -> node_ok st bp ->
  insertBlock bp st
  = Ok (tt, upd (upd (upd (upd st h bp) (peek st h + WSIZE) bp)
                   (bp + WSIZE) h) bp (peek st h)).
Proof.
  intros Hs Hhd Hh Hnh Hnt Hnb. unfold insertBlock.
  rewrite (bind_step _ _ _ _ _ (GET_SIZE_block _ _ Hhd)).
  unfold get_free_lists. unfold bind at 1. rewrite <- Hh.
  unfold node_next, node_prev.
  pose proof (node_ok_padd _ _ Hs Hnt) as Ept.
  pose proof (node_ok_padd _ _ Hs Hnb) as Epb.
  destruct Hnh as (_ & Hvh & _), Hnt as (_ & _ & Hvt),
    Hnb as (_ & Hvb & Hvb8).
  get_step Hvh. rewrite Ept, Epb.
  put_step Hvh. put_step Hvt. put_step Hvb8.
  apply PUT_eval. exact Hvb.
Qed.

(** What [deleteBlock] writes, for a node whose [prev] link does not
    point to the node itself. *)
Lemma deleteBlock_eval st bp :
  sane st -> node_ok st bp ->
  node_ok st (peek st (bp + WSIZE)) -> node_ok st (peek st bp) ->
  peek st (bp + WSIZE) <> bp ->
  deleteBlock bp st
  = Ok (tt, upd (upd st (peek st (bp + WSIZE)) (peek st bp))
              (peek st bp + WSIZE) (peek st (bp + WSIZE))).
Proof.
  intros Hs Hnb Hnp Hnn Hne. unfold deleteBlock, node_next, node_prev.
  rewrite (node_ok_padd _ _ Hs Hnb).
  destruct Hnb as (Hab & Hvb & Hvb8).
  pose proof Hnp as (Hap & Hvp & _). pose proof Hnn as (Han & _ & Hvn8).
  get_step Hvb8. get_step Hvb. put_step Hvp.
  get_step Hvb. get_step Hvb8.
  rewrite !peek_upd_ne.
  - rewrite (node_ok_padd _ _ Hs Hnn). apply PUT_eval. exact Hvn8.
  - unfold DSIZE, WSIZE in *. div_mod_lia.
  - congruence.
Qed.

Ltac peek_tac :=
  repeat first
    [ rewrite peek_upd_eq
    | rewrite peek_upd_ne by (unfold DSIZE, WSIZE in *; div_mod_lia) ].

Lemma dlist_parts st h l :
  dlist st h l ->
  ~ In h l /\ List.NoDup l /\ node_ok st h /\
  (forall z, In z l -> node_ok st z /\ z <> h) /\ linked st h l h.
Proof.
  intros (Hnd & Hok & Hl). apply NoDup_cons_iff in Hnd as [Hh Hnd].
  pose proof (proj1 (List.Forall_forall _ _) Hok) as Hall.
  split; [exact Hh|]. split; [exact Hnd|].
  split; [apply Hall; left; reflexivity|].
  split; [|exact Hl].
  intros z Hz. split; [apply Hall; right; exact Hz|].
  intros ->. contradiction.
Qed.

Lemma dlist_build st h l :
  ~ In h l -> List.NoDup l -> node_ok st h ->
  (forall z, In z l -> node_ok st z) -> linked st h l h -> dlist st h l.
Proof.
  intros Hh Hnd Hokh Hok Hl. split; [|split; [|exact Hl]].
  - apply NoDup_cons_iff. auto.
  - apply List.Forall_forall. intros z [<- | Hz]; auto.
Qed.

(** [insertBlock] puts a fresh node at the head of a list. *)
Lemma insertBlock_dlist st bp h l :
  sane st ->
  valid st (HDRP bp) = true ->
  h = list_head (free_lists st) (find_explicit (block_size st bp)) ->
  dlist st h l -> node_ok st bp -> ~ In bp (h :: l) ->
  exists st',
    insertBlock bp st = Ok (tt, st') /\
    dlist st' h (bp :: l) /\
    same_frame st st' /\
    (forall a, a <> h -> a <> hd h l + WSIZE -> a <> bp ->
               a <> bp + WSIZE -> peek st' a = peek st a).
Proof.
  intros Hs Hhd Hh Hd Hnb Hfresh.
  destruct (dlist_parts _ _ _ Hd) as (Hhl & Hnd & Hokh & Hok & Hl).
  pose proof (linked_first _ _ _ _ Hl) as Hfirst.
  assert (Hokt : node_ok st (peek st h)).
  { rewrite Hfirst. destruct (hd_in h l) as [-> | Hin]; [exact Hokh|].
    apply Hok. exact Hin. }
  eexists. split; [apply (insertBlock_eval st bp h); assumption|].
  rewrite Hfirst.
  assert (Hbh : bp <> h) by (intros ->; apply Hfresh; left; reflexivity).
  assert (Hbl : ~ In bp l) by (intros Hin; apply Hfresh; right; exact Hin).
  pose proof Hnb as (Hab & _). pose proof Hokh as (Hah & _).
  split; [|split].
  - apply dlist_build.
    + intros [Heq | Hin]; [congruence | contradiction].
    + apply NoDup_cons_iff. auto.
    + apply node_ok_upd, node_ok_upd, node_ok_upd, node_ok_upd. exact Hokh.
    + intros z [<- | Hz]; apply node_ok_upd, node_ok_upd, node_ok_upd,
        node_ok_upd; [exact Hnb | apply Hok; exact Hz].
    + destruct l as [|y l']; simpl in *.
      * destruct Hl as [Hl1 Hl2]. peek_tac. auto.
      * destruct Hl as (Hl1 & Hl2 & Hl3).
        apply NoDup_cons_iff in Hnd as [Hyl Hnd].
        destruct (Hok y (or_introl eq_refl)) as [(Hay & _) Hyh].
        assert (Hby : bp <> y) by (intros ->; apply Hbl; left; reflexivity).
        assert (Hz : forall z, In z l' ->
                      z mod DSIZE = 0 /\ z <> h /\ z <> y /\ z <> bp).
        { intros z Hin. destruct (Hok z (or_intror Hin)) as [(Haz & _) Hzh].
          repeat split; try assumption.
          - intros ->. contradiction.
          - intros ->. apply Hbl. right. exact Hin. }
        peek_tac. repeat split.
        repeat apply linked_frame; try exact Hl3;
          try (intros z Hin; destruct (Hz z Hin) as (? & ? & ? & ?));
          unfold DSIZE, WSIZE in *; div_mod_lia.
  - repeat split.
  - intros a H1 H2 H3 H4. rewrite !peek_upd_ne by congruence. reflexivity.
Qed.

Lemma linked_delete st bp l2 last l1 : forall x,
  linked st x (l1 ++ bp :: l2) last ->
  List.NoDup (x :: l1 ++ bp :: l2) -> ~ In last (l1 ++ bp :: l2) ->
  (forall z, In z (x :: last :: l1 ++ bp :: l2) -> z mod DSIZE = 0) ->
  linked (upd (upd st (last_node x l1) (hd last l2))
            (hd last l2 + WSIZE) (last_node x l1))
    x (l1 ++ l2) last.
Proof.
  induction l1 as [|z l1 IH]; intros x Hl Hnd Hlast Hal.
  - simpl in *. destruct Hl as (Hl1 & Hl2 & Hl3).
    apply NoDup_cons_iff in Hnd as [Hx Hnd].
    apply NoDup_cons_iff in Hnd as [Hb Hnd].
    pose proof (Hal x (or_introl eq_refl)) as Hax.
    pose proof (Hal last (or_intror (or_introl eq_refl))) as Halast.
    destruct l2 as [|y l2']; simpl in *.
    + peek_tac. auto.
    + destruct Hl3 as (Hl3 & Hl4 & Hl5).
      apply NoDup_cons_iff in Hnd as [Hy Hnd].
      pose proof (Hal y (or_intror (or_intror (or_intror (or_introl eq_refl)))))
        as Hay.
      assert (Hxy : x <> y) by (intros ->; apply Hx; right; left; reflexivity).
      assert (Hyl : y <> last) by (intros ->; apply Hlast; right; left; reflexivity).
      assert (Hz : forall z, In z l2' ->
                    z mod DSIZE = 0 /\ z <> x /\ z <> y).
      { intros z Hin. split; [apply Hal; do 4 right; exact Hin|].
        split; intros ->; [apply Hx; do 2 right; exact Hin | contradiction]. }
      peek_tac. repeat split.
      repeat apply linked_frame; try exact Hl5;
        try (intros z Hin; destruct (Hz z Hin) as (? & ? & ?));
        unfold DSIZE, WSIZE in *; div_mod_lia.
  - simpl in Hl. destruct Hl as (Hl1 & Hl2 & Hl3).
    change ((z :: l1) ++ bp :: l2) with (z :: l1 ++ bp :: l2) in *.
    pose proof Hnd as Hnd0.
    apply NoDup_cons_iff in Hnd as [Hx Hnd].
    assert (Hal' : forall z0, In z0 (z :: last :: l1 ++ bp :: l2) ->
                     z0 mod DSIZE = 0).
    { intros z0 [<- | [<- | Hin]]; apply Hal;
        [right; right; left; reflexivity
        |right; left; reflexivity
        |do 3 right; exact Hin]. }
    assert (Hlast' : ~ In last (l1 ++ bp :: l2))
      by (intros Hin; apply Hlast; right; exact Hin).
    specialize (IH z Hl3 Hnd Hlast' Hal').
    simpl. 
    pose proof (last_node_in z l1) as Hp.
    pose proof (hd_in last l2) as Hn.
    set (p := last_node z l1) in *. set (n := hd last l2) in *.
    assert (Hap : p mod DSIZE = 0).
    { apply Hal. right. right. destruct Hp as [<- | Hp]; [left; reflexivity|].
      right. apply in_or_app. left. exact Hp. }
    assert (Han : n mod DSIZE = 0).
    { apply Hal. destruct Hn as [-> | Hn]; [right; left; reflexivity|].
      do 3 right. apply in_or_app. right. right. exact Hn. }
    assert (Hxp : x <> p).
    { intros ->. apply Hx. destruct Hp as [<- | Hp]; [left; reflexivity|].
      right. apply in_or_app. left. exact Hp. }
    assert (Hzn : z <> n).
    { intros ->. destruct Hn as [Hn | Hn].
      - apply Hlast. left. exact Hn.
      - apply NoDup_cons_iff in Hnd as [Hz _]. apply Hz.
        apply in_or_app. right. right. exact Hn. }
    pose proof (Hal x (or_introl eq_refl)) as Hax.
    pose proof (Hal' z (or_introl eq_refl)) as Haz.
    peek_tac. auto.
Qed.

(** [deleteBlock] unlinks a node of a list. *)
Lemma deleteBlock_dlist st bp h l1 l2 :
  sane st -> dlist st h (l1 ++ bp :: l2) ->
  exists st',
    deleteBlock bp st = Ok (tt, st') /\
    dlist st' h (l1 ++ l2) /\
    same_frame st st' /\
    (forall a, a <> last_node h l1 -> a <> hd h l2 + WSIZE ->
               peek st' a = peek st a).
Proof.
  intros Hs Hd.
  destruct (dlist_parts _ _ _ Hd) as (Hhl & Hnd & Hokh & Hok & Hl).
  destruct (linked_middle _ _ _ _ _ _ Hl) as [Hprev Hnext].
  assert (Hokb : node_ok st bp)
    by (apply Hok, in_or_app; right; left; reflexivity).
  assert (Hokp : node_ok st (last_node h l1)).
  { destruct (last_node_in h l1) as [<- | Hin]; [exact Hokh|].
    apply Hok, in_or_app. left. exact Hin. }
  assert (Hokn : node_ok st (hd h l2)).
  { destruct (hd_in h l2) as [-> | Hin]; [exact Hokh|].
    apply Hok, in_or_app. right. right. exact Hin. }
  assert (Hpb : last_node h l1 <> bp).
  { destruct (last_node_in h l1) as [<- | Hin].
    - intros ->. apply Hhl, in_or_app. right. left. reflexivity.
    - intros Heq. rewrite Heq in Hin.
      apply NoDup_remove_2 in Hnd. apply Hnd, in_or_app. left. exact Hin. }
  eexists. split.
  { apply deleteBlock_eval; rewrite ?Hprev, ?Hnext; assumption. }
  rewrite Hprev, Hnext. split; [|split].
  - apply dlist_build.
    + intros Hin. apply Hhl. apply in_app_or in Hin as [Hin | Hin];
        apply in_or_app; [left | right; right]; exact Hin.
    + exact (NoDup_remove_1 _ _ _ Hnd).
    + apply node_ok_upd, node_ok_upd. exact Hokh.
    + intros z Hin. apply node_ok_upd, node_ok_upd, Hok.
      apply in_app_or in Hin as [Hin | Hin];
        apply in_or_app; [left | right; right]; exact Hin.
    + apply (linked_delete st bp l2 h l1 h); try assumption.
      * apply NoDup_cons_iff. auto.
      * intros z [<- | [<- | Hin]]; [apply Hokh | apply Hokh |].
        apply Hok. exact Hin.
  - repeat split.
  - intros a H1 H2. rewrite !peek_upd_ne by congruence. reflexivity.
Qed.

Lemma check_linked_sound st l : forall x last,
  check_linked st x l last = true -> linked st x l last.
Proof.
  induction l as [|y l IH]; intros x last H; simpl in *.
  - apply andb_prop in H as [H1 H2]. apply Z.eqb_eq in H1, H2. auto.
  - apply andb_prop in H as [H H3]. apply andb_prop in H as [H1 H2].
    apply Z.eqb_eq in H1, H2. auto.
Qed.

Lemma check_nodup_sound l : check_nodup l = true -> List.NoDup l.
Proof.
  induction l as [|x l IH]; intros H; simpl in *; [constructor|].
  apply andb_prop in H as [H1 H2]. constructor; [|exact (IH H2)].
  intros Hin. apply negb_true_iff in H1.
  assert (existsb (Z.eqb x) l = true); [|congruence].
  apply existsb_exists. exists x. split; [exact Hin | apply Z.eqb_refl].
Qed.

Lemma check_dlist_sound st h l : check_dlist st h l = true -> dlist st h l.
Proof.
  unfold check_dlist. intros H.
  apply andb_prop in H as [H H3]. apply andb_prop in H as [H1 H2].
  split; [exact (check_nodup_sound _ H1)|].
  split; [|exact (check_linked_sound _ _ _ _ H3)].
  apply List.Forall_forall. intros z Hz.
  pose proof (proj1 (forallb_forall _ _) H2 z Hz) as Hc.
  unfold check_node in Hc.
  apply andb_prop in Hc as [Hc Hc3]. apply andb_prop in Hc as [Hc1 Hc2].
  apply Z.eqb_eq in Hc1. repeat split; assumption.
Qed.

Lemma sane_st_one_free : sane st_one_free.
Proof. vm_compute. repeat split; discriminate. Qed.

Lemma sane_st_two_free : sane st_two_free.
Proof. vm_compute. repeat split; discriminate. Qed.

(** X7.  [insertBlock bp] puts [bp] at the head of the circular doubly
    linked list of the class of its size: if that list holds the nodes
    [l] and [bp] is a node that is not among them, then afterwards it
    holds [bp :: l], with all [next] and [prev] links consistent, and only
    four words have changed: the [next] link of the sentinel, the [prev]
    link of the former first node and the two links of [bp]. *)
Theorem insertBlock_at_head (st : state) (bp h : Z) (l : list Z) :
  sane st ->
  valid st (HDRP bp) = true ->
  h = list_head (free_lists st) (find_explicit (block_size st bp)) ->
  dlist st h l -> node_ok st bp -> ~ In bp (h :: l) ->
  exists st',
    insertBlock bp st = Ok (tt, st') /\
    dlist st' h (bp :: l) /\
    same_frame st st' /\
    (forall a, a <> h -> a <> hd h l + WSIZE -> a <> bp ->
               a <> bp + WSIZE -> peek st' a = peek st a).
Proof. apply insertBlock_dlist. Qed.

Lemma insertBlock_at_head_witness :
  exists st',
    insertBlock first_bp st_one_free = Ok (tt, st') /\
    dlist st' (head0 2) [first_bp; first_bp + 208].
Proof.
  destruct (insertBlock_at_head st_one_free first_bp (head0 2)
              [first_bp + 208]) as (st' & H1 & H2 & _).
  - exact sane_st_one_free.
  - vm_compute. reflexivity.
  - vm_compute. reflexivity.
  - apply check_dlist_sound. vm_compute. reflexivity.
  - unfold node_ok. repeat split; vm_compute; reflexivity.
  - vm_compute. intros [H | [H | []]]; discriminate.
  - exists st'. split; assumption.
Defined.

(** X8.  [deleteBlock bp] unlinks [bp] from the circular doubly linked
    list it is in: if the list holds [l1 ++ bp :: l2], then afterwards it
    holds [l1 ++ l2] with all links consistent, and only two words have
    changed: the [next] link of the node before [bp] and the [prev] link
    of the node after it (the sentinel standing in at either end). *)
Theorem deleteBlock_unlinks (st : state) (bp h : Z) (l1 l2 : list Z) :
  sane st -> dlist st h (l1 ++ bp :: l2) ->
  exists st',
    deleteBlock bp st = Ok (tt, st') /\
    dlist st' h (l1 ++ l2) /\
    same_frame st st' /\
    (forall a, a <> last_node h l1 -> a <> hd h l2 + WSIZE ->
               peek st' a = peek st a).
Proof. apply deleteBlock_dlist. Qed.

Lemma deleteBlock_unlinks_witness :
  exists st',
    deleteBlock (first_bp + 208) st_two_free = Ok (tt, st') /\
    dlist st' (head0 2) ([first_bp] ++ []).
Proof.
  destruct (deleteBlock_unlinks st_two_free (first_bp + 208) (head0 2)
              [first_bp] []) as (st' & H1 & H2 & _).
  - exact sane_st_two_free.
  - apply check_dlist_sound. vm_compute. reflexivity.
  - exists st'. split; assumption.
Defined.

Lemma linked_first_prev st l x last :
  linked st x l last -> peek st (hd last l + WSIZE) = x.
Proof. destruct l; simpl; tauto. Qed.

(** X9.  Inserting a node and deleting it again restores the list: after
    [insertBlock bp] followed by [deleteBlock bp] the list holds the nodes
    it held before, and every word of the heap other than the two link
    words of [bp] has its old value. *)
Theorem insert_then_delete (st : state) (bp h : Z) (l : list Z) :
  sane st ->
  valid st (HDRP bp) = true ->
  h = list_head (free_lists st) (find_explicit (block_size st bp)) ->
  dlist st h l -> node_ok st bp -> ~ In bp (h :: l) ->
  exists st',
    (insertBlock bp ;;; deleteBlock bp) st = Ok (tt, st') /\
    dlist st' h l /\
    (forall a, a <> bp -> a <> bp + WSIZE -> peek st' a = peek st a).
Proof.
  intros Hs Hhd Hh Hd Hnb Hfresh.
  destruct (insertBlock_dlist _ _ _ _ Hs Hhd Hh Hd Hnb Hfresh)
    as (st1 & Hi & Hd1 & Hf1 & Hp1).
  destruct (deleteBlock_dlist st1 bp h [] l (sane_frame _ _ Hf1 Hs) Hd1)
    as (st2 & Hdel & Hd2 & Hf2 & Hp2).
  exists st2. split; [rewrite (bind_step _ _ _ _ _ Hi); exact Hdel|].
  split; [exact Hd2|].
  intros a Hab Hab8. simpl in Hp2, Hd2.
  destruct Hd as (_ & _ & Hl). destruct Hd2 as (_ & _ & Hl2).
  destruct (Z.eq_dec a h) as [-> | Hah].
  { rewrite (linked_first _ _ _ _ Hl), (linked_first _ _ _ _ Hl2).
    reflexivity. }
  destruct (Z.eq_dec a (hd h l + WSIZE)) as [-> | Hat].
  { rewrite (linked_first_prev _ _ _ _ Hl), (linked_first_prev _ _ _ _ Hl2).
    reflexivity. }
  rewrite Hp2 by assumption. apply Hp1; assumption.
Qed.

Lemma insert_then_delete_witness :
  exists st',
    (insertBlock first_bp ;;; deleteBlock first_bp) st_one_free
    = Ok (tt, st') /\
    dlist st' (head0 2) [first_bp + 208].
Proof.
  destruct (insert_then_delete st_one_free first_bp (head0 2)
              [first_bp + 208]) as (st' & H1 & H2 & _).
  - exact sane_st_one_free.
  - vm_compute. reflexivity.
  - vm_compute. reflexivity.
  - apply check_dlist_sound. vm_compute. reflexivity.
  - unfold node_ok. repeat split; vm_compute; reflexivity.
  - vm_compute. intros [H | [H | []]]; discriminate.
  - exists st'. split; assumption.
Defined.

Lemma HDRP_node st bp :
  sane st -> node_ok st bp -> HDRP bp = bp - WSIZE.
Proof.
  intros Hs (Ha & Hv & _). destruct (valid_sane _ _ Hs Hv) as [H1 H2].
  unfold HDRP, padd, wrap, DSIZE, WSIZE in *.
  rewrite Z.mod_small; div_mod_lia.
Qed.

Lemma find_in_list_hit fuel st temp bp asize :
  bp <> temp -> valid st (HDRP bp) = true -> asize <= block_size st bp ->
  find_in_list (S fuel) temp bp asize st = Ok (Some bp, st).
Proof.
  intros Hne Hv Hle. simpl. apply Z.eqb_neq in Hne. rewrite Hne.
  rewrite (bind_step _ _ _ _ _ (GET_SIZE_block _ _ Hv)).
  apply Z.leb_le in Hle. rewrite Hle. reflexivity.
Qed.

Lemma find_from_class_hit n fuel st i asize bp :
  i < NUM ->
  valid st (list_head (free_lists st) i) = true ->
  find_in_list fuel (list_head (free_lists st) i)
    (peek st (list_head (free_lists st) i)) asize st = Ok (Some bp, st) ->
  find_from_class (S n) fuel i asize st = Ok (bp, st).
Proof.
  intros Hi Hv Hf. simpl. apply Z.ltb_lt in Hi. rewrite Hi.
  unfold get_free_lists. unfold bind at 1.
  rewrite (bind_step _ _ _ _ _ (GET_peek _ _ Hv)).
  rewrite (bind_step _ _ _ _ _ Hf). reflexivity.
Qed.

(** X10.  The free lists are last-in first-out: right after
    [insertBlock bp], a search for any size of the class of [bp] that
    [bp] can hold returns [bp], whatever else the lists contain. *)
Theorem inserted_block_found_first
    (fuel : nat) (st : state) (bp h asize : Z) (l : list Z) :
  sane st ->
  valid st (HDRP bp) = true ->
  h = list_head (free_lists st) (find_explicit (block_size st bp)) ->
  dlist st h l -> node_ok st bp -> ~ In bp (h :: l) ->
  hd h l + DSIZE <> bp ->
  find_explicit asize = find_explicit (block_size st bp) ->
  asize <= block_size st bp ->
  exists st',
    insertBlock bp st = Ok (tt, st') /\
    find_fit (S fuel) asize st' = Ok (bp, st').
Proof.
  intros Hs Hhd Hh Hd Hnb Hfresh Hfirst Hclass Hfit.
  destruct (insertBlock_dlist _ _ _ _ Hs Hhd Hh Hd Hnb Hfresh)
    as (st' & Hi & Hd' & Hf & Hp).
  exists st'. split; [exact Hi|].
  destruct (dlist_parts _ _ _ Hd') as (Hh' & _ & Hokh & _ & Hl').
  destruct (dlist_parts _ _ _ Hd) as (_ & _ & (Hah & _) & _).
  pose proof (HDRP_node _ _ Hs Hnb) as Ehd. pose proof Hnb as (Hab & _).
  assert (Hsize : block_size st' bp = block_size st bp).
  { unfold block_size. rewrite Ehd. rewrite Hp; [reflexivity | | | |];
      unfold DSIZE, WSIZE in *; div_mod_lia. }
  assert (Hfl : free_lists st' = free_lists st) by apply Hf.
  unfold find_fit. rewrite Hclass.
  change (Z.to_nat NUM) with 16%nat.
  apply find_from_class_hit.
  - pose proof (find_explicit_range (block_size st bp)). unfold NUM. lia.
  - rewrite Hfl, <- Hh. apply Hokh.
  - rewrite Hfl, <- Hh.
    simpl in Hl'. destruct Hl' as (Hl1 & _). rewrite Hl1.
    apply find_in_list_hit.
    + intros ->. apply Hfresh. left. reflexivity.
    + rewrite (same_frame_valid _ _ _ Hf). exact Hhd.
    + rewrite Hsize. exact Hfit.
Qed.

Lemma inserted_block_found_first_witness :
  block_size st_one_free first_bp = 176 /\
  exists st',
    insertBlock first_bp st_one_free = Ok (tt, st') /\
    find_fit 1 170 st' = Ok (first_bp, st').
Proof.
  split; [vm_compute; reflexivity|].
  apply (inserted_block_found_first 0 st_one_free first_bp (head0 2) 170
           [first_bp + 208]).
  - exact sane_st_one_free.
  - vm_compute. reflexivity.
  - vm_compute. reflexivity.
  - apply check_dlist_sound. vm_compute. reflexivity.
  - unfold node_ok. repeat split; vm_compute; reflexivity.
  - vm_compute. intros [H | [H | []]]; discriminate.
  - vm_compute. discriminate.
  - vm_compute. reflexivity.
  - vm_compute. discriminate.
Defined.

(** ** Placing a block *)

Lemma block_size_range st bp :
  0 <= block_size st bp < 2 ^ 64 /\ block_size st bp mod DSIZE = 0.
Proof.
  unfold block_size. rewrite size_mask_gen. unfold DSIZE, WSIZE.
  div_mod_lia.
Qed.

Lemma valid_between st a b c :
  valid st a = true -> valid st b = true -> a <= c <= b -> c mod WSIZE = 0 ->
  valid st c = true.
Proof.
  unfold valid. intros Ha Hb Hc Hm.
  apply andb_prop in Ha as [Ha _]. apply andb_prop in Ha as [Ha1 _].
  apply andb_prop in Hb as [Hb _]. apply andb_prop in Hb as [_ Hb2].
  apply Z.leb_le in Ha1, Hb2.
  apply andb_true_intro. split; [apply andb_true_intro; split|].
  - apply Z.leb_le. lia.
  - apply Z.leb_le. lia.
  - apply Z.eqb_eq. exact Hm.
Qed.

(** Numeric facts about a block in the heap. *)
Lemma block_at_bounds st bp csize :
  sane st -> block_at st bp csize ->
  0 < bp - WSIZE /\ bp + csize < 2 ^ 64 /\
  0 <= csize < 2 ^ 64 /\ csize mod DSIZE = 0 /\
  (DSIZE <= csize -> bp - WSIZE <= bp + csize - DSIZE).
Proof.
  intros Hs (Ha & Hsz & Hvh & Hvf & Hvn).
  destruct (valid_sane _ _ Hs Hvh) as [H1 H2].
  destruct (valid_sane _ _ Hs Hvn) as [H3 H4].
  pose proof (block_size_range st bp) as [H5 H6]. rewrite Hsz in *.
  unfold DSIZE, WSIZE in *. repeat split; lia.
Qed.

Lemma HDRP_eq bp : 8 <= bp < 2 ^ 64 -> HDRP bp = bp - WSIZE.
Proof.
  intros H. unfold HDRP, padd, wrap, WSIZE. rewrite Z.mod_small; lia.
Qed.

(** Reading the neighbours of a block whose header holds [PACK s a]. *)
Lemma FTRP_eval st bp s :
  8 <= bp -> DSIZE <= s -> bp + s < 2 ^ 64 ->
  valid st (bp - WSIZE) = true ->
  Z.land (peek st (bp - WSIZE)) (wnot (DSIZE - 1)) = s ->
  FTRP bp st = Ok (bp + s - DSIZE, st).
Proof.
  intros Hb Hs Hlt Hv Hsz. unfold FTRP.
  rewrite HDRP_eq by (unfold DSIZE, WSIZE in *; lia).
  rewrite (bind_step _ _ _ _ _ (GET_SIZE_eval _ _ Hv)), Hsz.
  unfold ret, padd, wrap, DSIZE, WSIZE in *.
  rewrite (Z.mod_small (bp + s)) by lia. rewrite Z.mod_small by lia.
  repeat f_equal; lia.
Qed.

Lemma NEXT_BLKP_eval st bp s :
  8 <= bp -> 0 <= s -> bp + s < 2 ^ 64 ->
  valid st (bp - WSIZE) = true ->
  Z.land (peek st (bp - WSIZE)) (wnot (DSIZE - 1)) = s ->
  NEXT_BLKP bp st = Ok (bp + s, st).
Proof.
  intros Hb Hs Hlt Hv Hsz. unfold NEXT_BLKP.
  fold (HDRP bp). rewrite HDRP_eq by lia.
  rewrite (bind_step _ _ _ _ _ (GET_SIZE_eval _ _ Hv)), Hsz.
  unfold ret, padd, wrap. rewrite Z.mod_small by lia. reflexivity.
Qed.

Lemma PREV_BLKP_eval st bp s :
  16 <= bp < 2 ^ 64 -> 0 <= s <= bp ->
  valid st (bp - DSIZE) = true ->
  Z.land (peek st (bp - DSIZE)) (wnot (DSIZE - 1)) = s ->
  PREV_BLKP bp st = Ok (bp - s, st).
Proof.
  intros Hb Hs Hv Hsz. unfold PREV_BLKP.
  assert (E : padd bp (- DSIZE) = bp - DSIZE)
    by (unfold padd, wrap, DSIZE, WSIZE; rewrite Z.mod_small; lia).
  rewrite E, (bind_step _ _ _ _ _ (GET_SIZE_eval _ _ Hv)), Hsz.
  unfold ret, padd, wrap. rewrite Z.mod_small by lia.
  repeat f_equal; lia.
Qed.

Lemma size_of_PACK s a :
  0 <= s < 2 ^ 64 -> s mod DSIZE = 0 -> a = 0 \/ a = 1 ->
  Z.land (PACK s a) (wnot (DSIZE - 1)) = s.
Proof. apply unpack_size. Qed.

Lemma dlist_upd st h l p v :
  dlist st h l ->
  (forall x, In x (h :: l) -> p <> x /\ p <> x + WSIZE) ->
  dlist (upd st p v) h l.
Proof.
  intros Hd Hp. destruct (dlist_parts _ _ _ Hd) as (Hh & Hnd & Hokh & Hok & Hl).
  apply dlist_build.
  - exact Hh.
  - exact Hnd.
  - apply node_ok_upd. exact Hokh.
  - intros z Hz. apply node_ok_upd. exact (proj1 (Hok z Hz)).
  - apply linked_frame;
      [apply Hp; left; reflexivity
      |intros z Hz; apply Hp; right; exact Hz
      |apply Hp; left; reflexivity
      |exact Hl].
Qed.

(** The first steps of [place] when it does not split: the two tags are
    written, then the block is unlinked. *)
Lemma place_whole_steps st bp asize csize :
  sane st -> block_at st bp csize -> DSIZE <= csize ->
  wsub csize asize < ALIGN + DSIZE ->
  place bp asize st
  = deleteBlock bp (upd (upd st (bp - WSIZE) (PACK csize 1))
                      (bp + csize - DSIZE) (PACK csize 1)).
Proof.
  intros Hs Hb Hmin Hno.
  destruct (block_at_bounds _ _ _ Hs Hb) as (B1 & B2 & B3 & B4 & B5).
  destruct Hb as (Ha & Hsz & Hvh & Hvf & Hvn).
  assert (Ehd : HDRP bp = bp - WSIZE)
    by (apply HDRP_eq; unfold DSIZE, WSIZE in *; lia).
  unfold place. rewrite Ehd.
  rewrite (bind_step _ _ _ _ _ (GET_SIZE_eval _ _ Hvh)).
  unfold block_size in Hsz. rewrite Ehd in Hsz. rewrite Hsz.
  assert (Hc : (ALIGN + DSIZE <=? wsub csize asize) = false)
    by (apply Z.leb_gt; exact Hno).
  rewrite Hc. put_step Hvh.
  set (st1 := upd st (bp - WSIZE) (PACK csize 1)).
  assert (Ef : FTRP bp st1 = Ok (bp + csize - DSIZE, st1)).
  { apply FTRP_eval; try (unfold DSIZE, WSIZE in *; lia); [exact Hvh|].
    unfold st1. rewrite peek_upd_eq. apply size_of_PACK; auto. }
  rewrite (bind_step _ _ _ _ _ Ef). put_step Hvf. reflexivity.
Qed.

(** The block taken whole leaves its list. *)
Lemma place_whole_dlist st bp asize csize h l1 l2 :
  sane st -> block_at st bp csize -> 2 * DSIZE <= csize ->
  wsub csize asize < ALIGN + DSIZE ->
  dlist st h (l1 ++ bp :: l2) ->
  (forall x, In x (h :: l1 ++ l2) -> outside bp csize x) ->
  exists st',
    place bp asize st = Ok (tt, st') /\
    peek st' (bp - WSIZE) = PACK csize 1 /\
    peek st' (bp + csize - DSIZE) = PACK csize 1 /\
    dlist st' h (l1 ++ l2) /\
    same_frame st st' /\
    (forall a, a <> bp - WSIZE -> a <> bp + csize - DSIZE ->
               a <> last_node h l1 -> a <> hd h l2 + WSIZE ->
               peek st' a = peek st a).
Proof.
  intros Hs Hb Hmin Hno Hd Hout.
  rewrite (place_whole_steps st bp asize csize Hs Hb) by
    (assumption || (unfold DSIZE, WSIZE in *; lia)).
  destruct (block_at_bounds _ _ _ Hs Hb) as (B1 & B2 & B3 & B4 & B5).
  pose proof Hb as (Ha & Hsz & Hvh & Hvf & Hvn).
  set (st2 := upd (upd st (bp - WSIZE) (PACK csize 1))
                (bp + csize - DSIZE) (PACK csize 1)).
  assert (Hall : forall x, In x (h :: l1 ++ bp :: l2) ->
                   x mod DSIZE = 0 /\ (x = bp \/ outside bp csize x)).
  { intros x Hx. destruct (dlist_parts _ _ _ Hd) as (_ & _ & Hokh & Hok & _).
    split.
    - destruct Hx as [<- | Hx]; [apply Hokh | apply Hok; exact Hx].
    - destruct Hx as [<- | Hx]; [right; apply Hout; left; reflexivity|].
      apply in_app_or in Hx as [Hx | [<- | Hx]]; [right | left | right];
        try reflexivity; apply Hout; right; apply in_or_app; auto. }
  assert (Hd2 : dlist st2 h (l1 ++ bp :: l2)).
  { unfold st2. apply dlist_upd; [apply dlist_upd; [exact Hd|]|];
      intros x Hx; destruct (Hall x Hx) as [Hax [-> | Hox]];
      unfold outside, DSIZE, WSIZE in *; div_mod_lia. }
  assert (Hs2 : sane st2) by (eapply sane_frame; [|exact Hs]; repeat split).
  destruct (deleteBlock_dlist st2 bp h l1 l2 Hs2 Hd2)
    as (st' & Hdel & Hd' & Hf & Hp).
  assert (Hpn : forall x, x = last_node h l1 \/ x = hd h l2 ->
                  x mod DSIZE = 0 /\ outside bp csize x).
  { intros x Hx.
    assert (Hin : In x (h :: l1 ++ l2)).
    { destruct Hx as [-> | ->].
      - destruct (last_node_in h l1) as [<- | Hin]; [left; reflexivity|].
        right. apply in_or_app. left. exact Hin.
      - destruct (hd_in h l2) as [-> | Hin]; [left; reflexivity|].
        right. apply in_or_app. right. exact Hin. }
    split; [|apply Hout; exact Hin].
    apply Hall. destruct Hin as [<- | Hin]; [left; reflexivity|].
    right. apply in_app_or in Hin as [Hin | Hin]; apply in_or_app;
      [left | right; right]; exact Hin. }
  destruct (Hpn (last_node h l1) (or_introl eq_refl)) as [Hap Hop].
  destruct (Hpn (hd h l2) (or_intror eq_refl)) as [Han Hon].
  exists st'. split; [exact Hdel|].
  split; [|split; [|split; [exact Hd'|split]]].
  - rewrite Hp by (unfold outside, DSIZE, WSIZE in *; div_mod_lia).
    unfold st2. peek_tac. reflexivity.
  - rewrite Hp by (unfold outside, DSIZE, WSIZE in *; div_mod_lia).
    unfold st2. peek_tac. reflexivity.
  - eapply same_frame_trans; [|exact Hf]. repeat split.
  - intros a H1 H2 H3 H4. rewrite Hp by assumption.
    unfold st2. rewrite !peek_upd_ne by congruence. reflexivity.
Qed.

(** X11.  When the remainder would be smaller than the minimum block,
    [place] takes the whole block: header and footer both become
    [PACK csize 1], with the size the block had, the block is unlinked
    from its list, whose other nodes stay linked in order, and no other
    word of the heap changes. *)
Theorem place_takes_whole_block
    (st : state) (bp asize csize h : Z) (l1 l2 : list Z) :
  sane st -> block_at st bp csize -> 2 * DSIZE <= csize ->
  wsub csize asize < ALIGN + DSIZE ->
  dlist st h (l1 ++ bp :: l2) ->
  (forall x, In x (h :: l1 ++ l2) -> outside bp csize x) ->
  exists st',
    place bp asize st = Ok (tt, st') /\
    peek st' (bp - WSIZE) = PACK csize 1 /\
    peek st' (bp + csize - DSIZE) = PACK csize 1 /\
    dlist st' h (l1 ++ l2) /\
    same_frame st st' /\
    (forall a, a <> bp - WSIZE -> a <> bp + csize - DSIZE ->
               a <> last_node h l1 -> a <> hd h l2 + WSIZE ->
               peek st' a = peek st a).
Proof. apply place_whole_dlist. Qed.

Lemma place_takes_whole_block_witness :
  exists st',
    place (first_bp + 208) 208 st_one_free = Ok (tt, st') /\
    peek st' (first_bp + 208 - WSIZE) = PACK 224 1 /\
    dlist st' (head0 2) ([] ++ []).
Proof.
  destruct (place_takes_whole_block st_one_free (first_bp + 208) 208 224
              (head0 2) [] []) as (st' & H1 & H2 & _ & H3 & _).
  - exact sane_st_one_free.
  - unfold block_at. repeat split; vm_compute; reflexivity.
  - vm_compute. discriminate.
  - vm_compute. reflexivity.
  - apply check_dlist_sound. vm_compute. reflexivity.
  - intros x [<- | []]. left. vm_compute. discriminate.
  - exists st'. auto.
Defined.

(** What [place] writes when it splits: the tags of the allocated part,
    the unlinking of the block, the tags of the remainder and the
    insertion of the remainder at the head of the list of its class. *)
Lemma place_split_eval st bp asize csize h' p n t :
  sane st -> block_at st bp csize ->
  asize mod DSIZE = 0 -> 2 * DSIZE <= asize -> asize + 2 * DSIZE <= csize ->
  p = peek st (bp + WSIZE) -> n = peek st bp ->
  node_ok st p -> node_ok st n ->
  outside bp csize p -> outside bp csize n ->
  h' = list_head (free_lists st) (find_explicit (csize - asize)) ->
  node_ok st h' -> outside bp csize h' ->
  t = (if p =? h' then n else peek st h') ->
  node_ok st t -> outside bp csize t ->
  place bp asize st
  = Ok (tt,
        upd (upd (upd (upd
          (upd (upd (upd (upd (upd (upd st
             (bp - WSIZE) (PACK asize 1))
             (bp + asize - DSIZE) (PACK asize 1))
             p n)
             (n + WSIZE) p)
             (bp + asize - WSIZE) (PACK (csize - asize) 0))
             (bp + csize - DSIZE) (PACK (csize - asize) 0))
          h' (bp + asize))
          (t + WSIZE) (bp + asize))
          (bp + asize + WSIZE) h')
          (bp + asize) t).
Proof.
  intros Hs Hb Haa Hamin Hfit Ep En Hnp Hnn Hop Hon Eh Hnh Hoh Et Hnt Hot.
  destruct (block_at_bounds _ _ _ Hs Hb) as (B1 & B2 & B3 & B4 & B5).
  destruct Hb as (Ha & Hsz & Hvh & Hvf & Hvn).
  pose proof Hnp as (Hap & _). pose proof Hnn as (Han & _).
  pose proof Hnh as (Hah & _). pose proof Hnt as (Hat & _).
  assert (Ehd : HDRP bp = bp - WSIZE)
    by (apply HDRP_eq; unfold DSIZE, WSIZE in *; lia).
  assert (Hbetween : forall c, bp - WSIZE <= c <= bp + csize - DSIZE ->
                       c mod WSIZE = 0 -> valid st c = true).
  { intros c Hc Hm. exact (valid_between _ _ _ _ Hvh Hvf Hc Hm). }
  assert (Hvf1 : valid st (bp + asize - DSIZE) = true)
    by (apply Hbetween; unfold DSIZE, WSIZE in *; div_mod_lia).
  assert (Hvh2 : valid st (bp + asize - WSIZE) = true)
    by (apply Hbetween; unfold DSIZE, WSIZE in *; div_mod_lia).
  assert (Hvb : valid st bp = true)
    by (apply Hbetween; unfold DSIZE, WSIZE in *; div_mod_lia).
  assert (Hvb8 : valid st (bp + WSIZE) = true)
    by (apply Hbetween; unfold DSIZE, WSIZE in *; div_mod_lia).
  assert (Hvr : valid st (bp + asize) = true)
    by (apply Hbetween; unfold DSIZE, WSIZE in *; div_mod_lia).
  assert (Hvr8 : valid st (bp + asize + WSIZE) = true)
    by (apply Hbetween; unfold DSIZE, WSIZE in *; div_mod_lia).
  assert (Erem : wsub csize asize = csize - asize).
  { unfold wsub, wrap. apply Z.mod_small. unfold DSIZE, WSIZE in *. lia. }
  unfold place. rewrite Ehd.
  rewrite (bind_step _ _ _ _ _ (GET_SIZE_eval _ _ Hvh)).
  unfold block_size in Hsz. rewrite Ehd in Hsz. rewrite Hsz, Erem.
  assert (Hc : (ALIGN + DSIZE <=? csize - asize) = true)
    by (apply Z.leb_le; unfold ALIGN, DSIZE, WSIZE in *; lia).
  rewrite Hc. put_step Hvh.
  set (st1 := upd st (bp - WSIZE) (PACK asize 1)).
  assert (Ef : FTRP bp st1 = Ok (bp + asize - DSIZE, st1)).
  { apply FTRP_eval; try (unfold DSIZE, WSIZE in *; lia); [exact Hvh|].
    unfold st1. rewrite peek_upd_eq.
    apply size_of_PACK; auto. unfold DSIZE, WSIZE in *. lia. }
  rewrite (bind_step _ _ _ _ _ Ef). put_step Hvf1.
  set (st2 := upd st1 (bp + asize - DSIZE) (PACK asize 1)).
  assert (E1 : peek st2 (bp + WSIZE) = p)
    by (unfold st2, st1; peek_tac; symmetry; exact Ep).
  assert (E2 : peek st2 bp = n)
    by (unfold st2, st1; peek_tac; symmetry; exact En).
  assert (Hs2 : sane st2) by (eapply sane_frame; [|exact Hs]; repeat split).
  assert (Hdel : deleteBlock bp st2
                 = Ok (tt, upd (upd st2 p n) (n + WSIZE) p)).
  { rewrite (deleteBlock_eval st2 bp); rewrite ?E1, ?E2; try assumption.
    - reflexivity.
    - split; [exact Ha | split; [exact Hvb | exact Hvb8]].
    - unfold outside, DSIZE, WSIZE in *. lia. }
  rewrite (bind_step _ _ _ _ _ Hdel).
  set (st4 := upd (upd st2 p n) (n + WSIZE) p).
  assert (En4 : NEXT_BLKP bp st4 = Ok (bp + asize, st4)).
  { apply NEXT_BLKP_eval; try (unfold DSIZE, WSIZE in *; lia); [exact Hvh|].
    assert (E : peek st4 (bp - WSIZE) = PACK asize 1).
    { unfold st4, st2, st1. unfold outside in *. peek_tac. reflexivity. }
    rewrite E. apply size_of_PACK; auto. unfold DSIZE, WSIZE in *. lia. }
  rewrite (bind_step _ _ _ _ _ En4).
  assert (Ehd2 : HDRP (bp + asize) = bp + asize - WSIZE)
    by (apply HDRP_eq; unfold DSIZE, WSIZE in *; lia).
  rewrite Ehd2. put_step Hvh2.
  set (st5 := upd st4 (bp + asize - WSIZE) (PACK (csize - asize) 0)).
  assert (Ef5 : FTRP (bp + asize) st5 = Ok (bp + csize - DSIZE, st5)).
  { replace (bp + csize - DSIZE) with (bp + asize + (csize - asize) - DSIZE)
      by lia.
    apply FTRP_eval; try (unfold DSIZE, WSIZE in *; lia); [exact Hvh2|].
    unfold st5. rewrite peek_upd_eq.
    apply size_of_PACK; auto; unfold DSIZE, WSIZE in *; div_mod_lia. }
  rewrite (bind_step _ _ _ _ _ Ef5). put_step Hvf.
  set (st6 := upd st5 (bp + csize - DSIZE) (PACK (csize - asize) 0)).
  assert (Ebs : block_size st6 (bp + asize) = csize - asize).
  { unfold block_size. rewrite Ehd2. unfold st6, st5. peek_tac.
    apply size_of_PACK; auto; unfold DSIZE, WSIZE in *; div_mod_lia. }
  assert (Et6 : peek st6 h' = t).
  { unfold st6, st5, st4, st2, st1. unfold outside in *.
    destruct (Z.eqb_spec p h') as [E | E].
    - rewrite <- E. peek_tac. symmetry. exact Et.
    - peek_tac. symmetry. exact Et. }
  rewrite (insertBlock_eval st6 (bp + asize) h').
  - rewrite Et6. reflexivity.
  - eapply sane_frame; [|exact Hs]. repeat split.
  - rewrite Ehd2. exact Hvh2.
  - rewrite Ebs. exact Eh.
  - exact Hnh.
  - rewrite Et6. exact Hnt.
  - split; [|split; [exact Hvr | exact Hvr8]].
    unfold DSIZE, WSIZE in *. div_mod_lia.
Qed.

(** The tags after a split. *)
Lemma place_splits_block_steps st bp asize csize h' p n t :
  sane st -> block_at st bp csize ->
  asize mod DSIZE = 0 -> 2 * DSIZE <= asize -> asize + 2 * DSIZE <= csize ->
  p = peek st (bp + WSIZE) -> n = peek st bp ->
  node_ok st p -> node_ok st n ->
  outside bp csize p -> outside bp csize n ->
  h' = list_head (free_lists st) (find_explicit (csize - asize)) ->
  node_ok st h' -> outside bp csize h' ->
  t = (if p =? h' then n else peek st h') ->
  node_ok st t -> outside bp csize t ->
  exists st',
    place bp asize st = Ok (tt, st') /\
    peek st' (bp - WSIZE) = PACK asize 1 /\
    peek st' (bp + asize - DSIZE) = PACK asize 1 /\
    same_frame st st'.
Proof.
  intros Hs Hb Haa Hamin Hfit Ep En Hnp Hnn Hop Hon Eh Hnh Hoh Et Hnt Hot.
  eexists. split.
  { apply (place_split_eval st bp asize csize h' p n t); assumption. }
  destruct (block_at_bounds _ _ _ Hs Hb) as (B1 & B2 & B3 & B4 & B5).
  destruct Hb as (Ha & _).
  pose proof Hnp as (Hap & _). pose proof Hnn as (Han & _).
  pose proof Hnh as (Hah & _). pose proof Hnt as (Hat & _).
  clear Ep En Eh Et Hnp Hnn Hnh Hnt Hs.
  unfold outside in *.
  split; [peek_tac; reflexivity|].
  split; [peek_tac; reflexivity|].
  repeat split.
Qed.

(** X12.  When the remainder is at least the minimum block, [place]
    splits: the first [asize] bytes become an allocated block with header
    and footer [PACK asize 1], the rest becomes a free block with header
    and footer [PACK (csize - asize) 0], so that the two sizes add up to
    the old size.  The old block is unlinked: the [next] link of its
    predecessor [p] ends as its successor [n] and the [prev] link of [n]
    ends as [p], except where the remainder, which is linked in right
    behind the sentinel [h'] of its class, has taken the place ([p] is
    that sentinel, or [n] was the first node behind it).  No other word
    changes. *)
Theorem place_splits_block (st : state) (bp asize csize h' p n t : Z) :
  sane st -> block_at st bp csize ->
  asize mod DSIZE = 0 -> 2 * DSIZE <= asize -> asize + 2 * DSIZE <= csize ->
  p = peek st (bp + WSIZE) -> n = peek st bp ->
  node_ok st p -> node_ok st n ->
  outside bp csize p -> outside bp csize n ->
  h' = list_head (free_lists st) (find_explicit (csize - asize)) ->
  node_ok st h' -> outside bp csize h' ->
  t = (if p =? h' then n else peek st h') ->
  node_ok st t -> outside bp csize t ->
  exists st',
    place bp asize st = Ok (tt, st') /\
    peek st' (bp - WSIZE) = PACK asize 1 /\
    peek st' (bp + asize - DSIZE) = PACK asize 1 /\
    peek st' (bp + asize - WSIZE) = PACK (csize - asize) 0 /\
    peek st' (bp + csize - DSIZE) = PACK (csize - asize) 0 /\
    peek st' h' = bp + asize /\
    peek st' (bp + asize + WSIZE) = h' /\
    peek st' (bp + asize) = t /\
    peek st' (t + WSIZE) = bp + asize /\
    same_frame st st' /\
    (forall a,
       a <> bp - WSIZE -> a <> bp + asize - DSIZE ->
       a <> bp + asize - WSIZE -> a <> bp + csize - DSIZE ->
       a <> p -> a <> n + WSIZE -> a <> h' -> a <> t + WSIZE ->
       a <> bp + asize -> a <> bp + asize + WSIZE ->
       peek st' a = peek st a) /\
    peek st' p = (if p =? h' then bp + asize else n) /\
    peek st' (n + WSIZE) = (if n =? t then bp + asize else p).
Proof.
  intros Hs Hb Haa Hamin Hfit Ep En Hnp Hnn Hop Hon Eh Hnh Hoh Et Hnt Hot.
  eexists. split.
  { apply (place_split_eval st bp asize csize h' p n t); assumption. }
  destruct (block_at_bounds _ _ _ Hs Hb) as (B1 & B2 & B3 & B4 & B5).
  destruct Hb as (Ha & _).
  pose proof Hnp as (Hap & _). pose proof Hnn as (Han & _).
  pose proof Hnh as (Hah & _). pose proof Hnt as (Hat & _).
  clear Ep En Eh Et Hnp Hnn Hnh Hnt Hs.
  unfold outside in *.
  split; [peek_tac; reflexivity|].
  split; [peek_tac; reflexivity|].
  split; [peek_tac; reflexivity|].
  split; [peek_tac; reflexivity|].
  split; [peek_tac; reflexivity|].
  split; [peek_tac; reflexivity|].
  split; [peek_tac; reflexivity|].
  split; [peek_tac; reflexivity|].
  split; [repeat split|].
  split.
  { intros a H1 H2 H3 H4 H5 H6 H7 H8 H9 H10.
    rewrite !peek_upd_ne by congruence. reflexivity. }
  split.
  - destruct (Z.eqb_spec p h') as [E | E].
    + rewrite E. peek_tac. reflexivity.
    + peek_tac. reflexivity.
  - destruct (Z.eqb_spec n t) as [E | E].
    + rewrite E. peek_tac. reflexivity.
    + peek_tac. reflexivity.
Qed.

Lemma place_splits_block_witness :
  exists st',
    place first_bp 128 st_init = Ok (tt, st') /\
    peek st' (first_bp - WSIZE) = PACK 128 1 /\
    peek st' (first_bp + 128 - WSIZE) = PACK (4096 - 128) 0 /\
    peek st' (head0 8) = first_bp + 128 /\
    peek st' (head0 9) = head0 9 /\
    peek st' (head0 9 + WSIZE) = head0 9.
Proof.
  destruct (place_splits_block st_init first_bp 128 4096 (head0 8)
              (head0 9) (head0 9) (head0 8))
    as (st' & H1 & H2 & _ & H3 & _ & H4 & _ & _ & _ & _ & _ & H5 & H6).
  - exact sane_st_init.
  - unfold block_at. repeat split; vm_compute; reflexivity.
  - reflexivity.
  - vm_compute. discriminate.
  - vm_compute. discriminate.
  - vm_compute. reflexivity.
  - vm_compute. reflexivity.
  - unfold node_ok. repeat split; vm_compute; reflexivity.
  - unfold node_ok. repeat split; vm_compute; reflexivity.
  - left. vm_compute. discriminate.
  - left. vm_compute. discriminate.
  - vm_compute. reflexivity.
  - unfold node_ok. repeat split; vm_compute; reflexivity.
  - left. vm_compute. discriminate.
  - vm_compute. reflexivity.
  - unfold node_ok. repeat split; vm_compute; reflexivity.
  - left. vm_compute. discriminate.
  - assert (E : (head0 9 =? head0 8) = false) by reflexivity.
    rewrite E in H5, H6.
    exists st'. auto 10.
Defined.

(** ** What a search can return *)

Lemma find_in_list_sound fuel : forall st temp bp asize r st',
  find_in_list fuel temp bp asize st = Ok (Some r, st') ->
  valid st (HDRP r) = true /\ asize <= block_size st r.
Proof.
  induction fuel as [|fuel IH]; intros st temp bp asize r st' H;
    simpl in H; [discriminate|].
  destruct (bp =? temp); [discriminate|].
  apply bind_Ok in H as (s & st1 & Hs & H). cbv beta in H.
  destruct (GET_SIZE_cases (HDRP bp) st) as [(s' & Hs' & Hv) | [Hf _]];
    [|congruence].
  rewrite (GET_SIZE_block _ _ Hv) in Hs. inversion Hs; subst s st1.
  destruct (Z.leb_spec asize (block_size st bp)) as [Hle | Hgt].
  - inversion H; subst. auto.
  - apply bind_Ok in H as (nx & st1 & Hn & H). cbv beta in H.
    apply read_only in Hn as ->. exact (IH _ _ _ _ _ _ H).
Qed.

Lemma find_from_class_sound n : forall fuel st i asize r st',
  find_from_class n fuel i asize st = Ok (r, st') -> r <> NULL ->
  valid st (HDRP r) = true /\ asize <= block_size st r.
Proof.
  induction n as [|n IH]; intros fuel st i asize r st' H Hr; simpl in H.
  - inversion H; subst. contradiction.
  - destruct (i <? NUM); [|inversion H; subst; contradiction].
    apply bind_Ok in H as (fl & st1 & Hfl & H). cbv beta in H.
    apply read_only in Hfl as ->.
    apply bind_Ok in H as (first & st1 & Hg & H). cbv beta in H.
    apply read_only in Hg as ->.
    apply bind_Ok in H as (o & st1 & Hf & H). cbv beta in H.
    pose proof (read_only _ _ _ Hf) as ->.
    destruct o as [bp|].
    + inversion H; subst. exact (find_in_list_sound _ _ _ _ _ _ _ Hf).
    + exact (IH _ _ _ _ _ _ H Hr).
Qed.

Lemma find_fit_result fuel asize st r st' :
  find_fit fuel asize st = Ok (r, st') ->
  st' = st /\
  (r <> NULL -> valid st (HDRP r) = true /\ asize <= block_size st r).
Proof.
  intros H. split; [exact (read_only _ _ _ H)|].
  intros Hr. unfold find_fit in H.
  exact (find_from_class_sound _ _ _ _ _ _ _ H Hr).
Qed.

(** X13.  Whatever the free lists look like, a search that returns a
    block returns one that is large enough: [find_fit] never changes the
    state, and when its result is not [NULL] the header of the result is
    in the heap and holds a size of at least [asize]. *)
Theorem find_fit_sound (fuel : nat) (asize : Z) (st : state) (r : Z)
    (st' : state) :
  find_fit fuel asize st = Ok (r, st') ->
  st' = st /\
  (r <> NULL -> valid st (HDRP r) = true /\ asize <= block_size st r).
Proof. apply find_fit_result. Qed.

Lemma find_fit_sound_witness :
  find_fit 3 208 st_two_free = Ok (first_bp + 208, st_two_free) /\
  208 <= block_size st_two_free (first_bp + 208).
Proof.
  assert (H : find_fit 3 208 st_two_free = Ok (first_bp + 208, st_two_free))
    by (vm_compute; reflexivity).
  split; [exact H|].
  apply (find_fit_sound 3 208 st_two_free (first_bp + 208) st_two_free H).
  vm_compute. discriminate.
Defined.

(** ** Allocating from a free list *)

(** What [place] writes when it does not split. *)
Lemma place_whole_eval st bp asize csize p n :
  sane st -> block_at st bp csize -> 2 * DSIZE <= csize ->
  wsub csize asize < ALIGN + DSIZE ->
  p = peek st (bp + WSIZE) -> n = peek st bp ->
  node_ok st p -> node_ok st n -> outside bp csize p ->
  place bp asize st
  = Ok (tt, upd (upd (upd (upd st (bp - WSIZE) (PACK csize 1))
                        (bp + csize - DSIZE) (PACK csize 1))
                   p n)
              (n + WSIZE) p).
Proof.
  intros Hs Hb Hmin Hno Ep En Hnp Hnn Hop.
  rewrite (place_whole_steps st bp asize csize Hs Hb) by
    (assumption || (unfold DSIZE, WSIZE in *; lia)).
  destruct (block_at_bounds _ _ _ Hs Hb) as (B1 & B2 & B3 & B4 & B5).
  destruct Hb as (Ha & Hsz & Hvh & Hvf & Hvn).
  set (st2 := upd (upd st (bp - WSIZE) (PACK csize 1))
                (bp + csize - DSIZE) (PACK csize 1)).
  assert (Hvb : valid st bp = true).
  { apply (valid_between st (bp - WSIZE) (bp + csize - DSIZE));
      try assumption; unfold DSIZE, WSIZE in *; div_mod_lia. }
  assert (Hvb8 : valid st (bp + WSIZE) = true).
  { apply (valid_between st (bp - WSIZE) (bp + csize - DSIZE));
      try assumption; unfold DSIZE, WSIZE in *; div_mod_lia. }
  assert (E1 : peek st2 (bp + WSIZE) = p)
    by (unfold st2; peek_tac; symmetry; exact Ep).
  assert (E2 : peek st2 bp = n)
    by (unfold st2; peek_tac; symmetry; exact En).
  assert (Hs2 : sane st2) by exact Hs.
  assert (Hb2 : node_ok st2 bp)
    by (split; [exact Ha | split; [exact Hvb | exact Hvb8]]).
  assert (Hp2 : node_ok st2 (peek st2 (bp + WSIZE)))
    by (rewrite E1; exact Hnp).
  assert (Hn2 : node_ok st2 (peek st2 bp)) by (rewrite E2; exact Hnn).
  assert (Hne : peek st2 (bp + WSIZE) <> bp)
    by (rewrite E1; unfold outside, DSIZE, WSIZE in *; lia).
  rewrite (deleteBlock_eval st2 bp Hs2 Hb2 Hp2 Hn2 Hne), E1, E2.
  reflexivity.
Qed.

Lemma malloc_asize_bounds size :
  0 < size <= 2 ^ 64 - 32 ->
  malloc_asize size mod DSIZE = 0 /\ 2 * DSIZE <= malloc_asize size /\
  size + DSIZE <= malloc_asize size < 2 ^ 64.
Proof.
  intros Hsz. unfold malloc_asize, wmul, wadd, wrap, ALIGN, DSIZE, WSIZE.
  destruct (Z.leb_spec size (2 * 8)); div_mod_lia.
Qed.

(** X14.  An allocation served from a free list: when the search finds
    the free block [bp], linked between nodes that lie outside it, and
    the request does not overflow, [mm_malloc] returns [bp] with header
    and footer [PACK s 1], where [s] is the adjusted size (after a split)
    or the whole size of the block, and in either case the payload
    [s - DSIZE] is at least the requested size; the break does not move. *)
Theorem malloc_from_free_list
    (fuel : nat) (st : state) (size bp csize h' p n t : Z) :
  sane st -> 0 < size <= 2 ^ 64 - 32 ->
  find_fit fuel (malloc_asize size) st = Ok (bp, st) -> bp <> NULL ->
  block_at st bp csize ->
  p = peek st (bp + WSIZE) -> n = peek st bp ->
  node_ok st p -> node_ok st n ->
  outside bp csize p -> outside bp csize n ->
  h' = list_head (free_lists st)
         (find_explicit (csize - malloc_asize size)) ->
  node_ok st h' -> outside bp csize h' ->
  t = (if p =? h' then n else peek st h') ->
  node_ok st t -> outside bp csize t ->
  exists st' s,
    mm_malloc fuel size st = Ok (bp, st') /\
    peek st' (bp - WSIZE) = PACK s 1 /\
    peek st' (bp + s - DSIZE) = PACK s 1 /\
    (s = malloc_asize size \/ s = csize) /\
    size <= s - DSIZE /\ s <= csize /\
    same_frame st st'.
Proof.
  intros Hs Hsz Hfind Hbp Hb Ep En Hnp Hnn Hop Hon Eh Hnh Hoh Et Hnt Hot.
  destruct (malloc_asize_bounds size Hsz) as (Hm1 & Hm2 & Hm3).
  destruct (find_fit_result _ _ _ _ _ Hfind) as (_ & Hfit).
  destruct (Hfit Hbp) as [_ Hle].
  pose proof Hb as (Ha & Hbs & _). rewrite Hbs in Hle.
  destruct (block_at_bounds _ _ _ Hs Hb) as (B1 & B2 & B3 & B4 & B5).
  pose proof Hnp as (Hap & _). pose proof Hnn as (Han & _).
  assert (Hmm : mm_malloc fuel size st
                = (place bp (malloc_asize size) ;;; ret bp) st).
  { unfold mm_malloc.
    assert (Hz : (size =? 0) = false) by (apply Z.eqb_neq; lia).
    rewrite Hz, (bind_step _ _ _ _ _ Hfind).
    apply Z.eqb_neq in Hbp. rewrite Hbp. reflexivity. }
  rewrite Hmm.
  destruct (Z.le_gt_cases (malloc_asize size + 2 * DSIZE) csize)
    as [Hsplit | Hwhole].
  - destruct (place_splits_block_steps st bp (malloc_asize size) csize
                h' p n t) as (st' & Hp & H1 & H2 & Hf); try assumption.
    exists st', (malloc_asize size).
    rewrite (bind_step _ _ _ _ _ Hp).
    repeat split; try assumption; try apply Hf; auto;
      unfold DSIZE, WSIZE in *; lia.
  - eexists _, csize.
    rewrite (bind_step _ _ _ _ _
               (place_whole_eval st bp (malloc_asize size) csize p n
                  Hs Hb ltac:(unfold DSIZE, WSIZE in *; lia)
                  ltac:(unfold wsub, wrap, ALIGN, DSIZE, WSIZE in *;
                        rewrite Z.mod_small; lia)
                  Ep En Hnp Hnn Hop)).
    split; [reflexivity|].
    unfold outside in *.
    split; [peek_tac; reflexivity|].
    split; [peek_tac; reflexivity|].
    split; [right; reflexivity|].
    split; [unfold DSIZE, WSIZE in *; lia|].
    split; [lia | repeat split].
Qed.

Lemma malloc_from_free_list_witness :
  exists st' s,
    mm_malloc 3 16 st_init = Ok (first_bp, st') /\
    peek st' (first_bp - WSIZE) = PACK s 1 /\
    16 <= s - DSIZE.
Proof.
  destruct (malloc_from_free_list 3 st_init 16 first_bp 4096 (head0 9)
              (head0 9) (head0 9) (head0 9))
    as (st' & s & H1 & H2 & _ & _ & H3 & _).
  - exact sane_st_init.
  - lia.
  - vm_compute. reflexivity.
  - vm_compute. discriminate.
  - unfold block_at. repeat split; vm_compute; reflexivity.
  - vm_compute. reflexivity.
  - vm_compute. reflexivity.
  - unfold node_ok. repeat split; vm_compute; reflexivity.
  - unfold node_ok. repeat split; vm_compute; reflexivity.
  - left. vm_compute. discriminate.
  - left. vm_compute. discriminate.
  - vm_compute. reflexivity.
  - unfold node_ok. repeat split; vm_compute; reflexivity.
  - left. vm_compute. discriminate.
  - vm_compute. reflexivity.
  - unfold node_ok. repeat split; vm_compute; reflexivity.
  - left. vm_compute. discriminate.
  - exists st', s. auto.
Defined.

(** ** Freeing a block *)

(** With both neighbours allocated [coalesce] only links the block in. *)
Lemma coalesce_no_merge st bp size ps :
  sane st -> DSIZE <= ps -> 0 <= size -> bp + size < 2 ^ 64 ->
  valid st (bp - WSIZE) = true ->
  Z.land (peek st (bp - WSIZE)) (wnot (DSIZE - 1)) = size ->
  valid st (bp - DSIZE) = true ->
  Z.land (peek st (bp - DSIZE)) (wnot (DSIZE - 1)) = ps ->
  valid st (bp - ps - WSIZE) = true ->
  Z.land (peek st (bp - ps - WSIZE)) (wnot (DSIZE - 1)) = ps ->
  Z.land (peek st (bp - DSIZE)) 1 = 1 ->
  valid st (bp + size - WSIZE) = true ->
  Z.land (peek st (bp + size - WSIZE)) 1 = 1 ->
  coalesce bp st = (insertBlock bp ;;; ret bp) st.
Proof.
  intros Hs Hps Hsz Hlt Hvh Eh Hvpf Epf Hvph Eph Hpa Hvn Hna.
  destruct (valid_sane _ _ Hs Hvph) as [P1 P2].
  destruct (valid_sane _ _ Hs Hvh) as [P3 P4].
  assert (Ehd : HDRP bp = bp - WSIZE)
    by (apply HDRP_eq; unfold DSIZE, WSIZE in *; lia).
  unfold coalesce. rewrite Ehd.
  rewrite (bind_step _ _ _ _ _ (GET_SIZE_eval _ _ Hvh)), Eh.
  assert (Epb : PREV_BLKP bp st = Ok (bp - ps, st))
    by (apply PREV_BLKP_eval; try assumption;
        unfold DSIZE, WSIZE in *; lia).
  rewrite (bind_step _ _ _ _ _ Epb).
  assert (Epff : FTRP (bp - ps) st = Ok (bp - DSIZE, st)).
  { replace (bp - DSIZE) with (bp - ps + ps - DSIZE) by lia.
    apply FTRP_eval; try assumption; unfold DSIZE, WSIZE in *; lia. }
  rewrite (bind_step _ _ _ _ _ Epff).
  rewrite (bind_step _ _ _ _ _ (GET_ALLOC_eval _ _ Hvpf)), Hpa.
  assert (Enb : NEXT_BLKP bp st = Ok (bp + size, st))
    by (apply NEXT_BLKP_eval; try assumption;
        unfold DSIZE, WSIZE in *; lia).
  rewrite (bind_step _ _ _ _ _ Enb).
  assert (Ehn : HDRP (bp + size) = bp + size - WSIZE)
    by (apply HDRP_eq; unfold DSIZE, WSIZE in *; lia).
  rewrite Ehn.
  rewrite (bind_step _ _ _ _ _ (GET_ALLOC_eval _ _ Hvn)), Hna.
  reflexivity.
Qed.

(** The first steps of [mm_free]: both tags get the allocated bit
    cleared, then the block is handed to [coalesce]. *)
Lemma mm_free_steps st bp size :
  sane st -> block_at st bp size -> DSIZE <= size ->
  mm_free bp st
  = (_ <- coalesce bp ;; ret tt)
      (upd (upd st (bp - WSIZE) (PACK size 0))
         (bp + size - DSIZE) (PACK size 0)).
Proof.
  intros Hs Hb Hmin.
  destruct (block_at_bounds _ _ _ Hs Hb) as (B1 & B2 & B3 & B4 & B5).
  destruct Hb as (Ha & Hsz & Hvh & Hvf & Hvn).
  assert (Ehd : HDRP bp = bp - WSIZE)
    by (apply HDRP_eq; unfold DSIZE, WSIZE in *; lia).
  unfold mm_free.
  assert (Hnz : (bp =? NULL) = false)
    by (apply Z.eqb_neq; unfold NULL, WSIZE in *; lia).
  rewrite Hnz, Ehd.
  rewrite (bind_step _ _ _ _ _ (GET_SIZE_eval _ _ Hvh)).
  unfold block_size in Hsz. rewrite Ehd in Hsz. rewrite Hsz.
  put_step Hvh.
  set (st1 := upd st (bp - WSIZE) (PACK size 0)).
  assert (Ef : FTRP bp st1 = Ok (bp + size - DSIZE, st1)).
  { apply FTRP_eval; try (unfold DSIZE, WSIZE in *; lia); [exact Hvh|].
    unfold st1. rewrite peek_upd_eq. apply size_of_PACK; auto. }
  rewrite (bind_step _ _ _ _ _ Ef). put_step Hvf. reflexivity.
Qed.

(** X15.  Freeing a block whose two physical neighbours are allocated:
    header and footer become [PACK size 0] with the size unchanged, the
    block becomes the first node of the list of its size class, the nodes
    that were on that list follow it in their old order, and no other
    word of the heap changes. *)
Theorem free_between_allocated
    (st : state) (bp size ps h : Z) (l : list Z) :
  sane st -> block_at st bp size -> 2 * DSIZE <= size ->
  block_at st (bp - ps) ps -> DSIZE <= ps ->
  Z.land (peek st (bp - DSIZE)) (wnot (DSIZE - 1)) = ps ->
  Z.land (peek st (bp - DSIZE)) 1 = 1 ->
  Z.land (peek st (bp + size - WSIZE)) 1 = 1 ->
  h = list_head (free_lists st) (find_explicit size) ->
  dlist st h l ->
  (forall x, In x (h :: l) -> outside bp size x) ->
  exists st',
    mm_free bp st = Ok (tt, st') /\
    peek st' (bp - WSIZE) = PACK size 0 /\
    peek st' (bp + size - DSIZE) = PACK size 0 /\
    dlist st' h (bp :: l) /\
    same_frame st st' /\
    (forall a, a <> bp - WSIZE -> a <> bp + size - DSIZE ->
               a <> h -> a <> hd h l + WSIZE -> a <> bp ->
               a <> bp + WSIZE -> peek st' a = peek st a).
Proof.
  intros Hs Hb Hmin Hpb Hps Epf Hpa Hna Eh Hd Hout.
  rewrite (mm_free_steps st bp size Hs Hb) by (unfold DSIZE, WSIZE in *; lia).
  destruct (block_at_bounds _ _ _ Hs Hb) as (B1 & B2 & B3 & B4 & B5).
  pose proof Hb as (Ha & Hsz & Hvh & Hvf & Hvn).
  destruct Hpb as (_ & Hpsz & Hvph & Hvpf & _).
  assert (Ehp : HDRP (bp - ps) = bp - ps - WSIZE).
  { destruct (valid_sane _ _ Hs Hvph) as [P1 P2].
    apply HDRP_eq. unfold DSIZE, WSIZE in *; lia. }
  unfold block_size in Hpsz. rewrite Ehp in Hpsz.
  replace (bp - ps + ps - DSIZE) with (bp - DSIZE) in Hvpf by lia.
  set (st2 := upd (upd st (bp - WSIZE) (PACK size 0))
                (bp + size - DSIZE) (PACK size 0)).
  assert (Hs2 : sane st2) by exact Hs.
  assert (Ehd : HDRP bp = bp - WSIZE)
    by (apply HDRP_eq; unfold DSIZE, WSIZE in *; lia).
  assert (Hh2 : peek st2 (bp - WSIZE) = PACK size 0)
    by (unfold st2; peek_tac; reflexivity).
  assert (Hco : coalesce bp st2 = (insertBlock bp ;;; ret bp) st2).
  { apply (coalesce_no_merge st2 bp size ps); try assumption;
      try (unfold DSIZE, WSIZE in *; lia).
    - rewrite Hh2. apply size_of_PACK; auto.
    - unfold st2. peek_tac. exact Epf.
    - unfold st2. peek_tac. exact Hpsz.
    - unfold st2. peek_tac. exact Hpa.
    - unfold st2. peek_tac. exact Hna. }
  assert (Hbs2 : block_size st2 bp = size).
  { unfold block_size. rewrite Ehd, Hh2. apply size_of_PACK; auto. }
  assert (Hd2 : dlist st2 h l).
  { unfold st2. apply dlist_upd; [apply dlist_upd; [exact Hd|]|];
      intros x Hx; specialize (Hout x Hx);
      destruct (dlist_parts _ _ _ Hd) as (_ & _ & _ & _ & _);
      unfold outside, DSIZE, WSIZE in *; lia. }
  assert (Hnb : node_ok st2 bp).
  { split; [exact Ha|]. split.
    - apply (valid_between st (bp - WSIZE) (bp + size - DSIZE));
        try assumption; unfold DSIZE, WSIZE in *; div_mod_lia.
    - apply (valid_between st (bp - WSIZE) (bp + size - DSIZE));
        try assumption; unfold DSIZE, WSIZE in *; div_mod_lia. }
  assert (Hfresh : ~ In bp (h :: l)).
  { intros Hin. specialize (Hout bp Hin).
    unfold outside, DSIZE, WSIZE in *; lia. }
  destruct (insertBlock_dlist st2 bp h l) as (st' & Hi & Hd' & Hfr & Hpk).
  - exact Hs2.
  - rewrite Ehd. exact Hvh.
  - rewrite Hbs2. exact Eh.
  - exact Hd2.
  - exact Hnb.
  - exact Hfresh.
  - exists st'.
    assert (Hco2 : coalesce bp st2 = Ok (bp, st'))
      by (rewrite Hco, (bind_step _ _ _ _ _ Hi); reflexivity).
    rewrite (bind_step _ _ _ _ _ Hco2). unfold ret.
    assert (Oh : outside bp size h) by (apply Hout; left; reflexivity).
    assert (Ot : outside bp size (hd h l)).
    { apply Hout. destruct (hd_in h l) as [-> | Hin];
        [left; reflexivity | right; exact Hin]. }
    split; [reflexivity|].
    split.
    { rewrite Hpk, Hh2; [reflexivity| | | |];
        unfold outside, DSIZE, WSIZE in *; lia. }
    split.
    { rewrite Hpk; [unfold st2; peek_tac; reflexivity| | | |];
        unfold outside, DSIZE, WSIZE in *; lia. }
    split; [exact Hd'|].
    split; [exact Hfr|].
    intros a A1 A2 A3 A4 A5 A6.
    rewrite Hpk by assumption. unfold st2. peek_tac. reflexivity.
Qed.

Lemma free_between_allocated_witness :
  exists st',
    mm_free first_bp st_one_free = Ok (tt, st') /\
    peek st' (first_bp - WSIZE) = PACK 176 0 /\
    dlist st' (head0 2) [first_bp; first_bp + 208].
Proof.
  destruct (free_between_allocated st_one_free first_bp 176 16 (head0 2)
              [first_bp + 208]) as (st' & H1 & H2 & _ & H3 & _).
  - exact sane_st_one_free.
  - unfold block_at. repeat split; vm_compute; reflexivity.
  - vm_compute. discriminate.
  - unfold block_at. repeat split; vm_compute; reflexivity.
  - vm_compute. discriminate.
  - vm_compute. reflexivity.
  - vm_compute. reflexivity.
  - vm_compute. reflexivity.
  - vm_compute. reflexivity.
  - apply check_dlist_sound. vm_compute. reflexivity.
  - intros x [<- | [<- | []]].
    + left. vm_compute. discriminate.
    + right. vm_compute. discriminate.
  - exists st'. auto.
Defined.

(** What [coalesce] writes when only the next block is free. *)
Lemma coalesce_merge_next_eval st bp size ps ns h' p n t :
  sane st -> bp mod DSIZE = 0 -> 2 * DSIZE <= size ->
  valid st (bp - WSIZE) = true ->
  Z.land (peek st (bp - WSIZE)) (wnot (DSIZE - 1)) = size ->
  DSIZE <= ps ->
  valid st (bp - DSIZE) = true ->
  Z.land (peek st (bp - DSIZE)) (wnot (DSIZE - 1)) = ps ->
  valid st (bp - ps - WSIZE) = true ->
  Z.land (peek st (bp - ps - WSIZE)) (wnot (DSIZE - 1)) = ps ->
  Z.land (peek st (bp - DSIZE)) 1 = 1 ->
  block_at st (bp + size) ns -> 2 * DSIZE <= ns ->
  Z.land (peek st (bp + size - WSIZE)) 1 = 0 ->
  p = peek st (bp + size + WSIZE) -> n = peek st (bp + size) ->
  node_ok st p -> node_ok st n ->
  outside bp (size + ns) p -> outside bp (size + ns) n ->
  h' = list_head (free_lists st) (find_explicit (size + ns)) ->
  node_ok st h' -> outside bp (size + ns) h' ->
  t = (if p =? h' then n else peek st h') ->
  node_ok st t -> outside bp (size + ns) t ->
  coalesce bp st
  = Ok (bp,
        upd (upd (upd (upd
          (upd (upd (upd (upd st
             p n)
             (n + WSIZE) p)
             (bp - WSIZE) (PACK (size + ns) 0))
             (bp + size + ns - DSIZE) (PACK (size + ns) 0))
          h' bp)
          (t + WSIZE) bp)
          (bp + WSIZE) h')
          bp t).
Proof.
  intros Hs Ha Hmin Hvh Eh Hps Hvpf Epf Hvph Eph Hpa Hnb Hnmin Hna
    Ep En Hnp Hnn Hop Hon Ehh Hnh Hoh Et Hnt Hot.
  destruct (valid_sane _ _ Hs Hvph) as [P1 P2].
  destruct (valid_sane _ _ Hs Hvh) as [P3 P4].
  destruct (block_at_bounds _ _ _ Hs Hnb) as (B1 & B2 & B3 & B4 & B5).
  destruct Hnb as (Han & Hnsz & Hvnh & Hvnf & Hvnn).
  pose proof Hnp as (Hap & _). pose proof Hnn as (Hann & _).
  pose proof Hnh as (Hah & _). pose proof Hnt as (Hat & _).
  assert (Ehd : HDRP bp = bp - WSIZE)
    by (apply HDRP_eq; unfold DSIZE, WSIZE in *; lia).
  assert (Ehn : HDRP (bp + size) = bp + size - WSIZE)
    by (apply HDRP_eq; unfold DSIZE, WSIZE in *; lia).
  unfold block_size in Hnsz. rewrite Ehn in Hnsz.
  assert (Hszm : size mod DSIZE = 0)
    by (unfold DSIZE, WSIZE in *; div_mod_lia).
  assert (Hbetween : forall c, bp - WSIZE <= c <= bp + size + ns - DSIZE ->
                       c mod WSIZE = 0 -> valid st c = true).
  { intros c Hc Hm. exact (valid_between _ _ _ _ Hvh Hvnf Hc Hm). }
  assert (Hvb : valid st bp = true)
    by (apply Hbetween; unfold DSIZE, WSIZE in *; div_mod_lia).
  assert (Hvb8 : valid st (bp + WSIZE) = true)
    by (apply Hbetween; unfold DSIZE, WSIZE in *; div_mod_lia).
  assert (Hvx : valid st (bp + size) = true)
    by (apply Hbetween; unfold DSIZE, WSIZE in *; div_mod_lia).
  assert (Hvx8 : valid st (bp + size + WSIZE) = true)
    by (apply Hbetween; unfold DSIZE, WSIZE in *; div_mod_lia).
  unfold coalesce. rewrite Ehd.
  rewrite (bind_step _ _ _ _ _ (GET_SIZE_eval _ _ Hvh)), Eh.
  assert (Epb : PREV_BLKP bp st = Ok (bp - ps, st))
    by (apply PREV_BLKP_eval; try assumption;
        unfold DSIZE, WSIZE in *; lia).
  rewrite (bind_step _ _ _ _ _ Epb).
  assert (Epff : FTRP (bp - ps) st = Ok (bp - DSIZE, st)).
  { replace (bp - DSIZE) with (bp - ps + ps - DSIZE) by lia.
    apply FTRP_eval; try assumption; unfold DSIZE, WSIZE in *; lia. }
  rewrite (bind_step _ _ _ _ _ Epff).
  rewrite (bind_step _ _ _ _ _ (GET_ALLOC_eval _ _ Hvpf)), Hpa.
  assert (Enb : NEXT_BLKP bp st = Ok (bp + size, st))
    by (apply NEXT_BLKP_eval; try assumption;
        unfold DSIZE, WSIZE in *; lia).
  rewrite (bind_step _ _ _ _ _ Enb), Ehn.
  rewrite (bind_step _ _ _ _ _ (GET_ALLOC_eval _ _ Hvnh)), Hna.
  cbn [Z.eqb negb andb].
  rewrite (bind_step _ _ _ _ _ Enb).
  assert (Hdel : deleteBlock (bp + size) st
                 = Ok (tt, upd (upd st p n) (n + WSIZE) p)).
  { rewrite (deleteBlock_eval st (bp + size)); rewrite <- ?Ep, <- ?En;
      try assumption.
    - reflexivity.
    - split; [exact Han | split; [exact Hvx | exact Hvx8]].
    - unfold outside, DSIZE, WSIZE in *. lia. }
  rewrite (bind_step _ _ _ _ _ Hdel).
  set (st4 := upd (upd st p n) (n + WSIZE) p).
  assert (Enb4 : NEXT_BLKP bp st4 = Ok (bp + size, st4)).
  { apply NEXT_BLKP_eval; try (unfold DSIZE, WSIZE in *; lia); [exact Hvh|].
    unfold st4. unfold outside in *. peek_tac. exact Eh. }
  rewrite (bind_step _ _ _ _ _ Enb4), Ehn.
  rewrite (bind_step _ _ _ _ _ (GET_SIZE_eval st4 _ Hvnh)).
  assert (Ens4 : Z.land (peek st4 (bp + size - WSIZE)) (wnot (DSIZE - 1))
                 = ns).
  { unfold st4. unfold outside in *. peek_tac. exact Hnsz. }
  rewrite Ens4.
  assert (Esum : wadd size ns = size + ns).
  { unfold wadd, wrap. apply Z.mod_small. unfold DSIZE, WSIZE in *. lia. }
  rewrite Esum. put_step Hvh.
  set (st5 := upd st4 (bp - WSIZE) (PACK (size + ns) 0)).
  assert (Hpk : Z.land (PACK (size + ns) 0) (wnot (DSIZE - 1)) = size + ns).
  { apply size_of_PACK; auto; unfold DSIZE, WSIZE in *; div_mod_lia. }
  assert (Ef5 : FTRP bp st5 = Ok (bp + size + ns - DSIZE, st5)).
  { replace (bp + size + ns - DSIZE) with (bp + (size + ns) - DSIZE) by lia.
    apply FTRP_eval; try (unfold DSIZE, WSIZE in *; lia); [exact Hvh|].
    unfold st5. rewrite peek_upd_eq. exact Hpk. }
  rewrite (bind_step _ _ _ _ _ Ef5). put_step Hvnf.
  set (st6 := upd st5 (bp + size + ns - DSIZE) (PACK (size + ns) 0)).
  assert (Ebs : block_size st6 bp = size + ns).
  { unfold block_size. rewrite Ehd. unfold st6, st5. peek_tac. exact Hpk. }
  assert (Et6 : peek st6 h' = t).
  { unfold st6, st5, st4. unfold outside in *.
    destruct (Z.eqb_spec p h') as [E | E].
    - rewrite <- E. peek_tac. symmetry. exact Et.
    - peek_tac. symmetry. exact Et. }
  assert (Hs6 : sane st6) by exact Hs.
  assert (Hins : insertBlock bp st6
                 = Ok (tt, upd (upd (upd (upd st6 h' bp) (t + WSIZE) bp)
                                  (bp + WSIZE) h') bp t)).
  { rewrite (insertBlock_eval st6 bp h'); rewrite ?Et6; try assumption.
    - reflexivity.
    - rewrite Ehd. exact Hvh.
    - rewrite Ebs. exact Ehh.
    - split; [exact Ha | split; [exact Hvb | exact Hvb8]]. }
  rewrite (bind_step _ _ _ _ _ Hins). reflexivity.
Qed.

Lemma block_at_upd st bp csize a v :
  block_at st bp csize -> HDRP bp <> a -> block_at (upd st a v) bp csize.
Proof.
  intros (Ha & Hsz & Hv) Hne. split; [exact Ha|]. split; [|exact Hv].
  unfold block_size. rewrite peek_upd_ne by exact Hne. exact Hsz.
Qed.

(** X16.  Freeing a block whose predecessor is allocated and whose
    successor is free merges the two: the successor leaves its list, the
    header of the freed block and the footer of the successor both become
    [PACK (size + ns) 0], the sum of the two sizes, and the merged block
    is linked in right behind the sentinel [h'] of the class of that sum.
    The successor is unlinked: the [next] link of its predecessor [p]
    ends as its successor [n] and the [prev] link of [n] ends as [p],
    except where the merged block has taken the place ([p] is that
    sentinel, or [n] was the first node behind it). *)
Theorem free_merges_with_next
    (st : state) (bp size ps ns h' p n t : Z) :
  sane st -> block_at st bp size -> 2 * DSIZE <= size ->
  block_at st (bp - ps) ps -> DSIZE <= ps ->
  Z.land (peek st (bp - DSIZE)) (wnot (DSIZE - 1)) = ps ->
  Z.land (peek st (bp - DSIZE)) 1 = 1 ->
  block_at st (bp + size) ns -> 2 * DSIZE <= ns ->
  Z.land (peek st (bp + size - WSIZE)) 1 = 0 ->
  p = peek st (bp + size + WSIZE) -> n = peek st (bp + size) ->
  node_ok st p -> node_ok st n ->
  outside bp (size + ns) p -> outside bp (size + ns) n ->
  h' = list_head (free_lists st) (find_explicit (size + ns)) ->
  node_ok st h' -> outside bp (size + ns) h' ->
  t = (if p =? h' then n else peek st h') ->
  node_ok st t -> outside bp (size + ns) t ->
  exists st',
    mm_free bp st = Ok (tt, st') /\
    peek st' (bp - WSIZE) = PACK (size + ns) 0 /\
    peek st' (bp + size + ns - DSIZE) = PACK (size + ns) 0 /\
    peek st' h' = bp /\ peek st' (bp + WSIZE) = h' /\
    peek st' bp = t /\ peek st' (t + WSIZE) = bp /\
    same_frame st st' /\
    peek st' p = (if p =? h' then bp else n) /\
    peek st' (n + WSIZE) = (if n =? t then bp else p).
Proof.
  intros Hs Hb Hmin Hpb Hps Epf Hpa Hnb Hnmin Hna
    Ep En Hnp Hnn Hop Hon Ehh Hnh Hoh Et Hnt Hot.
  rewrite (mm_free_steps st bp size Hs Hb) by (unfold DSIZE, WSIZE in *; lia).
  destruct (block_at_bounds _ _ _ Hs Hb) as (B1 & B2 & B3 & B4 & B5).
  destruct (block_at_bounds _ _ _ Hs Hnb) as (N1 & N2 & N3 & N4 & N5).
  pose proof Hb as (Ha & Hsz & Hvh & Hvf & Hvn).
  destruct Hpb as (_ & Hpsz & Hvph & Hvpf & _).
  assert (Ehp : HDRP (bp - ps) = bp - ps - WSIZE).
  { destruct (valid_sane _ _ Hs Hvph) as [P1 P2].
    apply HDRP_eq. unfold DSIZE, WSIZE in *; lia. }
  unfold block_size in Hpsz. rewrite Ehp in Hpsz.
  replace (bp - ps + ps - DSIZE) with (bp - DSIZE) in Hvpf by lia.
  assert (Ehn : HDRP (bp + size) = bp + size - WSIZE)
    by (apply HDRP_eq; unfold DSIZE, WSIZE in *; lia).
  pose proof Hnp as (Hap & _). pose proof Hnn as (Hann & _).
  pose proof Hnh as (Hah & _). pose proof Hnt as (Hat & _).
  set (st2 := upd (upd st (bp - WSIZE) (PACK size 0))
                (bp + size - DSIZE) (PACK size 0)).
  assert (Hco : coalesce bp st2
                = Ok (bp,
                      upd (upd (upd (upd
                        (upd (upd (upd (upd st2
                           p n)
                           (n + WSIZE) p)
                           (bp - WSIZE) (PACK (size + ns) 0))
                           (bp + size + ns - DSIZE) (PACK (size + ns) 0))
                        h' bp)
                        (t + WSIZE) bp)
                        (bp + WSIZE) h')
                        bp t)).
  { apply (coalesce_merge_next_eval st2 bp size ps ns h' p n t);
      try assumption.
    - unfold st2. peek_tac. apply size_of_PACK; auto.
    - unfold st2. peek_tac. exact Epf.
    - unfold st2. peek_tac. exact Hpsz.
    - unfold st2. peek_tac. exact Hpa.
    - unfold st2. apply block_at_upd; [apply block_at_upd|];
        [exact Hnb | |]; rewrite Ehn; unfold DSIZE, WSIZE in *; lia.
    - unfold st2. peek_tac. exact Hna.
    - unfold st2. peek_tac. exact Ep.
    - unfold st2. peek_tac. exact En.
    - unfold st2. unfold outside in *.
      destruct (p =? h'); [exact Et | peek_tac; exact Et]. }
  rewrite (bind_step _ _ _ _ _ Hco). unfold ret.
  eexists. split; [reflexivity|].
  unfold outside in *. clear Hco.
  split; [peek_tac; reflexivity|].
  split; [peek_tac; reflexivity|].
  split; [peek_tac; reflexivity|].
  split; [peek_tac; reflexivity|].
  split; [peek_tac; reflexivity|].
  split; [peek_tac; reflexivity|].
  split; [repeat split|].
  split.
  - destruct (Z.eqb_spec p h') as [E | E].
    + rewrite E. peek_tac. reflexivity.
    + peek_tac. reflexivity.
  - destruct (Z.eqb_spec n t) as [E | E].
    + rewrite E. peek_tac. reflexivity.
    + peek_tac. reflexivity.
Qed.

Lemma sane_st_next_free : sane st_next_free.
Proof. vm_compute. repeat split; discriminate || reflexivity. Qed.

Lemma free_merges_with_next_witness :
  exists st',
    mm_free first_bp st_next_free = Ok (tt, st') /\
    peek st' (first_bp - WSIZE) = PACK 160 0 /\
    peek st' (head0 2) = first_bp /\
    peek st' (head0 1) = head0 1 /\
    peek st' (head0 1 + WSIZE) = head0 1.
Proof.
  destruct (free_merges_with_next st_next_free first_bp 32 16 128 (head0 2)
              (head0 1) (head0 1) (head0 2))
    as (st' & H1 & H2 & _ & H3 & _ & _ & _ & _ & H5 & H6).
  - exact sane_st_next_free.
  - unfold block_at. repeat split; vm_compute; reflexivity.
  - vm_compute. discriminate.
  - unfold block_at. repeat split; vm_compute; reflexivity.
  - vm_compute. discriminate.
  - vm_compute. reflexivity.
  - vm_compute. reflexivity.
  - unfold block_at. repeat split; vm_compute; reflexivity.
  - vm_compute. discriminate.
  - vm_compute. reflexivity.
  - vm_compute. reflexivity.
  - vm_compute. reflexivity.
  - unfold node_ok. repeat split; vm_compute; reflexivity.
  - unfold node_ok. repeat split; vm_compute; reflexivity.
  - left. vm_compute. discriminate.
  - left. vm_compute. discriminate.
  - vm_compute. reflexivity.
  - unfold node_ok. repeat split; vm_compute; reflexivity.
  - left. vm_compute. discriminate.
  - vm_compute. reflexivity.
  - unfold node_ok. repeat split; vm_compute; reflexivity.
  - left. vm_compute. discriminate.
  - assert (E : (head0 1 =? head0 2) = false) by reflexivity.
    rewrite E in H5, H6.
    exists st'. auto 10.
Defined.

(** ** Initialization *)

Lemma valid_intro st p :
  mem_heap st <= p -> p + WSIZE <= mem_brk st -> p mod WSIZE = 0 ->
  valid st p = true.
Proof.
  intros H1 H2 H3. unfold valid.
  apply Z.leb_le in H1, H2. apply Z.eqb_eq in H3.
  rewrite H1, H2, H3. reflexivity.
Qed.

Lemma list_head_small fl i :
  0 <= fl -> 0 <= i < NUM -> fl + 256 < 2 ^ 64 ->
  list_head fl i = fl + DSIZE * i.
Proof.
  intros Hfl Hi Hlt. unfold list_head, padd, wmul, wrap, NUM, DSIZE, WSIZE in *.
  rewrite (Z.mod_small (i * _)) by lia. rewrite Z.mod_small by lia. lia.
Qed.

(** The loop of [mm_init] makes every sentinel it visits point to itself
    and writes nothing else. *)
Lemma init_lists_spec n : forall i st,
  sane st -> 0 <= i -> i + Z.of_nat n <= NUM ->
  free_lists st mod WSIZE = 0 ->
  mem_heap st <= free_lists st -> free_lists st + 256 <= mem_brk st ->
  exists st',
    init_lists n i st = Ok (tt, st') /\ same_frame st st' /\
    (forall j, i <= j < i + Z.of_nat n ->
       peek st' (free_lists st + DSIZE * j) = free_lists st + DSIZE * j /\
       peek st' (free_lists st + DSIZE * j + WSIZE)
       = free_lists st + DSIZE * j) /\
    (forall a, a < free_lists st + DSIZE * i \/
               free_lists st + DSIZE * (i + Z.of_nat n) <= a ->
       peek st' a = peek st a).
Proof.
  induction n as [|n IH]; intros i st Hs Hi Hn Hal Hlo Hhi.
  - exists st. split; [reflexivity|]. split; [repeat split|].
    split; [intros j Hj; lia | reflexivity].
  - cbn [init_lists].
    assert (Hlt : (i <? NUM) = true) by (apply Z.ltb_lt; lia).
    rewrite Hlt. unfold get_free_lists. unfold bind at 1.
    pose proof Hs as (S1 & S2 & S3 & S4).
    rewrite list_head_small by (unfold NUM in *; lia).
    set (cur := free_lists st + DSIZE * i).
    assert (Hv1 : valid st cur = true).
    { apply valid_intro; unfold cur, NUM, DSIZE, WSIZE in *;
        [lia | lia | div_mod_lia]. }
    assert (Hv2 : valid st (cur + WSIZE) = true).
    { apply valid_intro; unfold cur, NUM, DSIZE, WSIZE in *;
        [lia | lia | div_mod_lia]. }
    unfold node_next, node_prev.
    rewrite (padd_valid _ _ Hs Hv1).
    put_step Hv1. put_step Hv2.
    set (st1 := upd (upd st cur cur) (cur + WSIZE) cur).
    destruct (IH (i + 1) st1) as (st' & Hrun & Hfr & Hin & Hout);
      try assumption; try lia.
    exists st'. split; [exact Hrun|].
    split.
    { destruct Hfr as (F1 & F2 & F3 & F4 & F5). repeat split; assumption. }
    change (free_lists st1) with (free_lists st) in Hin, Hout.
    split.
    + intros j Hj. destruct (Z.eq_dec j i) as [-> | Hne].
      * fold cur. rewrite !Hout by (unfold cur, DSIZE, WSIZE; lia).
        unfold st1. split; peek_tac; reflexivity.
      * apply Hin. lia.
    + intros a Ha. rewrite Hout by (unfold DSIZE, WSIZE in *; lia).
      unfold st1, cur. peek_tac. reflexivity.
Qed.

(** ** Growing the heap *)

Lemma heap_growth_aligned words : heap_growth words mod DSIZE = 0.
Proof.
  unfold heap_growth, wmul, wadd, wrap, DSIZE, WSIZE.
  destruct (Z.eqb_spec (words mod 2) 0) as [E | E]; cbn [negb];
    div_mod_lia.
Qed.

Lemma peek_with_brk st k a : peek (with_brk st k) a = peek st a.
Proof. reflexivity. Qed.

Lemma valid_with_brk st k p :
  0 <= k -> valid st p = true -> valid (with_brk st k) p = true.
Proof.
  intros Hk Hv. unfold valid in *. cbn [with_brk mem_heap mem_brk].
  apply andb_prop in Hv as [Hv H3]. apply andb_prop in Hv as [H1 H2].
  apply Z.leb_le in H2. rewrite H1, H3.
  assert (H : (p + WSIZE <=? mem_brk st + k) = true) by (apply Z.leb_le; lia).
  rewrite H. reflexivity.
Qed.

Lemma linked_with_brk st k l : forall x last,
  linked st x l last -> linked (with_brk st k) x l last.
Proof.
  induction l as [|y l IH]; intros x last H; [exact H|].
  destruct H as (H1 & H2 & H3). split; [exact H1|].
  split; [exact H2 | exact (IH _ _ H3)].
Qed.

Lemma dlist_with_brk st k h l :
  0 <= k -> dlist st h l -> dlist (with_brk st k) h l.
Proof.
  intros Hk (Hnd & Hok & Hl). split; [exact Hnd|]. split.
  - apply List.Forall_forall. intros x Hx.
    destruct (proj1 (List.Forall_forall _ _) Hok x Hx) as (A1 & A2 & A3).
    split; [exact A1|]. split; apply valid_with_brk; assumption.
  - apply linked_with_brk. exact Hl.
Qed.

(** [extend_heap] behind an allocated block: the new block starts at the
    old break, its header replaces the old epilogue header, and
    [coalesce] only links it in. *)
Lemma extend_heap_append st words size ps bp h l :
  sane st -> size = heap_growth words -> 2 * DSIZE <= size ->
  bp = mem_brk st -> bp mod DSIZE = 0 ->
  mem_brk st + size <= mem_max_addr st ->
  DSIZE <= ps -> valid st (bp - DSIZE) = true ->
  Z.land (peek st (bp - DSIZE)) (wnot (DSIZE - 1)) = ps ->
  Z.land (peek st (bp - DSIZE)) 1 = 1 ->
  valid st (bp - ps - WSIZE) = true ->
  Z.land (peek st (bp - ps - WSIZE)) (wnot (DSIZE - 1)) = ps ->
  h = list_head (free_lists st) (find_explicit size) ->
  dlist st h l ->
  (forall x, In x (h :: l) -> x + DSIZE <= bp - WSIZE) ->
  exists st',
    extend_heap words st = Ok (bp, st') /\
    same_frame (with_brk st size) st' /\
    peek st' (bp - WSIZE) = PACK size 0 /\
    peek st' (bp + size - DSIZE) = PACK size 0 /\
    peek st' (bp + size - WSIZE) = PACK 0 1 /\
    dlist st' h (bp :: l) /\
    (forall a, a <> bp - WSIZE -> a <> bp + size - DSIZE ->
               a <> bp + size - WSIZE ->
               a <> h -> a <> hd h l + WSIZE -> a <> bp ->
               a <> bp + WSIZE -> peek st' a = peek st a).
Proof.
  intros Hs Esz Hmin Ebp Hal Hroom Hps Hvpf Epf Hpa Hvph Eph Eh Hd Hbelow.
  pose proof Hs as (S1 & S2 & S3 & S4).
  pose proof (heap_growth_aligned words) as Hszm. rewrite <- Esz in Hszm.
  destruct (valid_sane _ _ Hs Hvph) as [P1 P2].
  assert (Hvpf' := Hvpf). unfold valid in Hvpf'.
  apply andb_prop in Hvpf' as [Hvpf' _].
  apply andb_prop in Hvpf' as [Q1 Q2]. apply Z.leb_le in Q1, Q2.
  unfold extend_heap. fold (heap_growth words). rewrite <- Esz.
  rewrite (bind_step _ _ _ _ _
             (mem_sbrk_granted size st ltac:(unfold DSIZE, WSIZE in *; lia)
                Hroom)).
  rewrite <- Ebp.
  assert (Hb1 : (bp =? wrap (-1)) = false).
  { apply Z.eqb_neq. change (wrap (-1)) with (2 ^ 64 - 1). lia. }
  rewrite Hb1.
  set (S0 := with_brk st size).
  assert (Hs0 : sane S0).
  { unfold S0, sane. cbn [with_brk mem_heap mem_brk mem_max_addr].
    unfold DSIZE, WSIZE in *. lia. }
  assert (Ehd : HDRP bp = bp - WSIZE)
    by (apply HDRP_eq; unfold DSIZE, WSIZE in *; lia).
  assert (Ehn : HDRP (bp + size) = bp + size - WSIZE)
    by (apply HDRP_eq; unfold DSIZE, WSIZE in *; lia).
  assert (Hin0 : forall c, bp - WSIZE <= c <= bp + size - WSIZE ->
                   c mod WSIZE = 0 -> valid S0 c = true).
  { intros c Hc Hm. apply valid_intro; unfold S0;
      cbn [with_brk mem_heap mem_brk]; unfold DSIZE, WSIZE in *;
      try lia; exact Hm. }
  assert (Hvh : valid S0 (bp - WSIZE) = true)
    by (apply Hin0; unfold DSIZE, WSIZE in *; div_mod_lia).
  assert (Hvf : valid S0 (bp + size - DSIZE) = true)
    by (apply Hin0; unfold DSIZE, WSIZE in *; div_mod_lia).
  assert (Hve : valid S0 (bp + size - WSIZE) = true)
    by (apply Hin0; unfold DSIZE, WSIZE in *; div_mod_lia).
  assert (Hvb : valid S0 bp = true)
    by (apply Hin0; unfold DSIZE, WSIZE in *; div_mod_lia).
  assert (Hvb8 : valid S0 (bp + WSIZE) = true)
    by (apply Hin0; unfold DSIZE, WSIZE in *; div_mod_lia).
  assert (Hpk : Z.land (PACK size 0) (wnot (DSIZE - 1)) = size).
  { apply size_of_PACK; auto. unfold DSIZE, WSIZE in *; lia. }
  rewrite Ehd. put_step Hvh.
  set (S1' := upd S0 (bp - WSIZE) (PACK size 0)).
  assert (Ef : FTRP bp S1' = Ok (bp + size - DSIZE, S1')).
  { apply FTRP_eval; try (unfold DSIZE, WSIZE in *; lia); [exact Hvh|].
    unfold S1'. rewrite peek_upd_eq. exact Hpk. }
  rewrite (bind_step _ _ _ _ _ Ef). put_step Hvf.
  set (S2' := upd S1' (bp + size - DSIZE) (PACK size 0)).
  assert (En : NEXT_BLKP bp S2' = Ok (bp + size, S2')).
  { apply NEXT_BLKP_eval; try (unfold DSIZE, WSIZE in *; lia); [exact Hvh|].
    unfold S2', S1'. peek_tac. exact Hpk. }
  rewrite (bind_step _ _ _ _ _ En), Ehn. put_step Hve.
  set (S3' := upd S2' (bp + size - WSIZE) (PACK 0 1)).
  assert (Hs3 : sane S3') by exact Hs0.
  assert (Hco : coalesce bp S3' = (insertBlock bp ;;; ret bp) S3').
  { apply (coalesce_no_merge S3' bp size ps); try assumption;
      try (unfold DSIZE, WSIZE in *; lia).
    - unfold S3', S2', S1'. peek_tac. exact Hpk.
    - apply (valid_with_brk st size); [unfold DSIZE, WSIZE in *; lia|].
      exact Hvpf.
    - unfold S3', S2', S1', S0. peek_tac. rewrite peek_with_brk. exact Epf.
    - apply (valid_with_brk st size); [unfold DSIZE, WSIZE in *; lia|].
      exact Hvph.
    - unfold S3', S2', S1', S0. peek_tac. rewrite peek_with_brk. exact Eph.
    - unfold S3', S2', S1', S0. peek_tac. rewrite peek_with_brk. exact Hpa.
    - unfold S3'. rewrite peek_upd_eq. reflexivity. }
  rewrite Hco.
  assert (Hbs : block_size S3' bp = size).
  { unfold block_size. rewrite Ehd. unfold S3', S2', S1'. peek_tac.
    exact Hpk. }
  assert (Hd3 : dlist S3' h l).
  { unfold S3', S2', S1'.
    repeat (apply dlist_upd;
            [|intros x Hx; specialize (Hbelow x Hx);
              unfold DSIZE, WSIZE in *; lia]).
    apply dlist_with_brk; [unfold DSIZE, WSIZE in *; lia | exact Hd]. }
  assert (Hfresh : ~ In bp (h :: l)).
  { intros Hx. specialize (Hbelow bp Hx). unfold DSIZE, WSIZE in *; lia. }
  destruct (insertBlock_dlist S3' bp h l) as (st' & Hi & Hd' & Hfr & Hpeek).
  - exact Hs3.
  - rewrite Ehd. exact Hvh.
  - rewrite Hbs. exact Eh.
  - exact Hd3.
  - split; [exact Hal | split; [exact Hvb | exact Hvb8]].
  - exact Hfresh.
  - exists st'. rewrite (bind_step _ _ _ _ _ Hi). unfold ret.
    assert (Oh : h + DSIZE <= bp - WSIZE) by (apply Hbelow; left; reflexivity).
    assert (Ot : hd h l + DSIZE <= bp - WSIZE).
    { apply Hbelow. destruct (hd_in h l) as [-> | Hin];
        [left; reflexivity | right; exact Hin]. }
    split; [reflexivity|].
    split; [exact Hfr|].
    split.
    { rewrite Hpeek by (unfold DSIZE, WSIZE in *; lia).
      unfold S3', S2', S1'. peek_tac. reflexivity. }
    split.
    { rewrite Hpeek by (unfold DSIZE, WSIZE in *; lia).
      unfold S3', S2', S1'. peek_tac. reflexivity. }
    split.
    { rewrite Hpeek by (unfold DSIZE, WSIZE in *; lia).
      unfold S3'. peek_tac. reflexivity. }
    split; [exact Hd'|].
    intros a A1 A2 A3 A4 A5 A6 A7.
    rewrite Hpeek by assumption.
    unfold S3', S2', S1', S0. peek_tac. reflexivity.
Qed.

(** X17.  [extend_heap] behind an allocated last block, when the region
    can grow: the block returned starts at the old break, its header
    (written over the old epilogue header) and footer hold
    [PACK size 0] for the even number of words asked for, a new epilogue
    header [PACK 0 1] ends the heap, the block becomes the first node of
    the list of its class, and no other word changes. *)
Theorem extend_heap_appends_block
    (st : state) (words size ps bp h : Z) (l : list Z) :
  sane st -> size = heap_growth words -> 2 * DSIZE <= size ->
  bp = mem_brk st -> bp mod DSIZE = 0 ->
  mem_brk st + size <= mem_max_addr st ->
  DSIZE <= ps -> valid st (bp - DSIZE) = true ->
  Z.land (peek st (bp - DSIZE)) (wnot (DSIZE - 1)) = ps ->
  Z.land (peek st (bp - DSIZE)) 1 = 1 ->
  valid st (bp - ps - WSIZE) = true ->
  Z.land (peek st (bp - ps - WSIZE)) (wnot (DSIZE - 1)) = ps ->
  h = list_head (free_lists st) (find_explicit size) ->
  dlist st h l ->
  (forall x, In x (h :: l) -> x + DSIZE <= bp - WSIZE) ->
  exists st',
    extend_heap words st = Ok (bp, st') /\
    same_frame (with_brk st size) st' /\
    peek st' (bp - WSIZE) = PACK size 0 /\
    peek st' (bp + size - DSIZE) = PACK size 0 /\
    peek st' (bp + size - WSIZE) = PACK 0 1 /\
    dlist st' h (bp :: l) /\
    (forall a, a <> bp - WSIZE -> a <> bp + size - DSIZE ->
               a <> bp + size - WSIZE ->
               a <> h -> a <> hd h l + WSIZE -> a <> bp ->
               a <> bp + WSIZE -> peek st' a = peek st a).
Proof. apply extend_heap_append. Qed.

Lemma sane_st_full : sane st_full.
Proof. vm_compute. repeat split; discriminate || reflexivity. Qed.

Lemma extend_heap_appends_block_witness :
  exists st',
    extend_heap 512 st_full = Ok (base0 + 4384, st') /\
    peek st' (base0 + 4384 - WSIZE) = PACK 4096 0 /\
    dlist st' (head0 9) [base0 + 4384].
Proof.
  destruct (extend_heap_appends_block st_full 512 4096 4096 (base0 + 4384)
              (head0 9) []) as (st' & H1 & _ & H2 & _ & _ & H3 & _).
  - exact sane_st_full.
  - reflexivity.
  - vm_compute. discriminate.
  - reflexivity.
  - reflexivity.
  - vm_compute. discriminate.
  - vm_compute. discriminate.
  - vm_compute. reflexivity.
  - vm_compute. reflexivity.
  - vm_compute. reflexivity.
  - vm_compute. reflexivity.
  - vm_compute. reflexivity.
  - vm_compute. reflexivity.
  - apply check_dlist_sound. vm_compute. reflexivity.
  - intros x [<- | []]. vm_compute. discriminate.
  - exists st'. auto.
Defined.

(** X2.  [extend_heap words] asks for [words] rounded up to an even
    number of words.  When the region cannot grow by that much it returns
    [NULL] and changes nothing.  When it can, the break is doubleword
    aligned, the last block is allocated and the list of the class of
    the new block is well formed below the break, it returns the old
    break, with the break up by exactly that number of bytes.  And any
    call that returns has returned [NULL] exactly in the first case, with
    the state unchanged, and otherwise has moved the break up by exactly
    that number of bytes, within the region, whose bounds are as before. *)
Theorem extend_heap_outcome (words : Z) (st : state) :
  sane st ->
  (mem_max_addr st < mem_brk st + heap_growth words ->
   extend_heap words st = Ok (NULL, st)) /\
  (forall ps h l,
     mem_brk st + heap_growth words <= mem_max_addr st ->
     2 * DSIZE <= heap_growth words -> mem_brk st mod DSIZE = 0 ->
     DSIZE <= ps -> valid st (mem_brk st - DSIZE) = true ->
     Z.land (peek st (mem_brk st - DSIZE)) (wnot (DSIZE - 1)) = ps ->
     Z.land (peek st (mem_brk st - DSIZE)) 1 = 1 ->
     valid st (mem_brk st - ps - WSIZE) = true ->
     Z.land (peek st (mem_brk st - ps - WSIZE)) (wnot (DSIZE - 1)) = ps ->
     h = list_head (free_lists st) (find_explicit (heap_growth words)) ->
     dlist st h l ->
     (forall x, In x (h :: l) -> x + DSIZE <= mem_brk st - WSIZE) ->
     exists st',
       extend_heap words st = Ok (mem_brk st, st') /\
       mem_brk st <> NULL /\
       mem_brk st' = mem_brk st + heap_growth words /\
       mem_heap st' = mem_heap st /\ mem_max_addr st' = mem_max_addr st) /\
  (forall r st', extend_heap words st = Ok (r, st') ->
     (r = NULL <-> mem_max_addr st < mem_brk st + heap_growth words) /\
     (r = NULL -> st' = st) /\
     (r <> NULL ->
      mem_brk st' = mem_brk st + heap_growth words /\
      mem_brk st' <= mem_max_addr st' /\
      mem_heap st' = mem_heap st /\ mem_max_addr st' = mem_max_addr st)) /\
  (0 <= words < 2 ^ 60 ->
   heap_growth words mod DSIZE = 0 /\
   WSIZE * words <= heap_growth words <= WSIZE * words + WSIZE).
Proof.
  intros Hs. split; [apply extend_heap_refused|]. split; [|split].
  - intros ps h l Hroom Hmin Hal Hps Hvpf Epf Hpa Hvph Eph Eh Hd Hbelow.
    destruct (extend_heap_append st words (heap_growth words) ps (mem_brk st)
                h l Hs eq_refl Hmin eq_refl Hal Hroom Hps Hvpf Epf Hpa Hvph
                Eph Eh Hd Hbelow)
      as (st' & Hrun & (F1 & F2 & F3 & _) & _).
    exists st'. split; [exact Hrun|].
    split; [destruct Hs as (S1 & S2 & _); unfold NULL; lia|].
    split; [exact F2|]. split; [exact F1 | exact F3].
  - intros r st' H.
    destruct (extend_heap_Ok _ _ _ _ Hs H)
      as [(-> & -> & Hlt) | (Hr & Hge & Hf)].
    + split; [tauto|]. split; [reflexivity|]. intros Hn. contradiction.
    + split; [split; [contradiction | lia]|].
      split; [contradiction|]. intros _.
      unfold same_frame in Hf. simpl in Hf. lia.
  - intros Hw. unfold heap_growth, wmul, wadd, wrap, DSIZE, WSIZE.
    destruct (Z.eqb_spec (words mod 2) 0); simpl; div_mod_lia.
Qed.

Lemma extend_heap_outcome_witness :
  sane st_alloc16 /\ sane st_full /\
  extend_heap 4000000 st_alloc16 = Ok (NULL, st_alloc16) /\
  (exists st',
     extend_heap 512 st_full = Ok (base0 + 4384, st') /\
     mem_brk st' = base0 + 4384 + 4096) /\
  heap_growth 513 = 4112.
Proof.
  destruct (extend_heap_outcome 4000000 st_alloc16 sane_st_alloc16)
    as (Hfail & _ & _).
  destruct (extend_heap_outcome 512 st_full sane_st_full)
    as (_ & Hgrant & _).
  split; [exact sane_st_alloc16|]. split; [exact sane_st_full|].
  split; [apply Hfail; vm_compute; reflexivity|].
  split; [|reflexivity].
  destruct (Hgrant 4096 (head0 9) []) as (st' & H1 & _ & H2 & _).
  - vm_compute. discriminate.
  - vm_compute. discriminate.
  - reflexivity.
  - vm_compute. discriminate.
  - vm_compute. reflexivity.
  - vm_compute. reflexivity.
  - vm_compute. reflexivity.
  - vm_compute. reflexivity.
  - vm_compute. reflexivity.
  - vm_compute. reflexivity.
  - apply check_dlist_sound. vm_compute. reflexivity.
  - intros x [<- | []]. vm_compute. discriminate.
  - exists st'. split; [exact H1 | exact H2].
Defined.

(** The condition on the heap is needed: with no word to add the region
    can always grow, but [extend_heap 0] reads the tags of a block of
    size 0 and leaves the heap. *)
Lemma extend_heap_zero_faults :
  mem_brk st_alloc16 + heap_growth 0 <= mem_max_addr st_alloc16 /\
  extend_heap 0 st_alloc16 = Fault.
Proof. split; [vm_compute; discriminate | vm_compute; reflexivity]. Qed.

(** ** The initial heap *)

Lemma peek_ins_eq h b m c hl fl p v :
  peek (mkState h b m (<[p := v]> c) hl fl) p = v.
Proof. exact (peek_upd_eq (mkState h b m c hl fl) p v). Qed.

Lemma peek_ins_ne h b m c hl fl p v q :
  q <> p ->
  peek (mkState h b m (<[p := v]> c) hl fl) q = peek (mkState h b m c hl fl) q.
Proof. exact (peek_upd_ne (mkState h b m c hl fl) p v q). Qed.

Ltac step_refl :=
  match goal with
  | |- context [bind ?m ?k ?s] =>
      let r := eval hnf in (m s) in
      match r with
      | Ok (?a, ?s1) => rewrite (bind_step m k s a s1 eq_refl)
      end
  end.

Ltac frame_simpl :=
  cbn [mem_heap mem_brk mem_max_addr cells heap_listp free_lists
       with_brk upd] in *.

Ltac put_auto :=
  match goal with
  | |- context [bind (PUT ?p ?v) ?k ?s] =>
      let H := fresh "Hv" in
      assert (H : valid s p = true)
        by (apply valid_intro; frame_simpl; unfold DSIZE, WSIZE in *;
            [lia | lia | div_mod_lia]);
      rewrite (bind_step (PUT p v) k s tt (upd s p v) (PUT_eval s p v H));
      clear H; frame_simpl
  end.

Ltac peek_ins :=
  repeat first [rewrite peek_ins_eq
               | rewrite peek_ins_ne by (unfold DSIZE, WSIZE in *; lia)].

(** The first part of [mm_init], up to the second call of [mem_sbrk]:
    the sixteen sentinels point to themselves. *)
Lemma mm_init_sentinels (st : state) (b : Z) :
  sane st -> b = mem_brk st -> b mod DSIZE = 0 ->
  b + 256 <= mem_max_addr st ->
  exists c2,
    (forall j, 0 <= j < NUM ->
       default 0 (c2 !! (b + DSIZE * j)) = b + DSIZE * j /\
       default 0 (c2 !! (b + DSIZE * j + WSIZE)) = b + DSIZE * j) /\
    (forall a, a < b \/ b + 256 <= a ->
       default 0 (c2 !! a) = peek st a) /\
    mm_init st
    = (hp <- mem_sbrk 32 ;;
       set_heap_listp hp ;;;
       if hp =? 2 ^ 64 - 1 then ret (-1)
       else
         PUT hp 0 ;;;
         PUT (padd hp 8) (PACK DSIZE 1) ;;;
         PUT (padd hp 16) (PACK DSIZE 1) ;;;
         PUT (padd hp 24) (PACK 0 1) ;;;
         set_heap_listp (padd hp 16) ;;;
         bp <- extend_heap 512 ;;
         if bp =? NULL then ret (-1) else ret 0)
        (mkState (mem_heap st) (b + 256) (mem_max_addr st) c2
           (heap_listp st) b).
Proof.
  intros Hs Eb Hal Hroom.
  pose proof Hs as (S1 & S2 & S3 & S4).
  unfold mm_init.
  change (wmul NUM DSIZE) with 256.
  change (wmul 4 WSIZE) with 32.
  change (wmul 1 WSIZE) with 8.
  change (wmul 2 WSIZE) with 16.
  change (wmul 3 WSIZE) with 24.
  change (CHUNKSIZE / WSIZE) with 512.
  change (wrap (-1)) with (2 ^ 64 - 1).
  change (Z.to_nat NUM) with 16%nat.
  rewrite (bind_step _ _ _ _ _ (mem_sbrk_granted 256 st ltac:(lia) ltac:(lia))).
  rewrite <- Eb.
  assert (Hb1 : (b =? 2 ^ 64 - 1) = false) by (apply Z.eqb_neq; lia).
  rewrite Hb1.
  step_refl. frame_simpl. rewrite <- Eb.
  set (s1 := mkState (mem_heap st) (b + 256) (mem_max_addr st) (cells st)
               (heap_listp st) b).
  destruct (init_lists_spec 16 0 s1) as (st2 & Hrun & Hfr & Hin & Hout);
    try (unfold s1, sane, NUM, DSIZE, WSIZE in *; frame_simpl; lia).
  { unfold s1, sane, NUM, DSIZE, WSIZE in *; frame_simpl.
    clear - Hal. div_mod_lia. }
  rewrite (bind_step _ _ _ _ _ Hrun).
  destruct st2 as [h2 b2 m2 c2 hl2 fl2].
  destruct Hfr as (F1 & F2 & F3 & F4 & F5). unfold s1 in *.
  frame_simpl. subst h2 b2 m2 hl2 fl2. clear s1 Hrun.
  unfold peek in Hin, Hout. frame_simpl.
  exists c2.
  split; [intros j Hj; apply Hin; unfold NUM in *; lia|].
  split; [intros a Ha; apply Hout; unfold DSIZE, WSIZE; lia|].
  reflexivity.
Qed.

(** The part of [mm_init] before the call of [extend_heap]: the prologue
    and the epilogue header are in place as well. *)
Lemma mm_init_prefix (st : state) (b : Z) :
  sane st -> b = mem_brk st -> b mod DSIZE = 0 ->
  b + 288 <= mem_max_addr st ->
  exists c2,
    (forall j, 0 <= j < NUM ->
       default 0 (c2 !! (b + DSIZE * j)) = b + DSIZE * j /\
       default 0 (c2 !! (b + DSIZE * j + WSIZE)) = b + DSIZE * j) /\
    (forall a, a < b \/ b + 256 <= a ->
       default 0 (c2 !! a) = peek st a) /\
    mm_init st
    = (bp <- extend_heap 512 ;; if bp =? NULL then ret (-1) else ret 0)
        (mkState (mem_heap st) (b + 288) (mem_max_addr st)
           (<[b + 280 := 1]>
              (<[b + 272 := 17]> (<[b + 264 := 17]> (<[b + 256 := 0]> c2))))
           (b + 272) b).
Proof.
  intros Hs Eb Hal Hroom.
  pose proof Hs as (S1 & S2 & S3 & S4).
  destruct (mm_init_sentinels st b Hs Eb Hal ltac:(lia))
    as (c2 & Hin & Hout & ->).
  exists c2. split; [exact Hin|]. split; [exact Hout|].
  match goal with
  | |- context [bind (mem_sbrk 32) ?k ?s] =>
      rewrite (bind_step (mem_sbrk 32) k s _ _
                 (mem_sbrk_granted 32 s ltac:(lia) ltac:(frame_simpl; lia)))
  end.
  step_refl. frame_simpl.
  assert (Hb2 : (b + 256 =? 2 ^ 64 - 1) = false) by (apply Z.eqb_neq; lia).
  rewrite Hb2.
  rewrite !padd_small by lia.
  put_auto. put_auto. put_auto. put_auto. step_refl. frame_simpl.
  change (PACK DSIZE 1) with 17. change (PACK 0 1) with 1.
  replace (b + 256 + 32) with (b + 288) by lia.
  replace (b + 256 + 24) with (b + 280) by lia.
  replace (b + 256 + 16) with (b + 272) by lia.
  replace (b + 256 + 8) with (b + 264) by lia.
  reflexivity.
Qed.

(** X18.  [mm_init] on a region with room for [4384] bytes above a
    doubleword-aligned break [b] returns [0] and lays the heap out as
    follows: sixteen list sentinels from [b]; the prologue header and
    footer [PACK DSIZE 1] at [b + 264] and [b + 272]; one free block of
    [CHUNKSIZE] bytes at [b + 288], which is the only node of list 9,
    every other list being empty; the epilogue header [PACK 0 1] at
    [b + 4376], the last word below the new break; and no word outside
    [b, b + 4384) changes. *)
Theorem mm_init_layout (st : state) (b : Z) :
  sane st -> b = mem_brk st -> b mod DSIZE = 0 ->
  b + 4384 <= mem_max_addr st ->
  exists st',
    mm_init st = Ok (0, st') /\
    mem_heap st' = mem_heap st /\ mem_max_addr st' = mem_max_addr st /\
    mem_brk st' = b + 4384 /\
    free_lists st' = b /\ heap_listp st' = b + 272 /\
    peek st' (b + 264) = PACK DSIZE 1 /\
    peek st' (b + 272) = PACK DSIZE 1 /\
    peek st' (b + 280) = PACK CHUNKSIZE 0 /\
    peek st' (b + 4368) = PACK CHUNKSIZE 0 /\
    peek st' (b + 4376) = PACK 0 1 /\
    (forall i, 0 <= i < NUM ->
       dlist st' (b + DSIZE * i) (if i =? 9 then [b + 288] else [])) /\
    (forall a, a < b \/ b + 4384 <= a -> peek st' a = peek st a).
Proof.
  intros Hs Eb Hal Hroom.
  pose proof Hs as (S1 & S2 & S3 & S4).
  destruct (mm_init_prefix st b Hs Eb Hal ltac:(lia)) as (c2 & Hin & Hout & ->).
  set (S := mkState (mem_heap st) (b + 288) (mem_max_addr st)
              (<[b + 280 := 1]>
                 (<[b + 272 := 17]> (<[b + 264 := 17]> (<[b + 256 := 0]> c2))))
              (b + 272) b).
  assert (HS : forall a, a <> b + 280 -> a <> b + 272 -> a <> b + 264 ->
                 a <> b + 256 -> peek S a = default 0 (c2 !! a)).
  { intros a A1 A2 A3 A4. unfold S. peek_ins. reflexivity. }
  assert (Hsent : forall j, 0 <= j < NUM ->
            peek S (b + DSIZE * j) = b + DSIZE * j /\
            peek S (b + DSIZE * j + WSIZE) = b + DSIZE * j).
  { intros j Hj. destruct (Hin j Hj) as [E1 E2].
    rewrite !HS by (unfold NUM, DSIZE, WSIZE in *; lia). auto. }
  assert (HvS : forall a, mem_heap st <= a -> a + WSIZE <= b + 288 ->
                  a mod WSIZE = 0 -> valid S a = true).
  { intros a A1 A2 A3. apply valid_intro; assumption. }
  assert (Hnode : forall j, 0 <= j < NUM -> node_ok S (b + DSIZE * j)).
  { intros j Hj. split; [|split; apply HvS];
      unfold NUM, DSIZE, WSIZE in *; try lia; div_mod_lia. }
  destruct (extend_heap_append S 512 4096 16 (b + 288) (b + DSIZE * 9) [])
    as (st' & Hrun & Hfr & T1 & T2 & T3 & Hd & Hpeek).
  - unfold sane, S. cbn [mem_heap mem_brk mem_max_addr]. lia.
  - reflexivity.
  - unfold DSIZE, WSIZE. lia.
  - reflexivity.
  - unfold DSIZE, WSIZE in *. div_mod_lia.
  - unfold S. cbn [mem_brk mem_max_addr]. lia.
  - unfold DSIZE, WSIZE. lia.
  - apply HvS; unfold DSIZE, WSIZE in *; try lia; div_mod_lia.
  - replace (b + 288 - DSIZE) with (b + 272) by (unfold DSIZE, WSIZE; lia).
    unfold S. peek_ins. reflexivity.
  - replace (b + 288 - DSIZE) with (b + 272) by (unfold DSIZE, WSIZE; lia).
    unfold S. peek_ins. reflexivity.
  - apply HvS; unfold DSIZE, WSIZE in *; try lia; div_mod_lia.
  - replace (b + 288 - 16 - WSIZE) with (b + 264) by (unfold WSIZE; lia).
    unfold S. peek_ins. reflexivity.
  - change (find_explicit 4096) with 9. unfold S. cbn [free_lists].
    symmetry. apply list_head_small; unfold NUM; lia.
  - apply dlist_build.
    + intros [].
    + constructor.
    + apply Hnode. unfold NUM. lia.
    + intros z [].
    + apply Hsent. unfold NUM. lia.
  - intros x [<- | []]. unfold DSIZE, WSIZE. lia.
  - destruct Hfr as (F1 & F2 & F3 & F4 & F5).
    unfold S in F1, F2, F3, F4, F5. frame_simpl.
    exists st'. rewrite (bind_step _ _ _ _ _ Hrun).
    assert (Hnz : (b + 288 =? NULL) = false)
      by (apply Z.eqb_neq; unfold NULL; lia).
    rewrite Hnz.
    split; [reflexivity|].
    split; [exact F1|]. split; [exact F3|].
    split; [rewrite F2; lia|].
    split; [exact F5|]. split; [exact F4|].
    cbn [hd] in Hpeek.
    split.
    { rewrite Hpeek by (unfold DSIZE, WSIZE; lia).
      unfold S. peek_ins. reflexivity. }
    split.
    { rewrite Hpeek by (unfold DSIZE, WSIZE; lia).
      unfold S. peek_ins. reflexivity. }
    split.
    { replace (b + 280) with (b + 288 - WSIZE) by (unfold WSIZE; lia).
      exact T1. }
    split.
    { replace (b + 4368) with (b + 288 + 4096 - DSIZE)
        by (unfold DSIZE, WSIZE; lia).
      exact T2. }
    split.
    { replace (b + 4376) with (b + 288 + 4096 - WSIZE)
        by (unfold WSIZE; lia).
      exact T3. }
    split.
    + intros i Hi. destruct (Z.eqb_spec i 9) as [-> | Hne]; [exact Hd|].
      destruct (Hnode i Hi) as (N1 & N2 & N3).
      destruct (Hsent i Hi) as [E1 E2].
      apply dlist_build.
      * intros [].
      * constructor.
      * split; [exact N1|]. unfold valid in *.
        rewrite F1, F2. cbn [with_brk mem_heap mem_brk] in *.
        unfold S in N2, N3. cbn [mem_heap mem_brk] in N2, N3.
        apply andb_prop in N2 as [N2 N2c]. apply andb_prop in N2 as [N2a N2b].
        apply andb_prop in N3 as [N3 N3c]. apply andb_prop in N3 as [N3a N3b].
        apply Z.leb_le in N2b, N3b.
        rewrite N2a, N2c, N3a, N3c.
        assert (G1 : (b + DSIZE * i + WSIZE <=? b + 288 + 4096) = true)
          by (apply Z.leb_le; lia).
        assert (G2 : (b + DSIZE * i + WSIZE + WSIZE <=? b + 288 + 4096) = true)
          by (apply Z.leb_le; lia).
        rewrite G1, G2. split; reflexivity.
      * intros z [].
      * cbn [linked].
        rewrite !Hpeek by (unfold NUM, DSIZE, WSIZE in *; lia).
        split; [exact E1 | exact E2].
    + intros a Ha.
      rewrite Hpeek by (unfold DSIZE, WSIZE in *; lia).
      rewrite HS by lia. apply Hout. lia.
Qed.

Lemma sane_mem_init : sane (mem_init base0).
Proof. vm_compute. repeat split; discriminate || reflexivity. Qed.

Lemma mm_init_layout_witness :
  exists st',
    mm_init (mem_init base0) = Ok (0, st') /\
    peek st' (base0 + 280) = PACK CHUNKSIZE 0 /\
    dlist st' (base0 + DSIZE * 9) [base0 + 288].
Proof.
  destruct (mm_init_layout (mem_init base0) base0)
    as (st' & H1 & _ & _ & _ & _ & _ & _ & _ & H2 & _ & _ & H3 & _).
  - exact sane_mem_init.
  - reflexivity.
  - reflexivity.
  - vm_compute. discriminate.
  - exists st'. split; [exact H1|]. split; [exact H2|].
    apply (H3 9). unfold NUM. lia.
Defined.

(** X19.  [mm_init] on a region with less than [4384] bytes above the
    break returns [-1], whichever of its three requests to [mem_sbrk] is
    the one refused, and writes nothing outside the [288] bytes above the
    old break. *)
Theorem mm_init_out_of_memory (st : state) (b : Z) :
  sane st -> b = mem_brk st -> b mod DSIZE = 0 ->
  mem_max_addr st < b + 4384 ->
  exists st',
    mm_init st = Ok (-1, st') /\
    mem_heap st' = mem_heap st /\ mem_max_addr st' = mem_max_addr st /\
    (forall a, a < b \/ b + 288 <= a -> peek st' a = peek st a).
Proof.
  intros Hs Eb Hal Hsmall.
  pose proof Hs as (S1 & S2 & S3 & S4).
  destruct (Z.lt_ge_cases (mem_max_addr st) (b + 256)) as [H1 | H1].
  { exists st. unfold mm_init. change (wmul NUM DSIZE) with 256.
    rewrite (bind_step _ _ _ _ _
               (mem_sbrk_refused 256 st ltac:(rewrite <- Eb; exact H1))).
    rewrite Z.eqb_refl. unfold ret. auto. }
  destruct (Z.lt_ge_cases (mem_max_addr st) (b + 288)) as [H2 | H2].
  { destruct (mm_init_sentinels st b Hs Eb Hal H1) as (c2 & Hin & Hout & ->).
    match goal with
    | |- context [bind (mem_sbrk 32) ?k ?s] =>
        rewrite (bind_step (mem_sbrk 32) k s _ _
                   (mem_sbrk_refused 32 s ltac:(frame_simpl; lia)))
    end.
    step_refl. change (wrap (-1)) with (2 ^ 64 - 1).
    rewrite Z.eqb_refl. unfold ret. eexists. split; [reflexivity|].
    frame_simpl. split; [reflexivity|]. split; [reflexivity|].
    intros a Ha. unfold peek at 1. cbn [cells]. apply Hout. lia. }
  destruct (mm_init_prefix st b Hs Eb Hal H2) as (c2 & Hin & Hout & ->).
  match goal with
  | |- context [bind (extend_heap 512) ?k ?s] =>
      rewrite (bind_step (extend_heap 512) k s _ _
                 (extend_heap_refused 512 s
                    ltac:(change (heap_growth 512) with 4096;
                          frame_simpl; lia)))
  end.
  rewrite Z.eqb_refl. unfold ret. eexists. split; [reflexivity|].
  frame_simpl. split; [reflexivity|]. split; [reflexivity|].
  intros a Ha. peek_ins. unfold peek at 1. cbn [cells]. apply Hout. lia.
Qed.

Lemma mm_init_out_of_memory_witness :
  exists st',
    mm_init (mkState base0 base0 (base0 + 4000) ∅ 0 0) = Ok (-1, st').
Proof.
  destruct (mm_init_out_of_memory (mkState base0 base0 (base0 + 4000) ∅ 0 0)
              base0) as (st' & H & _).
  - vm_compute. repeat split; discriminate || reflexivity.
  - reflexivity.
  - reflexivity.
  - vm_compute. reflexivity.
  - exists st'. exact H.
Defined.

(** What [coalesce] writes when only the previous block is free. *)
Lemma coalesce_merge_prev_eval st bp size ps h' p n t :
  sane st -> bp mod DSIZE = 0 -> 2 * DSIZE <= size ->
  size mod DSIZE = 0 -> bp + size < 2 ^ 64 ->
  valid st (bp - WSIZE) = true ->
  Z.land (peek st (bp - WSIZE)) (wnot (DSIZE - 1)) = size ->
  valid st (bp + size - DSIZE) = true ->
  valid st (bp + size - WSIZE) = true ->
  Z.land (peek st (bp + size - WSIZE)) 1 = 1 ->
  2 * DSIZE <= ps -> ps mod DSIZE = 0 ->
  valid st (bp - DSIZE) = true ->
  Z.land (peek st (bp - DSIZE)) (wnot (DSIZE - 1)) = ps ->
  Z.land (peek st (bp - DSIZE)) 1 = 0 ->
  valid st (bp - ps - WSIZE) = true ->
  Z.land (peek st (bp - ps - WSIZE)) (wnot (DSIZE - 1)) = ps ->
  p = peek st (bp - ps + WSIZE) -> n = peek st (bp - ps) ->
  node_ok st p -> node_ok st n ->
  outside (bp - ps) (ps + size) p -> outside (bp - ps) (ps + size) n ->
  h' = list_head (free_lists st) (find_explicit (size + ps)) ->
  node_ok st h' -> outside (bp - ps) (ps + size) h' ->
  t = (if p =? h' then n else peek st h') ->
  node_ok st t -> outside (bp - ps) (ps + size) t ->
  coalesce bp st
  = Ok (bp - ps,
        upd (upd (upd (upd
          (upd (upd (upd (upd st
             p n)
             (n + WSIZE) p)
             (bp + size - DSIZE) (PACK (size + ps) 0))
             (bp - ps - WSIZE) (PACK (size + ps) 0))
          h' (bp - ps))
          (t + WSIZE) (bp - ps))
          (bp - ps + WSIZE) h')
          (bp - ps) t).
Proof.
  intros Hs Ha Hmin Hszm Hlt Hvh Eh Hvf Hvn Hna Hps Hpsm Hvpf Epf Hpa Hvph
    Eph Ep En Hnp Hnn Hop Hon Ehh Hnh Hoh Et Hnt Hot.
  destruct (valid_sane _ _ Hs Hvph) as [P1 P2].
  destruct (valid_sane _ _ Hs Hvh) as [P3 P4].
  pose proof Hnp as (Hap & _). pose proof Hnn as (Hann & _).
  pose proof Hnh as (Hah & _). pose proof Hnt as (Hat & _).
  assert (Ehd : HDRP bp = bp - WSIZE)
    by (apply HDRP_eq; unfold DSIZE, WSIZE in *; lia).
  assert (Ehn : HDRP (bp + size) = bp + size - WSIZE)
    by (apply HDRP_eq; unfold DSIZE, WSIZE in *; lia).
  assert (Ehp : HDRP (bp - ps) = bp - ps - WSIZE)
    by (apply HDRP_eq; unfold DSIZE, WSIZE in *; lia).
  assert (Hbetween : forall c, bp - ps - WSIZE <= c <= bp + size - DSIZE ->
                       c mod WSIZE = 0 -> valid st c = true).
  { intros c Hc Hm. exact (valid_between _ _ _ _ Hvph Hvf Hc Hm). }
  assert (Hvx : valid st (bp - ps) = true)
    by (apply Hbetween; unfold DSIZE, WSIZE in *; div_mod_lia).
  assert (Hvx8 : valid st (bp - ps + WSIZE) = true)
    by (apply Hbetween; unfold DSIZE, WSIZE in *; div_mod_lia).
  unfold coalesce. rewrite Ehd.
  rewrite (bind_step _ _ _ _ _ (GET_SIZE_eval _ _ Hvh)), Eh.
  assert (Epb : PREV_BLKP bp st = Ok (bp - ps, st))
    by (apply PREV_BLKP_eval; try assumption;
        unfold DSIZE, WSIZE in *; lia).
  rewrite (bind_step _ _ _ _ _ Epb).
  assert (Epff : FTRP (bp - ps) st = Ok (bp - DSIZE, st)).
  { replace (bp - DSIZE) with (bp - ps + ps - DSIZE) by lia.
    apply FTRP_eval; try assumption; unfold DSIZE, WSIZE in *; lia. }
  rewrite (bind_step _ _ _ _ _ Epff).
  rewrite (bind_step _ _ _ _ _ (GET_ALLOC_eval _ _ Hvpf)), Hpa.
  assert (Enb : NEXT_BLKP bp st = Ok (bp + size, st))
    by (apply NEXT_BLKP_eval; try assumption;
        unfold DSIZE, WSIZE in *; lia).
  rewrite (bind_step _ _ _ _ _ Enb), Ehn.
  rewrite (bind_step _ _ _ _ _ (GET_ALLOC_eval _ _ Hvn)), Hna.
  cbn [Z.eqb negb andb].
  rewrite (bind_step _ _ _ _ _ Epb), Ehp.
  rewrite (bind_step _ _ _ _ _ (GET_SIZE_eval _ _ Hvph)), Eph.
  rewrite (bind_step _ _ _ _ _ Epb).
  assert (Esum : wadd size ps = size + ps).
  { unfold wadd, wrap. apply Z.mod_small. unfold DSIZE, WSIZE in *. lia. }
  rewrite Esum.
  assert (Hdel : deleteBlock (bp - ps) st
                 = Ok (tt, upd (upd st p n) (n + WSIZE) p)).
  { rewrite (deleteBlock_eval st (bp - ps)); rewrite <- ?Ep, <- ?En;
      try assumption.
    - reflexivity.
    - split; [|split; [exact Hvx | exact Hvx8]].
      unfold DSIZE, WSIZE in *. div_mod_lia.
    - unfold outside, DSIZE, WSIZE in *. lia. }
  rewrite (bind_step _ _ _ _ _ Hdel).
  set (st4 := upd (upd st p n) (n + WSIZE) p).
  assert (Ef4 : FTRP bp st4 = Ok (bp + size - DSIZE, st4)).
  { apply FTRP_eval; try (unfold DSIZE, WSIZE in *; lia); [exact Hvh|].
    unfold st4. unfold outside in *. peek_tac. exact Eh. }
  rewrite (bind_step _ _ _ _ _ Ef4). put_step Hvf.
  set (st5 := upd st4 (bp + size - DSIZE) (PACK (size + ps) 0)).
  assert (Epb5 : PREV_BLKP bp st5 = Ok (bp - ps, st5)).
  { apply PREV_BLKP_eval; try assumption;
      try (unfold DSIZE, WSIZE in *; lia).
    unfold st5, st4. unfold outside in *. peek_tac. exact Epf. }
  rewrite (bind_step _ _ _ _ _ Epb5), Ehp. put_step Hvph.
  set (st6 := upd st5 (bp - ps - WSIZE) (PACK (size + ps) 0)).
  assert (Epb6 : PREV_BLKP bp st6 = Ok (bp - ps, st6)).
  { apply PREV_BLKP_eval; try assumption;
      try (unfold DSIZE, WSIZE in *; lia).
    unfold st6, st5, st4. unfold outside in *. peek_tac. exact Epf. }
  rewrite (bind_step _ _ _ _ _ Epb6).
  assert (Hpk : Z.land (PACK (size + ps) 0) (wnot (DSIZE - 1)) = size + ps).
  { apply size_of_PACK; auto; unfold DSIZE, WSIZE in *; div_mod_lia. }
  assert (Ebs : block_size st6 (bp - ps) = size + ps).
  { unfold block_size. rewrite Ehp. unfold st6. peek_tac. exact Hpk. }
  assert (Et6 : peek st6 h' = t).
  { unfold st6, st5, st4. unfold outside in *.
    destruct (Z.eqb_spec p h') as [E | E].
    - rewrite <- E. peek_tac. symmetry. exact Et.
    - peek_tac. symmetry. exact Et. }
  assert (Hs6 : sane st6) by exact Hs.
  assert (Hins : insertBlock (bp - ps) st6
                 = Ok (tt, upd (upd (upd (upd st6 h' (bp - ps))
                                       (t + WSIZE) (bp - ps))
                                  (bp - ps + WSIZE) h') (bp - ps) t)).
  { rewrite (insertBlock_eval st6 (bp - ps) h'); rewrite ?Et6;
      try assumption.
    - reflexivity.
    - rewrite Ehp. exact Hvph.
    - rewrite Ebs. exact Ehh.
    - split; [|split; [exact Hvx | exact Hvx8]].
      unfold DSIZE, WSIZE in *. div_mod_lia. }
  rewrite (bind_step _ _ _ _ _ Hins). reflexivity.
Qed.

(** X20.  Freeing a block whose predecessor is free and whose successor
    is allocated merges the two: the predecessor leaves its list, its
    header and the footer of the freed block both become
    [PACK (size + ps) 0], the sum of the two sizes, and the merged block,
    which starts where the predecessor did, is linked in right behind the
    sentinel [h'] of the class of that sum.  The predecessor is unlinked:
    the [next] link of the node [p] before it ends as the node [n] after
    it and the [prev] link of [n] ends as [p], except where the merged
    block has taken the place ([p] is that sentinel, or [n] was the first
    node behind it). *)
Theorem free_merges_with_prev
    (st : state) (bp size ps h' p n t : Z) :
  sane st -> block_at st bp size -> 2 * DSIZE <= size ->
  block_at st (bp - ps) ps -> 2 * DSIZE <= ps ->
  Z.land (peek st (bp - DSIZE)) (wnot (DSIZE - 1)) = ps ->
  Z.land (peek st (bp - DSIZE)) 1 = 0 ->
  Z.land (peek st (bp + size - WSIZE)) 1 = 1 ->
  p = peek st (bp - ps + WSIZE) -> n = peek st (bp - ps) ->
  node_ok st p -> node_ok st n ->
  outside (bp - ps) (ps + size) p -> outside (bp - ps) (ps + size) n ->
  h' = list_head (free_lists st) (find_explicit (size + ps)) ->
  node_ok st h' -> outside (bp - ps) (ps + size) h' ->
  t = (if p =? h' then n else peek st h') ->
  node_ok st t -> outside (bp - ps) (ps + size) t ->
  exists st',
    mm_free bp st = Ok (tt, st') /\
    peek st' (bp - ps - WSIZE) = PACK (size + ps) 0 /\
    peek st' (bp + size - DSIZE) = PACK (size + ps) 0 /\
    peek st' h' = bp - ps /\ peek st' (bp - ps + WSIZE) = h' /\
    peek st' (bp - ps) = t /\ peek st' (t + WSIZE) = bp - ps /\
    same_frame st st' /\
    peek st' p = (if p =? h' then bp - ps else n) /\
    peek st' (n + WSIZE) = (if n =? t then bp - ps else p).
Proof.
  intros Hs Hb Hmin Hpb Hps Epf Hpa Hna
    Ep En Hnp Hnn Hop Hon Ehh Hnh Hoh Et Hnt Hot.
  rewrite (mm_free_steps st bp size Hs Hb) by (unfold DSIZE, WSIZE in *; lia).
  destruct (block_at_bounds _ _ _ Hs Hb) as (B1 & B2 & B3 & B4 & B5).
  destruct (block_at_bounds _ _ _ Hs Hpb) as (N1 & N2 & N3 & N4 & N5).
  pose proof Hb as (Ha & Hsz & Hvh & Hvf & Hvn).
  destruct Hpb as (_ & Hpsz & Hvph & Hvpf & _).
  assert (Ehp : HDRP (bp - ps) = bp - ps - WSIZE)
    by (apply HDRP_eq; unfold DSIZE, WSIZE in *; lia).
  unfold block_size in Hpsz. rewrite Ehp in Hpsz.
  replace (bp - ps + ps - DSIZE) with (bp - DSIZE) in Hvpf by lia.
  pose proof Hnp as (Hap & _). pose proof Hnn as (Hann & _).
  pose proof Hnh as (Hah & _). pose proof Hnt as (Hat & _).
  set (st2 := upd (upd st (bp - WSIZE) (PACK size 0))
                (bp + size - DSIZE) (PACK size 0)).
  assert (Hco : coalesce bp st2
                = Ok (bp - ps,
                      upd (upd (upd (upd
                        (upd (upd (upd (upd st2
                           p n)
                           (n + WSIZE) p)
                           (bp + size - DSIZE) (PACK (size + ps) 0))
                           (bp - ps - WSIZE) (PACK (size + ps) 0))
                        h' (bp - ps))
                        (t + WSIZE) (bp - ps))
                        (bp - ps + WSIZE) h')
                        (bp - ps) t)).
  { apply (coalesce_merge_prev_eval st2 bp size ps h' p n t);
      try assumption.
    - unfold st2. peek_tac. apply size_of_PACK; auto.
    - unfold st2. peek_tac. exact Hna.
    - unfold st2. peek_tac. exact Epf.
    - unfold st2. peek_tac. exact Hpa.
    - unfold st2. peek_tac. exact Hpsz.
    - unfold st2. peek_tac. exact Ep.
    - unfold st2. peek_tac. exact En.
    - unfold st2. unfold outside in *.
      destruct (p =? h'); [exact Et | peek_tac; exact Et]. }
  rewrite (bind_step _ _ _ _ _ Hco). unfold ret.
  eexists. split; [reflexivity|].
  unfold outside in *. clear Hco.
  split; [peek_tac; reflexivity|].
  split; [peek_tac; reflexivity|].
  split; [peek_tac; reflexivity|].
  split; [peek_tac; reflexivity|].
  split; [peek_tac; reflexivity|].
  split; [peek_tac; reflexivity|].
  split; [repeat split|].
  split.
  - destruct (Z.eqb_spec p h') as [E | E].
    + rewrite E. peek_tac. reflexivity.
    + peek_tac. reflexivity.
  - destruct (Z.eqb_spec n t) as [E | E].
    + rewrite E. peek_tac. reflexivity.
    + peek_tac. reflexivity.
Qed.

Lemma sane_st_prev_free : sane st_prev_free.
Proof. vm_compute. repeat split; discriminate || reflexivity. Qed.

Lemma free_merges_with_prev_witness :
  exists st',
    mm_free (first_bp + 128) st_prev_free = Ok (tt, st') /\
    peek st' (first_bp - WSIZE) = PACK 160 0 /\
    peek st' (head0 2) = first_bp /\
    peek st' (head0 1) = head0 1 /\
    peek st' (head0 1 + WSIZE) = head0 1.
Proof.
  destruct (free_merges_with_prev st_prev_free (first_bp + 128) 32 128
              (head0 2) (head0 1) (head0 1) (head0 2))
    as (st' & H1 & H2 & _ & H3 & _ & _ & _ & _ & H5 & H6).
  - exact sane_st_prev_free.
  - unfold block_at. repeat split; vm_compute; reflexivity.
  - vm_compute. discriminate.
  - unfold block_at. repeat split; vm_compute; reflexivity.
  - vm_compute. discriminate.
  - vm_compute. reflexivity.
  - vm_compute. reflexivity.
  - vm_compute. reflexivity.
  - vm_compute. reflexivity.
  - vm_compute. reflexivity.
  - unfold node_ok. repeat split; vm_compute; reflexivity.
  - unfold node_ok. repeat split; vm_compute; reflexivity.
  - left. vm_compute. discriminate.
  - left. vm_compute. discriminate.
  - vm_compute. reflexivity.
  - unfold node_ok. repeat split; vm_compute; reflexivity.
  - left. vm_compute. discriminate.
  - vm_compute. reflexivity.
  - unfold node_ok. repeat split; vm_compute; reflexivity.
  - left. vm_compute. discriminate.
  - assert (E : (head0 1 =? head0 2) = false) by reflexivity.
    rewrite E in H5, H6.
    exists st'. split; [exact H1|]. split.
    + replace (first_bp - WSIZE) with (first_bp + 128 - 128 - WSIZE) by lia.
      exact H2.
    + split; [rewrite H3; unfold first_bp; lia|].
      split; [exact H5 | exact H6].
Defined.

(** ** Allocating by growing the heap *)

Lemma heap_growth_even asize :
  asize mod DSIZE = 0 -> 0 <= asize -> asize + DSIZE < 2 ^ 64 ->
  heap_growth (wadd asize (wmul 2 WSIZE) / WSIZE) = asize + DSIZE.
Proof.
  intros Hm H0 Hlt.
  unfold heap_growth, wadd, wmul, wrap, DSIZE, WSIZE in *.
  change ((2 * 8) mod 2 ^ 64) with 16.
  rewrite (Z.mod_small (asize + 16)) by lia.
  assert (E : ((asize + 16) / 8) mod 2 = 0) by div_mod_lia.
  rewrite E. cbn [Z.eqb negb].
  rewrite Z.mod_small by div_mod_lia. div_mod_lia.
Qed.

Lemma valid_same_frame st st' p :
  same_frame st st' -> valid st' p = valid st p.
Proof.
  intros (F1 & F2 & _). unfold valid. rewrite F1, F2. reflexivity.
Qed.

(** X21.  An allocation for which no free block fits, behind an
    allocated last block: the region grows by the adjusted size plus one
    doubleword, the new block starts at the old break and is taken whole,
    so header and footer hold [PACK (asize + DSIZE) 1], a new epilogue
    header ends the heap, and the free list the new block passed through
    holds the same nodes as before. *)
Theorem malloc_extends_heap
    (fuel : nat) (st : state) (size asize ps bp h : Z) (l : list Z) :
  sane st -> 0 < size <= 2 ^ 64 - 32 -> asize = malloc_asize size ->
  find_fit fuel asize st = Ok (NULL, st) ->
  bp = mem_brk st -> bp mod DSIZE = 0 ->
  mem_brk st + (asize + DSIZE) <= mem_max_addr st ->
  DSIZE <= ps -> valid st (bp - DSIZE) = true ->
  Z.land (peek st (bp - DSIZE)) (wnot (DSIZE - 1)) = ps ->
  Z.land (peek st (bp - DSIZE)) 1 = 1 ->
  valid st (bp - ps - WSIZE) = true ->
  Z.land (peek st (bp - ps - WSIZE)) (wnot (DSIZE - 1)) = ps ->
  h = list_head (free_lists st) (find_explicit (asize + DSIZE)) ->
  dlist st h l ->
  (forall x, In x (h :: l) -> x + DSIZE <= bp - WSIZE) ->
  exists st',
    mm_malloc fuel size st = Ok (bp, st') /\
    mem_brk st' = mem_brk st + (asize + DSIZE) /\
    peek st' (bp - WSIZE) = PACK (asize + DSIZE) 1 /\
    peek st' (bp + asize) = PACK (asize + DSIZE) 1 /\
    peek st' (bp + asize + WSIZE) = PACK 0 1 /\
    size <= asize /\
    dlist st' h l.
Proof.
  intros Hs Hsz Ea Hfind Ebp Hal Hroom Hps Hvpf Epf Hpa Hvph Eph Eh Hd Hbelow.
  pose proof Hs as (S1 & S2 & S3 & S4).
  destruct (malloc_asize_bounds size Hsz) as (Hm1 & Hm2 & Hm3).
  rewrite <- Ea in Hm1, Hm2, Hm3.
  assert (Hvpf' := Hvpf). unfold valid in Hvpf'.
  apply andb_prop in Hvpf' as [Hvpf' _].
  apply andb_prop in Hvpf' as [Q1 Q2]. apply Z.leb_le in Q1, Q2.
  set (csize := asize + DSIZE) in *.
  assert (Hcs : 2 * DSIZE <= csize /\ csize < 2 ^ 64 /\ csize mod DSIZE = 0).
  { unfold csize, DSIZE, WSIZE in *. split; [lia|]. split; [lia|].
    div_mod_lia. }
  destruct Hcs as (C1 & C2 & C3).
  assert (Eg : heap_growth (wadd asize (wmul 2 WSIZE) / WSIZE) = csize).
  { apply heap_growth_even; unfold csize, DSIZE, WSIZE in *; lia. }
  destruct (extend_heap_append st (wadd asize (wmul 2 WSIZE) / WSIZE)
              csize ps bp h l)
    as (st1 & Hext & Hfr1 & T1 & T2 & T3 & Hd1 & Hpk1);
    try assumption; try (symmetry; exact Eg).
  assert (Hs1 : sane st1).
  { eapply sane_frame; [exact Hfr1|].
    unfold sane. cbn [with_brk mem_heap mem_brk mem_max_addr].
    unfold DSIZE, WSIZE in *. lia. }
  assert (Hv1 : forall c, bp - WSIZE <= c <= bp + csize - WSIZE ->
                  c mod WSIZE = 0 -> valid st1 c = true).
  { intros c Hc Hm. rewrite (valid_same_frame _ _ _ Hfr1).
    apply valid_intro; cbn [with_brk mem_heap mem_brk];
      unfold DSIZE, WSIZE in *; try lia; exact Hm. }
  assert (Ehd : HDRP bp = bp - WSIZE)
    by (apply HDRP_eq; unfold DSIZE, WSIZE in *; lia).
  assert (Hb1 : block_at st1 bp csize).
  { split; [exact Hal|]. split.
    - unfold block_size. rewrite Ehd, T1. apply size_of_PACK; auto.
      unfold DSIZE, WSIZE in *; lia.
    - split; [|split]; apply Hv1; unfold DSIZE, WSIZE in *; div_mod_lia. }
  destruct (place_whole_dlist st1 bp asize csize h [] l)
    as (st' & Hpl & U1 & U2 & Hd' & Hfr' & Hpk'); try assumption.
  { unfold wsub, wrap, csize, ALIGN, DSIZE, WSIZE in *.
    rewrite Z.mod_small; lia. }
  { intros x Hx. left. specialize (Hbelow x Hx).
    unfold DSIZE, WSIZE in *. lia. }
  exists st'. unfold mm_malloc.
  assert (Hz : (size =? 0) = false) by (apply Z.eqb_neq; lia).
  rewrite Hz, <- Ea, (bind_step _ _ _ _ _ Hfind).
  cbn [Z.eqb NULL negb]. rewrite (bind_step _ _ _ _ _ Hext).
  assert (Hnz : (bp =? NULL) = false)
    by (apply Z.eqb_neq; unfold NULL, DSIZE, WSIZE in *; lia).
  rewrite Hnz, (bind_step _ _ _ _ _ Hpl). unfold ret.
  assert (Oh : h + DSIZE <= bp - WSIZE) by (apply Hbelow; left; reflexivity).
  assert (Ot : hd h l + DSIZE <= bp - WSIZE).
  { apply Hbelow. destruct (hd_in h l) as [-> | Hin];
      [left; reflexivity | right; exact Hin]. }
  split; [reflexivity|].
  split.
  { destruct Hfr' as (_ & F2 & _). destruct Hfr1 as (_ & G2 & _).
    rewrite F2, G2. reflexivity. }
  split; [exact U1|].
  split.
  { replace (bp + asize) with (bp + csize - DSIZE) by (unfold csize; lia).
    exact U2. }
  split.
  { replace (bp + asize + WSIZE) with (bp + csize - WSIZE)
      by (unfold csize, DSIZE, WSIZE; lia).
    rewrite Hpk' by (cbn [last_node]; unfold DSIZE, WSIZE in *; lia).
    exact T3. }
  split; [unfold DSIZE, WSIZE in *; lia | exact Hd'].
Qed.

Lemma malloc_extends_heap_witness :
  exists st',
    mm_malloc 3 16 st_full = Ok (base0 + 4384, st') /\
    mem_brk st' = mem_brk st_full + 48 /\
    peek st' (base0 + 4384 - WSIZE) = PACK 48 1.
Proof.
  destruct (malloc_extends_heap 3 st_full 16 32 4096 (base0 + 4384)
              (head0 0) []) as (st' & H1 & H2 & H3 & _).
  - exact sane_st_full.
  - lia.
  - reflexivity.
  - vm_compute. reflexivity.
  - reflexivity.
  - reflexivity.
  - vm_compute. discriminate.
  - vm_compute. discriminate.
  - vm_compute. reflexivity.
  - vm_compute. reflexivity.
  - vm_compute. reflexivity.
  - vm_compute. reflexivity.
  - vm_compute. reflexivity.
  - vm_compute. reflexivity.
  - apply check_dlist_sound. vm_compute. reflexivity.
  - intros x [<- | []]. vm_compute. discriminate.
  - exists st'. auto.
Defined.
